(** * VideoJSPlayer: source resolution, quality menu, chapters, subtitles

    A shallow embedding of the decision logic of
    [frontend-tools/video-js/src/components/video-player/VideoJSPlayer.jsx]
    and the properties its specification states about it.

    Conventions of the embedding:
    - a JavaScript string is a [string]: the bytes of its UTF-8 encoding.
      Searching, splitting and comparing strings are the same on the bytes
      as on the characters; the white space skipped by [parseInt] and
      [parseFloat] is recognised by its encoding; [toLowerCase] folds the
      ASCII letters and keeps every other byte, which is what the built-in
      does on strings of ASCII characters (the properties that depend on
      the fold are stated for such strings);
    - a JavaScript Number that carries a time is a binary64 [float], with the
      primitive IEEE operations; [parseInt] answers with the integer the
      digits denote ([None] for NaN), and the Numbers the comparators of
      [sort] subtract are integers as binary64 holds them: 53 significant
      bits, rounded to nearest, ties to even ([JS.integral]);
    - a JavaScript object used as a table is the list of its own entries in
      the order [Object.keys] enumerates them; an absent, [undefined] or
      [null] field is [None], but for the one field whose text is printed,
      which tells them apart ([JS.count]). *)

From Stdlib Require Import ZArith List String Ascii Bool Lia.
From Stdlib Require Import Permutation Sorted.
From Stdlib Require Import DecimalString.
From Stdlib Require Import Floats.PrimFloat Floats.SpecFloat Floats.FloatOps.
From Stdlib Require Import Floats.FloatAxioms.
Import ListNotations.

Open Scope list_scope.
Open Scope string_scope.

(* ================================================================== *)
(** ** The JavaScript built-ins the component relies on *)
(* ================================================================== *)

Module JS.

(** *** Truthiness and [||] *)

Definition truthy_str (s : string) : bool := negb (String.eqb s "").

Definition truthy_opt (o : option string) : bool :=
  match o with
  | Some s => truthy_str s
  | None => false
  end.

(** [a || b] where both sides may be absent. *)
Definition or_opt (a b : option string) : option string :=
  if truthy_opt a then a else b.

(** [a || 'literal']. *)
Definition or_str (a : option string) (b : string) : string :=
  match or_opt a (Some b) with
  | Some s => s
  | None => b
  end.

(** [a || true], [a || false] on a boolean flag that may be absent. *)
Definition or_bool (a : option bool) (b : bool) : bool :=
  match a with
  | Some true => true
  | _ => b
  end.

(** [NaN], [+0] and [-0] are the falsy Numbers. *)
Definition truthy_num (x : float) : bool :=
  negb (PrimFloat.is_nan x || PrimFloat.is_zero x).

(** [x || 0] on Numbers. *)
Definition or_zero (x : float) : float :=
  if truthy_num x then x else 0%float.

(** *** Strings *)

Definition lower_char (c : ascii) : ascii :=
  let n := nat_of_ascii c in
  if (65 <=? n)%nat && (n <=? 90)%nat then ascii_of_nat (n + 32) else c.

Fixpoint toLowerCase (s : string) : string :=
  match s with
  | EmptyString => EmptyString
  | String c t => String (lower_char c) (toLowerCase t)
  end.

(** [s.startsWith(p)] *)
Definition startsWith (s p : string) : bool := String.prefix p s.

(** [s.includes(sub)] *)
Fixpoint includes (s sub : string) : bool :=
  String.prefix sub s ||
  match s with
  | EmptyString => false
  | String _ t => includes t sub
  end.

Fixpoint drop (n : nat) (s : string) : string :=
  match n, s with
  | O, _ => s
  | S n', String _ t => drop n' t
  | S _, EmptyString => EmptyString
  end.

(** [s.endsWith(suf)] *)
Definition endsWith (s suf : string) : bool :=
  (String.length suf <=? String.length s)%nat &&
  String.eqb (drop (String.length s - String.length suf) s) suf.

(** [s.replace(pat, rep)] with a string pattern: the first occurrence only.
    (The replacement strings of this component hold no [$].) *)
Fixpoint replace (s pat rep : string) : string :=
  if String.prefix pat s then rep ++ drop (String.length pat) s
  else match s with
       | EmptyString => EmptyString
       | String c t => String c (replace t pat rep)
       end.

(** [s.split(sep)] with a one-character separator. *)
Fixpoint split (sep : ascii) (s : string) : list string :=
  match s with
  | EmptyString => [EmptyString]
  | String c t =>
      if Ascii.eqb c sep then EmptyString :: split sep t
      else match split sep t with
           | h :: r => String c h :: r
           | [] => [String c EmptyString]
           end
  end.

(** *** Numeric parsing *)

(** White space and line terminators skipped by [parseInt]/[parseFloat]:
    the one-byte ones (TAB, LF, VT, FF, CR, SP), *)
Definition is_ws (c : ascii) : bool :=
  let n := nat_of_ascii c in
  ((9 <=? n)%nat && (n <=? 13)%nat) || (n =? 32)%nat.

(** U+00A0 (C2 A0), *)
Definition is_ws2 (a b : ascii) : bool :=
  ((nat_of_ascii a =? 194) && (nat_of_ascii b =? 160))%nat.

(** and U+1680 (E1 9A 80), U+2000 to U+200A, U+2028, U+2029, U+202F
    (E2 80 80..8A, A8, A9, AF), U+205F (E2 81 9F), U+3000 (E3 80 80) and
    U+FEFF (EF BB BF). *)
Definition is_ws3 (a b c : ascii) : bool :=
  let x := nat_of_ascii a in
  let y := nat_of_ascii b in
  let z := nat_of_ascii c in
  ((x =? 225) && (y =? 154) && (z =? 128)
   || (x =? 226) && (y =? 128)
      && ((128 <=? z) && (z <=? 138) || (z =? 168) || (z =? 169)
          || (z =? 175))
   || (x =? 226) && (y =? 129) && (z =? 159)
   || (x =? 227) && (y =? 128) && (z =? 128)
   || (x =? 239) && (y =? 187) && (z =? 191))%nat.

Fixpoint trimStart (s : string) : string :=
  match s with
  | String a t =>
      if is_ws a then trimStart t
      else if (192 <=? nat_of_ascii a)%nat then
        match t with
        | String b t' =>
            if is_ws2 a b then trimStart t'
            else match t' with
                 | String c t'' =>
                     if is_ws3 a b c then trimStart t'' else s
                 | EmptyString => s
                 end
        | EmptyString => s
        end
      else s
  | EmptyString => EmptyString
  end.

Definition dec_digit (c : ascii) : option Z :=
  let n := nat_of_ascii c in
  if (48 <=? n)%nat && (n <=? 57)%nat then Some (Z.of_nat (n - 48)) else None.

Definition hex_digit (c : ascii) : option Z :=
  let n := nat_of_ascii c in
  if (48 <=? n)%nat && (n <=? 57)%nat then Some (Z.of_nat (n - 48))
  else if (97 <=? n)%nat && (n <=? 102)%nat then Some (Z.of_nat (n - 87))
  else if (65 <=? n)%nat && (n <=? 70)%nat then Some (Z.of_nat (n - 55))
  else None.

(** The longest prefix of digits: their values, and what follows them. *)
Fixpoint read_digits (dv : ascii -> option Z) (s : string)
  : list Z * string :=
  match s with
  | EmptyString => ([], EmptyString)
  | String c t =>
      match dv c with
      | Some d => let '(ds, r) := read_digits dv t in (d :: ds, r)
      | None => ([], s)
      end
  end.

Definition digits_value (radix : Z) (ds : list Z) : Z :=
  fold_left (fun acc d => acc * radix + d)%Z ds 0%Z.

(** An optional sign: [true] when it is a minus. *)
Definition read_sign (s : string) : bool * string :=
  match s with
  | String "-" t => (true, t)
  | String "+" t => (false, t)
  | _ => (false, s)
  end.

Definition signed (neg : bool) (z : Z) : Z := if neg then (- z)%Z else z.

(** [parseInt(s, 10)]: [None] stands for NaN. *)
Definition parseInt10 (s : string) : option Z :=
  let '(neg, r) := read_sign (trimStart s) in
  match read_digits dec_digit r with
  | ([], _) => None
  | (ds, _) => Some (signed neg (digits_value 10 ds))
  end.

(** [parseInt(s)]: no radix given, so a [0x]/[0X] prefix selects 16. *)
Definition parseInt (s : string) : option Z :=
  let '(neg, r) := read_sign (trimStart s) in
  match r with
  | String "0" (String x t) =>
      if Ascii.eqb x "x" || Ascii.eqb x "X" then
        match read_digits hex_digit t with
        | ([], _) => None
        | (ds, _) => Some (signed neg (digits_value 16 ds))
        end
      else
        match read_digits dec_digit r with
        | ([], _) => None
        | (ds, _) => Some (signed neg (digits_value 10 ds))
        end
  | _ =>
      match read_digits dec_digit r with
      | ([], _) => None
      | (ds, _) => Some (signed neg (digits_value 10 ds))
      end
  end.

(** The Number nearest to an integer (ties to even). *)
Definition number_of_Z (z : Z) : float :=
  SF2Prim (binary_normalize prec emax z 0 false).

(** The Number a [parseInt] result denotes. *)
Definition number_of_int (r : option Z) : float :=
  match r with
  | Some z => number_of_Z z
  | None => PrimFloat.nan
  end.

(** The Number nearest to [m * 10^e], for [m >= 0]. *)
Definition number_of_decimal (m e : Z) : float :=
  match m with
  | Zpos p =>
      match e with
      | Zneg k =>
          SF2Prim (SFdiv prec emax (S754_finite false p 0)
                                   (S754_finite false (Pos.pow 10 k) 0))
      | _ => number_of_Z (m * 10 ^ e)
      end
  | _ => 0%float
  end.

(** The exponent part [e[+-]ddd] of a decimal literal, when there is one. *)
Definition read_exponent (s : string) : Z :=
  match s with
  | String c t =>
      if Ascii.eqb c "e" || Ascii.eqb c "E" then
        let '(neg, r) := read_sign t in
        match read_digits dec_digit r with
        | ([], _) => 0%Z
        | (ds, _) => signed neg (digits_value 10 ds)
        end
      else 0%Z
  | EmptyString => 0%Z
  end.

(** [parseFloat(s)]: the longest prefix that is a decimal literal. *)
Definition parseFloat (s : string) : float :=
  let '(neg, r) := read_sign (trimStart s) in
  let sgn (x : float) : float := if neg then PrimFloat.opp x else x in
  if String.prefix "Infinity" r then sgn PrimFloat.infinity
  else
    let '(ip, r1) := read_digits dec_digit r in
    let '(fp, r2) :=
      match r1 with
      | String "." t => read_digits dec_digit t
      | _ => ([], r1)
      end in
    match ip, fp with
    | [], [] => PrimFloat.nan
    | _, _ =>
        sgn (number_of_decimal (digits_value 10 (ip ++ fp))
                               (read_exponent r2 - Z.of_nat (List.length fp)))
    end.

(** *** Objects as tables *)

(** The own entries of an object, in [Object.keys] order; no key of an
    object occurs twice, and [get] answers with the first entry. *)
Definition obj (V : Type) : Type := list (string * V).

(** [o[k]] *)
Fixpoint get {V : Type} (o : obj V) (k : string) : option V :=
  match o with
  | [] => None
  | (k', v) :: r => if String.eqb k' k then Some v else get r k
  end.

(** [Object.keys(o)] *)
Definition keys {V : Type} (o : obj V) : list string := map fst o.

(** *** Arrays *)

(** [a.indexOf(x)], with [-1] when [x] is not an element. *)
Fixpoint indexOf (a : list string) (x : string) : Z :=
  match a with
  | [] => (-1)%Z
  | y :: r =>
      if String.eqb y x then 0%Z
      else let i := indexOf r x in
           if (i <? 0)%Z then (-1)%Z else (i + 1)%Z
  end.

(** *** Integer-valued Numbers

    A Number whose value is an integer, an infinity or NaN.  Binary64
    holds an integer below 2^53 in magnitude exactly; a larger one keeps
    its 53 leading bits, rounded to nearest with ties to even, and from
    2^1024 - 2^970 on it is an infinity.  (The two zeros are not told
    apart: no test of this component depends on the sign of a zero.) *)
Inductive integral : Type :=
| Integer (z : Z)
| Infinity (negative : bool)
| NaN.

(** The Number nearest to an integer. *)
Definition nearest (z : Z) : integral :=
  let a := Z.abs z in
  if (a <? 2 ^ 53)%Z then Integer z
  else
    let e := (Z.log2 a - 52)%Z in
    let q := (a / 2 ^ e)%Z in
    let r := (a mod 2 ^ e)%Z in
    let half := (2 ^ (e - 1))%Z in
    let q' := if (half <? r)%Z || ((half =? r)%Z && Z.odd q)
              then (q + 1)%Z else q in
    let m := (q' * 2 ^ e)%Z in
    if (2 ^ 1024 <=? m)%Z then Infinity (z <? 0)%Z
    else Integer (Z.sgn z * m).

(** The Number [parseInt] answers with. *)
Definition integral_of_int (r : option Z) : integral :=
  match r with
  | Some z => nearest z
  | None => NaN
  end.

(** [x - y] on integer-valued Numbers. *)
Definition minus (x y : integral) : integral :=
  match x, y with
  | Integer a, Integer b => nearest (a - b)
  | Infinity s, Integer _ => Infinity s
  | Integer _, Infinity s => Infinity (negb s)
  | Infinity s, Infinity s' => if Bool.eqb s s' then NaN else Infinity s
  | _, _ => NaN
  end.

(** *** Number to String

    [String(x)] for an integer-valued Number: the digits of the shortest
    decimal that reads back as [x] (of two that do, the nearer; of two
    equally near, the even one), written out in full below 10^21 and with
    an exponent from there on. *)
Definition show (z : Z) : string := NilZero.string_of_int (Z.to_int z).

Definition zeros (n : Z) : string :=
  String.concat "" (repeat "0" (Z.to_nat n)).

(** The decimal [c] reads back as the Number [v]. *)
Definition denotes (c v : Z) : bool :=
  match nearest c with
  | Integer m => (m =? v)%Z
  | _ => false
  end.

(** The [s] of [k] digits for which [s * 10^(n-k)] reads back as [v]. *)
Definition significand (v n k : Z) : option Z :=
  let p := (10 ^ (n - k))%Z in
  let lo := (v / p)%Z in
  let ok s := ((10 ^ (k - 1) <=? s)%Z && (s <? 10 ^ k)%Z
               && denotes (s * p) v)%bool in
  match ok lo, ok (lo + 1)%Z with
  | true, true =>
      let below := (v - lo * p)%Z in
      let above := ((lo + 1) * p - v)%Z in
      if (below <? above)%Z then Some lo
      else if (above <? below)%Z then Some (lo + 1)%Z
      else if Z.even lo then Some lo else Some (lo + 1)%Z
  | true, false => Some lo
  | false, true => Some (lo + 1)%Z
  | false, false => None
  end.

(** The least [k], from [k] on, that has such an [s]; 17 digits always
    do. *)
Fixpoint shortest (fuel : nat) (v n k : Z) : Z * Z :=
  match fuel with
  | O => (v, n)
  | S fuel' =>
      match significand v n k with
      | Some s => (s, k)
      | None => shortest fuel' v n (k + 1)
      end
  end.

Definition toString (x : integral) : string :=
  match x with
  | NaN => "NaN"
  | Infinity negative => if negative then "-Infinity" else "Infinity"
  | Integer z =>
      let v := Z.abs z in
      if (v <? 2 ^ 53)%Z then show z
      else
        let sign := if (z <? 0)%Z then "-" else "" in
        let digits := Z.of_nat (String.length (show v)) in
        let '(s, k, n) :=
          if denotes (10 ^ digits) v then (1%Z, 1%Z, (digits + 1)%Z)
          else let '(s, k) := shortest 17 v digits 1 in (s, k, digits) in
        sign ++
        (if (n <=? 21)%Z then show s ++ zeros (n - k)
         else
           match show s with
           | String d EmptyString => String d "e+" ++ show (n - 1)
           | String d rest => String d ("." ++ rest) ++ "e+" ++ show (n - 1)
           | EmptyString => EmptyString
           end)
  end.

(** A field that holds a count: [undefined] (also when the field is
    absent), [null], or a Number whose value is an integer, given by the
    integer its text denotes. *)
Inductive count : Type :=
| Undefined
| Null
| Count (z : Z).

(** [a.sort(cmp)]: the sort is stable; [cmp a b > 0] puts [b] first.
    A comparator that yields NaN ranks its arguments equal.  For a
    comparator that orders the elements consistently this is the one
    result the language allows; for any other comparator the built-in is
    implementation-defined and the model is one of its behaviours. *)
Definition cmp_gt (c : integral) : bool :=
  match c with
  | Integer z => (0 <? z)%Z
  | Infinity negative => negb negative
  | NaN => false
  end.

Fixpoint insert {A : Type} (cmp : A -> A -> integral) (x : A) (l : list A)
  : list A :=
  match l with
  | [] => [x]
  | y :: r => if cmp_gt (cmp x y) then y :: insert cmp x r else x :: l
  end.

Definition sort {A : Type} (cmp : A -> A -> integral) (l : list A) : list A :=
  fold_right (insert cmp) [] l.

(** [parseInt(s) - parseInt(s')] *)
Definition sub_int (x y : option Z) : integral :=
  minus (integral_of_int x) (integral_of_int y).

End JS.

(* ================================================================== *)
(** ** The media descriptor ([window.MEDIA_DATA]) *)
(* ================================================================== *)

(** A chapter time as the backend sends it: a Number of seconds, a string, or
    something else ([undefined], [null], a boolean, an object). *)
Inductive js_time : Type :=
| TNumber (x : float)
| TString (s : string)
| TOther.

Module Raw.

(** An entry of [chapter_data]. *)
Record chapter : Type := {
  startTime : js_time;
  endTime : js_time;
  chapterTitle : option string
}.

(** [encodings_info[quality].h264] *)
Record h264_info : Type := { url : option string }.

(** [encodings_info[quality]]; [{}] has no [h264]. *)
Record encoding : Type := { h264 : option h264_info }.

(** An entry of [qualities], and of the lists handed to [normalize]. *)
Record quality : Type := {
  label : option string;
  value : option string;
  src : option string;
  q_url : option string;
  href : option string;
  type : option string
}.

(** An entry of [related_media]. *)
Record related : Type := {
  friendly_token : option string;
  title : option string;
  user : option string;
  author_name : option string;
  views : JS.count;
  thumbnail_url : option string;
  author_thumbnail : option string;
  media_type : option string;
  r_url : option string;
  duration : option Z;
  size : option string;
  likes : option Z;
  dislikes : option Z;
  add_date : option string;
  description : option string
}.

End Raw.

(** [mediaData.data] *)
Record media : Type := {
  friendly_token : option string;
  title : option string;
  author_name : option string;
  author_profile : option string;
  author_thumbnail : option string;
  url : option string;
  poster_url : option string;
  media_type : option string;
  duration : option float;
  original_media_url : option string;
  hls_info : option (JS.obj string);
  encodings_info : option (JS.obj Raw.encoding);
  chapter_data : option (list Raw.chapter);
  qualities : option (list Raw.quality);
  related_media : option (list Raw.related)
}.

(** [mediaData]; [useRoundedCorners], [isPlayList], [urlAutoplay] and
    [urlMuted] are boolean flags, each of which may be absent. *)
Record media_data : Type := {
  data : option media;
  siteUrl : string;
  nextLink : option string;
  useRoundedCorners : option bool;
  isPlayList : option bool;
  urlAutoplay : option bool;
  urlMuted : option bool
}.

(** [mediaData.data?.f] *)
Definition data_field {A : Type} (f : media -> option A) (m : media_data)
  : option A :=
  match data m with
  | Some d => f d
  | None => None
  end.

(* ================================================================== *)
(** ** Chapters *)
(* ================================================================== *)

Module Chapters.

Import JS.
Local Open Scope float_scope.

(** A converted chapter: times in seconds. *)
Record chapter : Type := {
  startTime : float;
  endTime : float;
  chapterTitle : option string
}.

Definition convertTimeStringToSeconds (timeString : js_time) : float :=
  match timeString with
  | TNumber x => x
  | TOther => 0
  | TString s =>
      match split ":" s with
      | [p0; p1; p2] =>
          let hours := or_zero (number_of_int (parseInt10 p0)) in
          let minutes := or_zero (number_of_int (parseInt10 p1)) in
          let seconds := or_zero (parseFloat p2) in
          hours * 3600 + minutes * 60 + seconds
      | _ => 0
      end
  end.

Definition convertChapter (c : Raw.chapter) : chapter :=
  {| startTime := convertTimeStringToSeconds (Raw.startTime c);
     endTime := convertTimeStringToSeconds (Raw.endTime c);
     chapterTitle := Raw.chapterTitle c |}.

Definition convertChaptersData (rawChaptersData : option (list Raw.chapter))
  : list chapter :=
  match rawChaptersData with
  | None => []
  | Some l => map convertChapter l
  end.

(** The titles [/^(segment|video|full video|chapter|part)$/] accepts. *)
Definition genericTitles : list string :=
  ["segment"; "video"; "full video"; "chapter"; "part"].

(** [chapter.chapterTitle?.toLowerCase().match(...)], as a truth value. *)
Definition isGenericTitle (c : Raw.chapter) : bool :=
  match Raw.chapterTitle c with
  | Some t => existsb (String.eqb (toLowerCase t)) genericTitles
  | None => false
  end.

(** [videoDuration && videoDuration > 0] *)
Definition durationKnown (videoDuration : option float) : bool :=
  match videoDuration with
  | Some d => truthy_num d && (0 <? d)
  | None => false
  end.

Definition tolerance : float := 1.

(** [startTime <= tolerance && Math.abs(endTime - videoDuration) <= tolerance] *)
Definition isFullVideo (startTime endTime videoDuration : float) : bool :=
  (startTime <=? tolerance) && (abs (endTime - videoDuration) <=? tolerance).

Definition hasRealChapters (rawChaptersData : option (list Raw.chapter))
  (videoDuration : option float) : bool :=
  match rawChaptersData with
  | None => false
  | Some [] => false
  | Some [c] =>
      let startTime := convertTimeStringToSeconds (Raw.startTime c) in
      let endTime := convertTimeStringToSeconds (Raw.endTime c) in
      let fallback := negb ((startTime =? 0) && isGenericTitle c) in
      match videoDuration with
      | Some d =>
          if durationKnown videoDuration then
            if isFullVideo startTime endTime d && isGenericTitle c then false
            else if negb (isFullVideo startTime endTime d) then true
            else fallback
          else fallback
      | None => fallback
      end
  | Some (_ :: _ :: _) => true
  end.

(** The chapters shown in development mode when the media has none. *)
Definition devChapters : list Raw.chapter :=
  map (fun '(s, e, t) =>
         {| Raw.startTime := TString s; Raw.endTime := TString e;
            Raw.chapterTitle := Some t |})
    [ ("00:00:00.000", "00:00:04.000", "Introduction");
      ("00:00:05.000", "00:00:10.000", "Overview of Marine Life");
      ("00:00:10.000", "00:00:15.000", "Coral Reef Ecosystems");
      ("00:00:15.000", "00:00:20.000", "Deep Sea Creatures");
      ("00:00:20.000", "00:00:30.000", "Ocean Conservation");
      ("00:00:24.000", "00:00:32.000", "Ocean Conservation");
      ("00:00:32.000", "00:00:40.000", "Climate Change Impact");
      ("00:00:40.000", "00:00:48.000", "Marine Protected Areas");
      ("00:00:48.000", "00:00:56.000", "Sustainable Fishing");
      ("00:00:56.000", "00:00:64.000", "Research Methods");
      ("00:00:64.000", "00:00:72.000", "Future Challenges");
      ("00:00:72.000", "00:00:80.000", "Conclusion");
      ("00:00:80.000", "00:00:88.000", "Marine Biodiversity Hotspots");
      ("00:00:88.000", "00:00:96.000", "Marine Biodiversity test");
      ("00:00:96.000", "00:01:04.000", "Whale Migration Patterns");
      ("00:01:04.000", "00:01:12.000", "Plastic Pollution Crisis");
      ("00:01:12.000", "00:01:20.000", "Seagrass Meadows");
      ("00:01:20.000", "00:01:28.000", "Ocean Acidification");
      ("00:01:28.000", "00:01:36.000", "Marine Archaeology");
      ("00:01:28.000", "00:01:36.000", "Tidal Pool Ecosystems");
      ("00:01:36.000", "00:01:44.000", "Commercial Aquaculture");
      ("00:01:44.000", "00:01:52.000", "Ocean Exploration Technology") ].

(** [mediaData?.data?.duration || null] *)
Definition videoDuration (m : media_data) : option float :=
  match data_field duration m with
  | Some d => if truthy_num d then Some d else None
  | None => None
  end.

(** The memoized [chaptersData] of the component. *)
Definition chaptersData (isDevMode : bool) (mediaData : media_data)
  : list chapter :=
  match data_field chapter_data mediaData with
  | Some (c :: l) =>
      if hasRealChapters (Some (c :: l)) (videoDuration mediaData)
      then convertChaptersData (Some (c :: l))
      else []
  | _ => if isDevMode then map convertChapter devChapters else []
  end.

End Chapters.

(* ================================================================== *)
(** ** Source resolution and the quality menu *)
(* ================================================================== *)

(** A playable source: [{ src, type, label }]; the original-file and the
    sample sources carry no label. *)
Module Source.
Record t : Type := {
  src : string;
  type : string;
  label : option string
}.
End Source.

(** An entry of the quality menu: [{ label, value, src, type }]. *)
Module Quality.
Record t : Type := {
  label : string;
  value : string;
  src : option string;
  type : string
}.
End Quality.

(** [a] when it returned, else [b]: the fall-through of early [return]s. *)
Definition orElse {A : Type} (a b : option A) : option A :=
  match a with
  | Some x => Some x
  | None => b
  end.

Notation "a <|> b" := (orElse a b) (at level 55, right associativity).

Module Sources.

Import JS.

Definition getMimeType (url mediaType : option string) : string :=
  let has (ext : string) : bool :=
    match url with
    | Some u => truthy_str u && includes (toLowerCase u) ext
    | None => false
    end in
  match mediaType with
  | Some "audio" =>
      if has ".mp3" then "audio/mpeg"
      else if has ".ogg" then "audio/ogg"
      else if has ".wav" then "audio/wav"
      else if has ".m4a" then "audio/mp4"
      else "audio/mpeg"
  | _ =>
      if has ".webm" then "video/webm"
      else if has ".ogg" then "video/ogg"
      else "video/mp4"
  end.

(** [encodings[quality] && encodings[quality].h264 &&
    encodings[quality].h264.url]: the URL when the chain is truthy. *)
Definition h264_url (encodings : obj Raw.encoding) (quality : string)
  : option string :=
  match get encodings quality with
  | Some e =>
      match Raw.h264 e with
      | Some h => if truthy_opt (Raw.url h) then Raw.url h else None
      | None => None
      end
  | None => None
  end.

Definition isSome {A : Type} (o : option A) : bool :=
  match o with
  | Some _ => true
  | None => false
  end.

Definition hlsMimeType : string := "application/x-mpegURL".

Definition isAuto (userQuality : string) : bool :=
  String.eqb userQuality "auto".

Section Resolver.

Variable mediaData : media_data.
Variable userQuality : string.

Let mediaType : option string := data_field media_type mediaData.

Definition hlsSource (file label : string) : Source.t :=
  {| Source.src := siteUrl mediaData ++ file;
     Source.type := hlsMimeType;
     Source.label := Some label |}.

(** [if (userQuality === 'auto' && hls_info.master_file) return [...]] *)
Definition hlsAuto (hls : obj string) : option (list Source.t) :=
  match get hls "master_file" with
  | Some f => if isAuto userQuality && truthy_str f
              then Some [hlsSource f "Auto"] else None
  | None => None
  end.

(** [if (userQuality !== 'auto') { ... hls_info[qualityKey] ... }] *)
Definition hlsVariant (hls : obj string) : option (list Source.t) :=
  if negb (isAuto userQuality) then
    let qualityKey := replace userQuality "p" "" ++ "_playlist" in
    match get hls qualityKey with
    | Some f => if truthy_str f
                then Some [hlsSource f (userQuality ++ "p")] else None
    | None => None
    end
  else None.

(** [if (hls_info.master_file) return [...]] *)
Definition hlsMaster (hls : obj string) : option (list Source.t) :=
  match get hls "master_file" with
  | Some f => if truthy_str f then Some [hlsSource f "Auto"] else None
  | None => None
  end.

Definition fromHls : option (list Source.t) :=
  match data_field hls_info mediaData with
  | Some hls => hlsAuto hls <|> hlsVariant hls <|> hlsMaster hls
  | None => None
  end.

Definition encodedSource (sourceUrl quality : string) : Source.t :=
  {| Source.src := sourceUrl;
     Source.type := getMimeType (Some sourceUrl) mediaType;
     Source.label := Some (quality ++ "p") |}.

(** The rendition the user asked for, when it has a URL. *)
Definition encodedChoice (encodings : obj Raw.encoding)
  : option (list Source.t) :=
  if negb (isAuto userQuality) then
    let qualityNumber := replace userQuality "p" "" in
    match h264_url encodings qualityNumber with
    | Some u => Some [encodedSource u qualityNumber]
    | None => None
    end
  else None.

(** [Object.keys(encodings).filter(...).sort((a, b) =>
    parseInt(b) - parseInt(a))] *)
Definition descending (a b : string) : integral :=
  sub_int (parseInt b) (parseInt a).

Definition ladderKeys (encodings : obj Raw.encoding) : list string :=
  sort descending
    (filter (fun quality => isSome (h264_url encodings quality))
            (keys encodings)).

Definition ladderSource (encodings : obj Raw.encoding) (quality : string)
  : list Source.t :=
  match h264_url encodings quality with
  | Some u => [encodedSource u quality]
  | None => []
  end.

(** Every rendition with a URL, highest first; nothing when there is
    none ([sources.length > 0] fails). *)
Definition encodedLadder (encodings : obj Raw.encoding)
  : option (list Source.t) :=
  match flat_map (ladderSource encodings) (ladderKeys encodings) with
  | [] => None
  | sources => Some sources
  end.

Definition fromEncodings : option (list Source.t) :=
  match data_field encodings_info mediaData with
  | Some encodings => encodedChoice encodings <|> encodedLadder encodings
  | None => None
  end.

Definition fromOriginal : option (list Source.t) :=
  match data_field original_media_url mediaData with
  | Some u =>
      if truthy_str u then
        let sourceUrl := siteUrl mediaData ++ u in
        Some [ {| Source.src := sourceUrl;
                  Source.type := getMimeType (Some sourceUrl) mediaType;
                  Source.label := None |} ]
      else None
  | None => None
  end.

(** The default sample video. *)
Definition sampleSource : Source.t :=
  {| Source.src := "/videos/sample-video.mp4";
     Source.type := "video/mp4";
     Source.label := None |}.

Definition getVideoSources : list Source.t :=
  match fromHls <|> fromEncodings <|> fromOriginal with
  | Some sources => sources
  | None => [sampleSource]
  end.

End Resolver.

End Sources.

(** The [currentVideo] record handed to the player (the opaque
    [previewSprite] object is left out). *)
Module Video.
Record t : Type := {
  id : string;
  title : string;
  author_name : string;
  author_profile : string;
  author_thumbnail : string;
  url : string;
  poster : string;
  useRoundedCorners : option bool;
  isPlayList : option bool;
  related_media : list Raw.related;
  nextLink : option string;
  urlAutoplay : bool;
  urlMuted : bool;
  sources : list Source.t
}.
End Video.

(** A related video as the end screen shows it. *)
Module Related.
Record t : Type := {
  id : option string;
  title : option string;
  author : string;
  views : string;
  thumbnail : option string;
  category : option string;
  url : option string;
  duration : option Z;
  size : option string;
  likes : option Z;
  dislikes : option Z;
  add_date : option string;
  description : option string
}.
End Related.

Module Player.

Import JS Sources.

(** [`${n}`] for a field that holds a count. *)
Definition showNumber (n : count) : string :=
  match n with
  | Count z => toString (nearest z)
  | Null => "null"
  | Undefined => "undefined"
  end.

(** [mediaData.data?.f ? mediaData.siteUrl + mediaData.data.f : other] *)
Definition siteRelative (mediaData : media_data)
  (f : media -> option string) (other : string) : string :=
  match data_field f mediaData with
  | Some u => if truthy_str u then siteUrl mediaData ++ u else other
  | None => other
  end.

Definition currentVideo (audioPosterImg : string) (mediaData : media_data)
  (userQualityPreference : string) : Video.t :=
  {| Video.id := or_str (data_field friendly_token mediaData) "default-video";
     Video.title := or_str (data_field title mediaData) "Video";
     Video.author_name := or_str (data_field author_name mediaData) "Unknown";
     Video.author_profile := siteRelative mediaData author_profile "";
     Video.author_thumbnail := siteRelative mediaData author_thumbnail "";
     Video.url := or_str (data_field url mediaData) "";
     Video.poster := siteRelative mediaData poster_url audioPosterImg;
     Video.useRoundedCorners := useRoundedCorners mediaData;
     Video.isPlayList := isPlayList mediaData;
     Video.related_media :=
       match data_field related_media mediaData with
       | Some l => l
       | None => []
       end;
     Video.nextLink := or_opt (nextLink mediaData) None;
     Video.urlAutoplay := or_bool (urlAutoplay mediaData) true;
     Video.urlMuted := or_bool (urlMuted mediaData) false;
     Video.sources := getVideoSources mediaData userQualityPreference |}.

Definition relatedVideo (media : Raw.related) : Related.t :=
  {| Related.id := Raw.friendly_token media;
     Related.title := Raw.title media;
     Related.author :=
       or_str (or_opt (Raw.user media) (Raw.author_name media)) "Unknown";
     Related.views := showNumber (Raw.views media) ++ " views";
     Related.thumbnail :=
       or_opt (Raw.thumbnail_url media) (Raw.author_thumbnail media);
     Related.category := Raw.media_type media;
     Related.url := Raw.r_url media;
     Related.duration := Raw.duration media;
     Related.size := Raw.size media;
     Related.likes := Raw.likes media;
     Related.dislikes := Raw.dislikes media;
     Related.add_date := Raw.add_date media;
     Related.description := Raw.description media |}.

(** [related_media.slice(0, 12).map(...)], or [[]] without the field. *)
Definition relatedVideos (mediaData : media_data) : list Related.t :=
  match data_field related_media mediaData with
  | None => []
  | Some l => map relatedVideo (firstn 12 l)
  end.

End Player.

Module Menu.

Import JS Sources.

Definition standardOrder : list string :=
  ["144p"; "240p"; "360p"; "480p"; "720p"; "1080p"; "1440p"; "2160p"].

(** [(a, b) => parseInt(a) - parseInt(b)] *)
Definition ascending (a b : string) : integral :=
  sub_int (parseInt a) (parseInt b).

Definition autoEntry (src : option string) (type : string) : Raw.quality :=
  {| Raw.label := Some "Auto"; Raw.value := Some "auto"; Raw.src := src;
     Raw.q_url := None; Raw.href := None; Raw.type := Some type |}.

Definition qualityEntry (quality src type : string) : Raw.quality :=
  {| Raw.label := Some (quality ++ "p"); Raw.value := Some (quality ++ "p");
     Raw.src := Some src; Raw.q_url := None; Raw.href := None;
     Raw.type := Some type |}.

Section Builder.

Variable mediaData : media_data.

Let mediaType : option string := data_field media_type mediaData.

Definition generateDesiredOrder : list string :=
  match data_field encodings_info mediaData with
  | Some encodings =>
      let availableQualities :=
        sort ascending
          (map (fun quality => quality ++ "p")
             (filter (fun quality => isSome (h264_url encodings quality))
                (keys encodings))) in
      ("auto" :: availableQualities)%list
  | None => "auto" :: standardOrder
  end.

Definition desiredOrder : list string := generateDesiredOrder.

(** [idx] of [normalize]: the rank of a value in the desired order. *)
Definition idx (v : string) : Z :=
  let i := indexOf desiredOrder (toLowerCase v) in
  if (i =? -1)%Z then 999%Z else i.

Definition norm (q : Raw.quality) : Quality.t :=
  let src := or_opt (or_opt (Raw.src q) (Raw.q_url q)) (Raw.href q) in
  {| Quality.label := or_str (or_opt (Raw.label q) (Raw.value q)) "Auto";
     Quality.value :=
       toLowerCase (or_str (or_opt (Raw.value q) (Raw.label q)) "auto");
     Quality.src := src;
     Quality.type := or_str (Raw.type q) (getMimeType src mediaType) |}.

(** [(a, b) => idx(a.value) - idx(b.value)]; an index of an array is
    far below 2^53. *)
Definition byDesiredOrder (a b : Quality.t) : integral :=
  minus (Integer (idx (Quality.value a))) (Integer (idx (Quality.value b))).

Definition normalize (arr : list Raw.quality) : list Quality.t :=
  let validQualities :=
    filter (fun q => truthy_opt (Quality.src q)) (map norm arr) in
  sort byDesiredOrder validQualities.

(** The menu built from the HLS playlists. *)
Definition hlsPlaylistEntry (hlsInfo : obj string) (key : string)
  : list Raw.quality :=
  if endsWith key "_playlist" then
    let quality := replace key "_playlist" "" in
    let file := match get hlsInfo key with
                | Some f => f
                | None => "undefined"
                end in
    [qualityEntry quality (siteUrl mediaData ++ file) hlsMimeType]
  else [].

Definition hlsQualities : option (list Quality.t) :=
  match data_field hls_info mediaData with
  | Some hlsInfo =>
      match get hlsInfo "master_file" with
      | Some master =>
          if truthy_str master then
            Some (normalize
                    (autoEntry (Some (siteUrl mediaData ++ master))
                               hlsMimeType
                     :: flat_map (hlsPlaylistEntry hlsInfo) (keys hlsInfo)))
          else None
      | None => None
      end
  | None => None
  end.

(** The menu built from [encodings_info]. *)
Definition encodingEntry (encodings : obj Raw.encoding) (quality : string)
  : list Raw.quality :=
  match h264_url encodings quality with
  | Some sourceUrl =>
      [qualityEntry quality sourceUrl
         (getMimeType (Some sourceUrl) mediaType)]
  | None => []
  end.

Definition encodingQualities : option (list Quality.t) :=
  match data_field encodings_info mediaData with
  | Some encodings =>
      let qualities :=
        autoEntry None (getMimeType None mediaType)
        :: flat_map (encodingEntry encodings) (keys encodings) in
      if (1 <? List.length qualities)%nat
      then Some (normalize qualities) else None
  | None => None
  end.

(** The menu built from the source in use. *)
Definition baseQualities (sources : list Source.t) : list Quality.t :=
  let baseSrc :=
    match sources with
    | s :: _ => if truthy_str (Source.src s) then Some (Source.src s)
                else None
    | [] => None
    end in
  let type :=
    match sources with
    | s :: _ => or_str (Some (Source.type s)) (getMimeType baseSrc mediaType)
    | [] => getMimeType baseSrc mediaType
    end in
  match baseSrc with
  | Some _ => normalize [autoEntry baseSrc type]
  | None => []
  end.

Definition jsonQualities : option (list Quality.t) :=
  match data_field qualities mediaData with
  | Some (q :: l) => Some (normalize (q :: l))
  | _ => None
  end.

Definition availableQualities (userQualityPreference : string)
  : list Quality.t :=
  match jsonQualities <|> hlsQualities <|> encodingQualities with
  | Some menu => menu
  | None => baseQualities (getVideoSources mediaData userQualityPreference)
  end.

End Builder.

End Menu.

(* ================================================================== *)
(** ** Subtitle language matching *)
(* ================================================================== *)

Module Subtitles.

Import JS.

(** A subtitle track: only the two fields [matchLang] reads. *)
Record track : Type := {
  srclang : option string;
  language : option string
}.

(** [String(t.srclang || t.language || '').toLowerCase()] *)
Definition trackLang (t : track) : string :=
  toLowerCase (or_str (or_opt (srclang t) (language t)) "").

(** [String(target || '').toLowerCase()] *)
Definition targetLang (target : option string) : string :=
  toLowerCase (or_str target "").

Definition matchLang (t : track) (target : option string) : bool :=
  let tl := trackLang t in
  let sl := targetLang target in
  if negb (truthy_str tl) || negb (truthy_str sl) then false
  else String.eqb tl sl || startsWith tl (sl ++ "-")
       || startsWith sl (tl ++ "-").

(** [default: !!(enabled && savedLang && matchLang(t, savedLang))] *)
Definition defaultFlag (enabled : bool) (savedLang : option string)
  (t : track) : bool :=
  enabled && truthy_opt savedLang && matchLang t savedLang.

End Subtitles.

(* ================================================================== *)
(** ** Autoplay after next-video navigation *)
(* ================================================================== *)

Module Autoplay.

(** The live player, as far as the handler touches it. *)
Record player : Type := {
  muted : bool;
  paused : bool;
  disposed : bool
}.

(** What the handler did, oldest first. *)
Inductive event : Type :=
| PlayCalled (wasMuted accepted : bool)
| MutedSet (m : bool)
| ConsoleError (text message : string).

Record world : Type := {
  current : option player;          (** [playerRef.current] *)
  trace : list event
}.

(** The browser's autoplay policy: for the n-th call of [play()] and the
    muted state at that call, [None] lets playback start and [Some m]
    rejects the promise with an error of message [m]. *)
Definition policy : Type := nat -> bool -> option string.

Inductive result (A : Type) : Type :=
| Ok (a : A)
| Throw (message : string).
Arguments Ok {A} a.
Arguments Throw {A} message.

(** Computations of the handler: state passing with exceptions. *)
Definition M (A : Type) : Type := world -> result A * world.

Definition ret {A : Type} (a : A) : M A := fun w => (Ok a, w).

Definition bind {A B : Type} (m : M A) (k : A -> M B) : M B :=
  fun w =>
    match m w with
    | (Ok a, w') => k a w'
    | (Throw e, w') => (Throw e, w')
    end.

(** [try { body } catch (error) { handler(error.message) }] *)
Definition tryCatch {A : Type} (body : M A) (handler : string -> M A) : M A :=
  fun w =>
    match body w with
    | (Ok a, w') => (Ok a, w')
    | (Throw e, w') => handler e w'
    end.

Notation "x <- m ;; k" := (bind m (fun x => k))
  (at level 61, m at next level, right associativity).
Notation "m ;;; k" := (bind m (fun _ => k))
  (at level 61, right associativity).

Definition emit (e : event) : M unit :=
  fun w => (Ok tt, {| current := current w; trace := trace w ++ [e] |}).

Definition isPlayCall (e : event) : bool :=
  match e with
  | PlayCalled _ _ => true
  | _ => false
  end.

Definition playCalls (w : world) : list event := filter isPlayCall (trace w).

Definition typeError : string := "TypeError".

Section Handler.

Variable browser : policy.

(** [await playerRef.current.play()] *)
Definition play : M unit :=
  fun w =>
    match current w with
    | None => (Throw typeError, w)
    | Some p =>
        match browser (List.length (playCalls w)) (muted p) with
        | None =>
            (Ok tt,
             {| current := Some {| muted := muted p; paused := false;
                                   disposed := disposed p |};
                trace := trace w ++ [PlayCalled (muted p) true] |})
        | Some message =>
            (Throw message,
             {| current := Some p;
                trace := trace w ++ [PlayCalled (muted p) false] |})
        end
    end.

(** [playerRef.current.muted()] *)
Definition getMuted : M bool :=
  fun w =>
    match current w with
    | None => (Throw typeError, w)
    | Some p => (Ok (muted p), w)
    end.

(** [playerRef.current.muted(true)] *)
Definition setMuted (m : bool) : M unit :=
  fun w =>
    match current w with
    | None => (Throw typeError, w)
    | Some p =>
        (Ok tt,
         {| current := Some {| muted := m; paused := paused p;
                               disposed := disposed p |};
            trace := trace w ++ [MutedSet m] |})
    end.

(** [console.error(text, error.message)] *)
Definition consoleError (text message : string) : M unit :=
  emit (ConsoleError text message).

(** [playerRef.current && !playerRef.current.isDisposed()] *)
Definition playerAlive : M bool :=
  fun w =>
    match current w with
    | None => (Ok false, w)
    | Some p => (Ok (negb (disposed p)), w)
    end.

(** The body of the deferred async callback. *)
Definition playWithFallback : M unit :=
  alive <- playerAlive ;;
  if alive then
    tryCatch play
      (fun message =>
         consoleError "ℹ️ Browser prevented play:" message ;;;
         m <- getMuted ;;
         if negb m then
           tryCatch (setMuted true ;;; play)
             (fun mutedMessage =>
                consoleError "ℹ️ Even muted play was blocked:" mutedMessage)
         else ret tt)
  else ret tt.

(** The handler: skipped for embed players and without an [m] query
    parameter. *)
Definition autoplayOnNavigation (isEmbedPlayer : bool)
  (hasVideoParam : option string) : M unit :=
  if negb isEmbedPlayer && JS.truthy_opt hasVideoParam
  then playWithFallback
  else ret tt.

End Handler.

End Autoplay.

(* ================================================================== *)
(** ** Vocabulary of the specification *)
(* ================================================================== *)

Module Spec.

Import JS Sources.

(** No adaptive manifest: [hls_info] is absent or holds no file at all. *)
Definition noManifest (mediaData : media_data) : Prop :=
  forall hls, data_field hls_info mediaData = Some hls ->
  forall k, truthy_opt (get hls k) = false.

(** No encoded rendition: no entry of [encodings_info] has an h264 URL. *)
Definition noRendition (mediaData : media_data) : Prop :=
  forall encodings, data_field encodings_info mediaData = Some encodings ->
  forall k, h264_url encodings k = None.

(** A resolution number used as a table key: decimal digits, at least
    one. *)
Definition isDigit (c : ascii) : bool := isSome (dec_digit c).

Fixpoint allDigits (s : string) : bool :=
  match s with
  | EmptyString => true
  | String c t => isDigit c && allDigits t
  end.

Definition resolution (n : string) : bool := truthy_str n && allDigits n.

(** A string that does not begin with a digit. *)
Definition noDigitFirst (s : string) : Prop :=
  match s with
  | EmptyString => True
  | String c _ => isDigit c = false
  end.

(** The resolution number a key or a label stands for. *)
Definition resolutionOf (k : string) : Z :=
  match parseInt k with
  | Some v => v
  | None => 0%Z
  end.

(** A resolution number that a Number holds exactly: below 2^53. *)
Definition exactResolution (k : string) : Prop :=
  (resolutionOf k < 2 ^ 53)%Z.

(** The renditions that can be played: the keys with an h264 URL. *)
Definition availableKeys (encodings : obj Raw.encoding) : list string :=
  filter (fun quality => isSome (h264_url encodings quality))
         (keys encodings).

(** No canonical media URL. *)
Definition noOriginal (mediaData : media_data) : Prop :=
  truthy_opt (data_field original_media_url mediaData) = false.

(** *** Chapters *)

Import Chapters.

Definition startSeconds (c : Raw.chapter) : float :=
  convertTimeStringToSeconds (Raw.startTime c).

Definition endSeconds (c : Raw.chapter) : float :=
  convertTimeStringToSeconds (Raw.endTime c).

(** The title matches, case-insensitively, one of the generic titles. *)
Definition genericTitle (c : Raw.chapter) : Prop :=
  exists t, Raw.chapterTitle c = Some t /\ In (toLowerCase t) genericTitles.

(** The entry spans the whole video with one second of tolerance:
    [start <= 1] and [|end - duration| <= 1]. *)
Definition spansWholeVideo (c : Raw.chapter) (d : float) : Prop :=
  (startSeconds c <=? 1)%float = true /\
  (abs (endSeconds c - d) <=? 1)%float = true.

(** The duration is known and positive. *)
Definition positiveDuration (mediaData : media_data) (d : float) : Prop :=
  data_field duration mediaData = Some d /\ (0 <? d)%float = true.

(** The duration is unknown, or it is not positive. *)
Definition unknownOrNonPositive (mediaData : media_data) : Prop :=
  data_field duration mediaData = None \/
  exists d, data_field duration mediaData = Some d /\ (0 <? d)%float = false.

(** The start time is exactly 0. *)
Definition startsAtZero (c : Raw.chapter) : Prop :=
  (startSeconds c =? 0)%float = true.

(** When a single entry is suppressed, in the words of the specification:
    the whole-video test is made against whatever duration is given. *)
Definition suppressedAsStated (mediaData : media_data) (c : Raw.chapter)
  : Prop :=
  (genericTitle c /\
   exists d, data_field duration mediaData = Some d /\ spansWholeVideo c d)
  \/ (unknownOrNonPositive mediaData /\ startsAtZero c /\ genericTitle c).

(** When a single entry is suppressed by the component: the whole-video
    test is made only against a known, positive duration. *)
Definition suppressed (mediaData : media_data) (c : Raw.chapter) : Prop :=
  (genericTitle c /\
   exists d, positiveDuration mediaData d /\ spansWholeVideo c d)
  \/ (unknownOrNonPositive mediaData /\ startsAtZero c /\ genericTitle c).





(** *** The quality menu *)

Import Menu.

(** An adaptive manifest exists: [hls_info] names a master file. *)
Definition hasManifest (mediaData : media_data) : Prop :=
  exists hls f, data_field hls_info mediaData = Some hls /\
                get hls "master_file" = Some f /\ truthy_str f = true.

(** Encoded renditions exist. *)
Definition hasRenditions (mediaData : media_data) : Prop :=
  exists encodings, data_field encodings_info mediaData = Some encodings /\
                    availableKeys encodings <> [].

(** The media carries no explicit [qualities] list. *)
Definition noJsonList (mediaData : media_data) : Prop :=
  data_field qualities mediaData = None \/
  data_field qualities mediaData = Some [].

(** The entry [normalize] makes of the Auto entry of a playable source. *)
Definition autoQuality (src type : string) : Quality.t :=
  {| Quality.label := "Auto"; Quality.value := "auto";
     Quality.src := Some src; Quality.type := type |}.

Definition autoFirst (menu : list Quality.t) : Prop :=
  exists e rest, menu = e :: rest /\ Quality.value e = "auto".

Definition onlyResolvable (menu : list Quality.t) : Prop :=
  Forall (fun e => truthy_opt (Quality.src e) = true) menu.

Definition nonAuto (menu : list Quality.t) : list Quality.t :=
  filter (fun e => negb (String.eqb (Quality.value e) "auto")) menu.

(** Ascending resolution numbers read off the labels, labels without a
    number last. *)
Definition labelOrder (a b : Quality.t) : Prop :=
  match parseInt (Quality.label a), parseInt (Quality.label b) with
  | Some x, Some y => (x <= y)%Z
  | None, Some _ => False
  | _, None => True
  end.

Definition ascendingByLabel (menu : list Quality.t) : Prop :=
  StronglySorted labelOrder (nonAuto menu).

Definition distinctValues (menu : list Quality.t) : Prop :=
  NoDup (map Quality.value menu).

(** The four requirements on the menu, in the words of the
    specification. *)
Definition menuAsStated (mediaData : media_data) (quality : string) : Prop :=
  let menu := availableQualities mediaData quality in
  (hasManifest mediaData \/ hasRenditions mediaData -> autoFirst menu) /\
  onlyResolvable menu /\
  ascendingByLabel menu /\
  distinctValues menu.

(** The value [normalize] gives to a raw entry. *)
Definition normValue (mediaData : media_data) (q : Raw.quality) : string :=
  Quality.value (norm mediaData q).

(** A value of the desired order of the media. *)
Definition known (mediaData : media_data) (e : Quality.t) : Prop :=
  In (Quality.value e) (desiredOrder mediaData).

(** The order the menu is in: known values by ascending resolution number,
    then the values the desired order does not hold. *)
Definition rankOrder (mediaData : media_data) (a b : Quality.t) : Prop :=
  (known mediaData a -> known mediaData b ->
   (resolutionOf (Quality.value a) <= resolutionOf (Quality.value b))%Z) /\
  (~ known mediaData a -> ~ known mediaData b).

(** The available renditions are keyed by resolution numbers. *)
Definition resolutionRenditions (mediaData : media_data) : Prop :=
  forall encodings, data_field encodings_info mediaData = Some encodings ->
  Forall (fun k => resolution k = true) (availableKeys encodings).

(** The resolution numbers of the available renditions are below 2^53. *)
Definition exactRenditions (mediaData : media_data) : Prop :=
  forall encodings, data_field encodings_info mediaData = Some encodings ->
  Forall exactResolution (availableKeys encodings).

(** The playlists of the manifest table are keyed [<digits>_playlist]. *)
Definition resolutionPlaylists (mediaData : media_data) : Prop :=
  forall hls, data_field hls_info mediaData = Some hls ->
  Forall (fun k => endsWith k "_playlist" = true ->
                   exists n, allDigits n = true /\ k = n ++ "_playlist")
         (keys hls).

(** The tables are objects: no key occurs twice. *)
Definition distinctKeys (mediaData : media_data) : Prop :=
  (forall hls, data_field hls_info mediaData = Some hls ->
               NoDup (keys hls)) /\
  (forall encodings, data_field encodings_info mediaData = Some encodings ->
                     NoDup (keys encodings)).

(** *** Strings of ASCII characters, and their case folding *)

(** Every character is below U+0080. *)
Fixpoint isAscii (s : string) : bool :=
  match s with
  | EmptyString => true
  | String c t => (nat_of_ascii c <? 128)%nat && isAscii t
  end.

(** The letter of [lower] that stands where [c] stands in [upper]. *)
Fixpoint foldLetter (c : ascii) (upper lower : string) : ascii :=
  match upper, lower with
  | String u upper', String l lower' =>
      if Ascii.eqb c u then l else foldLetter c upper' lower'
  | _, _ => c
  end.

(** Case folding: the capital letters become small letters. *)
Fixpoint caseFold (s : string) : string :=
  match s with
  | EmptyString => EmptyString
  | String c t =>
      String (foldLetter c "ABCDEFGHIJKLMNOPQRSTUVWXYZ"
                           "abcdefghijklmnopqrstuvwxyz")
             (caseFold t)
  end.

(** *** Subtitle languages *)

(** The language tag of a track: its [srclang], or its [language] when
    the track has no [srclang] or an empty one; empty without either. *)
Definition tagOf (t : Subtitles.track) : string :=
  match Subtitles.srclang t with
  | Some (String c s) => String c s
  | _ => match Subtitles.language t with
         | Some s => s
         | None => ""
         end
  end.

(** The stored language preference, empty when there is none. *)
Definition preferenceOf (target : option string) : string :=
  match target with
  | Some s => s
  | None => ""
  end.

(** [a] extends [b] with a subtag: it is [b], a hyphen, and more. *)
Definition extends (a b : string) : Prop :=
  exists subtag, a = b ++ "-" ++ subtag.

(** The two tags match, in the words of the specification. *)
Definition tagsMatch (T S : string) : Prop :=
  T = S \/ extends T S \/ extends S T.

(** *** Integer-valued Numbers as binary64 data *)

(** The binary64 datum of an integer-valued Number. *)
Definition binary64Of (i : integral) : float :=
  match i with
  | Integer z => number_of_Z z
  | Infinity negative => if negative then neg_infinity else infinity
  | NaN => nan
  end.

Definition sameDatum (x y : float) : bool :=
  match Prim2SF x, Prim2SF y with
  | S754_finite s m e, S754_finite s' m' e' =>
      Bool.eqb s s' && Pos.eqb m m' && Z.eqb e e'
  | S754_infinity s, S754_infinity s' => Bool.eqb s s'
  | S754_zero _, S754_zero _ => true
  | _, _ => false
  end.

(** Binary64 holds the integer [m] as it is. *)
Definition held (m : Z) : bool :=
  match Prim2SF (number_of_Z m) with
  | S754_finite s mm e =>
      let v := if s then Z.neg mm else Z.pos mm in
      if (e <? 0)%Z then (v =? m * 2 ^ (- e))%Z else (v * 2 ^ e =? m)%Z
  | S754_zero _ => (m =? 0)%Z
  | _ => false
  end.

(** [JS.nearest] rounds [z] as the IEEE rounding of the library does, to
    an integer that binary64 holds. *)
Definition roundsAsBinary64 (z : Z) : bool :=
  sameDatum (number_of_Z z) (binary64Of (nearest z))
  && match nearest z with
     | Integer m => held m
     | _ => true
     end.

End Spec.

(* ================================================================== *)
(** ** Sample descriptors *)
(* ================================================================== *)

Module Samples.

Import JS.

Definition mediaOf (hls : option (obj string))
  (encodings : option (obj Raw.encoding)) (original : option string)
  (time : option float) (chapters : option (list Raw.chapter))
  (json : option (list Raw.quality)) (related : option (list Raw.related))
  : media :=
  {| friendly_token := Some "2Uk08Il5u";
     title := Some "Modi tempora est quaerat numquam";
     author_name := Some "Markos Gogoulos";
     author_profile := Some "/user/markos/";
     author_thumbnail := Some "/media/userlogos/user.jpg";
     url := Some "https://videojs.mediacms.io/view?m=2Uk08Il5u";
     poster_url := None;
     media_type := Some "video";
     duration := time;
     original_media_url := original;
     hls_info := hls;
     encodings_info := encodings;
     chapter_data := chapters;
     qualities := json;
     related_media := related |}.

Definition descriptor (d : media) : media_data :=
  {| data := Some d;
     siteUrl := "https://videojs.mediacms.io";
     nextLink := None;
     useRoundedCorners := Some false;
     isPlayList := Some false;
     urlAutoplay := Some false;
     urlMuted := Some false |}.

Definition rendition (u : string) : Raw.encoding :=
  {| Raw.h264 := Some {| Raw.url := Some u |} |}.

(** Three renditions with a file, and one resolution without. *)
Definition renditions : obj Raw.encoding :=
  [ ("240", rendition "/media/encoded/2/a.mp4");
    ("480", rendition "/media/encoded/13/a.mp4");
    ("720", rendition "/media/encoded/10/a.mp4");
    ("1440", {| Raw.h264 := None |}) ].

Definition playlists : obj string :=
  [ ("master_file", "/media/hls/5073/master.m3u8");
    ("240_playlist", "/media/hls/5073/media-1/stream.m3u8");
    ("480_playlist", "/media/hls/5073/media-2/stream.m3u8");
    ("720_playlist", "/media/hls/5073/media-3/stream.m3u8");
    ("144_playlist", "/media/hls/5073/media-4/stream.m3u8") ].

(** A media with nothing to play. *)
Definition bare : media_data :=
  descriptor (mediaOf None None None None None None None).

(** A media with encoded renditions only. *)
Definition encodedOnly : media_data :=
  descriptor (mediaOf None (Some renditions) None None None None None).

(** A media with an adaptive manifest and encoded renditions. *)
Definition adaptive : media_data :=
  descriptor
    (mediaOf (Some playlists) (Some renditions) None None None None None).

(** A media with an adaptive manifest and an empty table of renditions. *)
Definition adaptiveOnly : media_data :=
  descriptor (mediaOf (Some playlists) (Some []) None None None None None).

(** A media whose JSON list names one value twice. *)
Definition jsonQuality (v u : string) : Raw.quality :=
  {| Raw.label := Some v; Raw.value := Some v; Raw.src := Some u;
     Raw.q_url := None; Raw.href := None; Raw.type := None |}.

Definition listed : media_data :=
  descriptor
    (mediaOf None None None None None
       (Some [jsonQuality "720p" "/a.mp4"; jsonQuality "720p" "/b.mp4"])
       None).

(** A single chapter with a generic title, half a second into a media
    whose duration is 0. *)
Definition part : Raw.chapter :=
  {| Raw.startTime := TString "00:00:00.500";
     Raw.endTime := TString "00:00:00.900";
     Raw.chapterTitle := Some "Part" |}.

Definition onePart : media_data :=
  descriptor
    (mediaOf None None None (Some 0%float) (Some [part]) None None).

(** A single generic chapter over the whole of a ten-second media. *)
Definition segment : Raw.chapter :=
  {| Raw.startTime := TNumber 0%float;
     Raw.endTime := TNumber 10%float;
     Raw.chapterTitle := Some "segment" |}.

Definition oneSegment : media_data :=
  descriptor
    (mediaOf None None None (Some 10%float) (Some [segment]) None None).

Definition intro : Raw.chapter :=
  {| Raw.startTime := TNumber 0%float;
     Raw.endTime := TNumber 5%float;
     Raw.chapterTitle := Some "Intro" |}.

Definition body : Raw.chapter :=
  {| Raw.startTime := TString "00:00:05.000";
     Raw.endTime := TString "00:00:10.000";
     Raw.chapterTitle := Some "Body" |}.



Definition twoChapters : media_data :=
  descriptor
    (mediaOf None None None (Some 10%float) (Some [intro; body]) None None).

Definition relatedItem (token : string) : Raw.related :=
  {| Raw.friendly_token := Some token;
     Raw.title := Some "Related";
     Raw.user := Some "markos";
     Raw.author_name := Some "Markos Gogoulos";
     Raw.views := JS.Count 12;
     Raw.thumbnail_url := Some "/media/thumb.jpg";
     Raw.author_thumbnail := None;
     Raw.media_type := Some "video";
     Raw.r_url := Some "/view?m=x";
     Raw.duration := Some 12%Z;
     Raw.size := Some "4.5MB";
     Raw.likes := Some 1%Z;
     Raw.dislikes := Some 0%Z;
     Raw.add_date := None;
     Raw.description := None |}.

(** A media without a [related_media] field. *)
Definition unrelated : media_data := bare.

(** The player before the handler runs: unmuted, paused, alive. *)
Definition idle : Autoplay.world :=
  {| Autoplay.current :=
       Some {| Autoplay.muted := false; Autoplay.paused := true;
               Autoplay.disposed := false |};
     Autoplay.trace := [] |}.

(** A browser that rejects every call of [play()]. *)
Definition strict : Autoplay.policy :=
  fun _ _ => Some "NotAllowedError".

(** A browser that lets muted playback start. *)
Definition mutedOnly : Autoplay.policy :=
  fun _ muted => if muted then None else Some "NotAllowedError".

(** Integers at the edges of what binary64 holds. *)
Definition boundaryIntegers : list Z :=
  flat_map (fun b => flat_map (fun d => [b + d; b - d; - (b + d)])
                       [0; 1; 2; 3; 4; 5; 7; 8; 1023; 1024; 1025])%Z
    [ 0; 2 ^ 53; 2 ^ 54; 2 ^ 55; 2 ^ 63; 10 ^ 16; 10 ^ 21; 10 ^ 23;
      9007199254740993; 3 * 2 ^ 53; 5 * 2 ^ 52 + 2 ^ 51; 2 ^ 100;
      2 ^ 1023; 2 ^ 1024 - 2 ^ 971; 2 ^ 1024 - 2 ^ 970; 2 ^ 1024 ]%Z.

(** Two renditions whose resolution numbers differ by one beyond 2^53. *)
Definition hugeRenditions : obj Raw.encoding :=
  [ ("9007199254740992", rendition "/media/encoded/2/a.mp4");
    ("9007199254740993", rendition "/media/encoded/13/a.mp4") ].

End Samples.

(* ================================================================== *)
(** ** Further vocabulary *)
(* ================================================================== *)

Module Derived.

Import JS Sources Menu.

(** The MIME types [getMimeType] can answer with. *)
Definition audioTypes : list string :=
  ["audio/mpeg"; "audio/ogg"; "audio/wav"; "audio/mp4"].

Definition videoTypes : list string :=
  ["video/webm"; "video/ogg"; "video/mp4"].

(** [mediaType === 'audio'] *)
Definition isAudio (mediaType : option string) : bool :=
  match mediaType with
  | Some t => String.eqb t "audio"
  | None => false
  end.

(** The extensions that decide the type, in the order they are looked
    for, and the type when none is there. *)
Definition audioTable : list (string * string) :=
  [ (".mp3", "audio/mpeg"); (".ogg", "audio/ogg"); (".wav", "audio/wav");
    (".m4a", "audio/mp4") ].

Definition videoTable : list (string * string) :=
  [ (".webm", "video/webm"); (".ogg", "video/ogg") ].

Definition tableOf (mediaType : option string) : list (string * string) :=
  if isAudio mediaType then audioTable else videoTable.

Definition defaultOf (mediaType : option string) : string :=
  if isAudio mediaType then "audio/mpeg" else "video/mp4".

(** The URL, case folded, has [ext] somewhere in it. *)
Definition mentions (url ext : string) : Prop :=
  exists before after, Spec.caseFold url = before ++ ext ++ after.

(** [type] is the type of the first extension of the table that the URL
    mentions, or the default when it mentions none. *)
Definition decides (table : list (string * string)) (default url : string)
  (type : string) : Prop :=
  (exists earlier ext later,
     table = (earlier ++ (ext, type) :: later)%list /\
   mentions url ext /\
   forall e t, In (e, t) earlier -> ~ mentions url e) \/
  ((forall e t, In (e, t) table -> ~ mentions url e) /\ type = default).

(** A source a player can load: it has a URL, and its type is the HLS type
    or one of the types of [getMimeType]. *)
Definition playable (s : Source.t) : Prop :=
  truthy_str (Source.src s) = true /\
  (Source.type s = hlsMimeType \/
   In (Source.type s) (audioTypes ++ videoTypes)%list).

(** The manifest table names a master file. *)
Definition masterFile (mediaData : media_data) (hls : obj string)
  (f : string) : Prop :=
  data_field hls_info mediaData = Some hls /\
  get hls "master_file" = Some f /\ truthy_str f = true.

(** Every playlist of the manifest table names a file. *)
Definition playlistsNamed (hls : obj string) : Prop :=
  forall k, In k (keys hls) -> endsWith k "_playlist" = true ->
  truthy_opt (get hls k) = true.

End Derived.

(* ================================================================== *)
(** ** Refreshing the settings menu on [loadedmetadata] *)
(* ================================================================== *)

Module Refresh.

(** What [setQualities] is handed: the raw [qualities] list of the media,
    or the menu the component built. *)
Inductive items : Type :=
| RawList (l : list Raw.quality)
| Built (menu : list Quality.t).

(** [md?.data?.qualities || availableQualities], where [md] is
    [window.MEDIA_DATA]; an array is truthy, the empty one too. *)
Definition newQualities (md : option media_data)
  (availableQualities : list Quality.t) : items :=
  match md with
  | Some m =>
      match data_field qualities m with
      | Some l => RawList l
      | None => Built availableQualities
      end
  | None => Built availableQualities
  end.

Definition size (i : items) : nat :=
  match i with
  | RawList l => List.length l
  | Built menu => List.length menu
  end.

End Refresh.

(* ================================================================== *)
(** ** The timestamp of the URL *)
(* ================================================================== *)

Module Deeplink.

Local Open Scope float_scope.

(** What the handler asks of the player. *)
Inductive command : Type :=
| CurrentTime (t : float)
| Play.

(** Metadata is there ([readyState() >= 1]): seek, or play. *)
Definition seekNow (timestamp duration : float) : list command :=
  if timestamp <? duration then [CurrentTime timestamp]
  else if 0 <=? timestamp then [Play]
  else [].

(** The [loadedmetadata] listener: the same, with its own bound check. *)
Definition seekOnMetadata (timestamp duration : float) : list command :=
  if (0 <=? timestamp) && (timestamp <? duration) then [CurrentTime timestamp]
  else if 0 <=? timestamp then [Play]
  else [].

(** Commands issued at once, or a listener that is given the duration the
    player reports when the metadata arrives. *)
Inductive plan : Type :=
| Now (commands : list command)
| OnLoadedMetadata (listener : float -> list command).

(** [if (mediaData.urlTimestamp !== null && mediaData.urlTimestamp >= 0)];
    [None] is a timestamp that is [null] or [undefined]. *)
Definition handleUrlTimestamp (urlTimestamp : option float)
  (readyState : Z) (duration : float) : plan :=
  match urlTimestamp with
  | Some timestamp =>
      if 0 <=? timestamp then
        if (1 <=? readyState)%Z then Now (seekNow timestamp duration)
        else OnLoadedMetadata (seekOnMetadata timestamp)
      else Now []
  | None => Now []
  end.

(** The commands of a plan once the player reports [duration]. *)
Definition commandsAt (p : plan) (duration : float) : list command :=
  match p with
  | Now commands => commands
  | OnLoadedMetadata listener => listener duration
  end.

End Deeplink.

(* ================================================================== *)
(** ** Menus that open on click *)
(* ================================================================== *)

Module Popups.

(** The [style.display] of every [.vjs-menu] of the document, in document
    order. *)
Definition menus : Type := list string.

Fixpoint hideOthers (i : nat) (l : menus) : menus :=
  match l, i with
  | [], _ => []
  | _ :: r, O => "block" :: map (fun _ => "none") r
  | _ :: r, S j => "none" :: hideOthers j r
  end.

Fixpoint hide (i : nat) (l : menus) : menus :=
  match l, i with
  | [], _ => []
  | _ :: r, O => "none" :: r
  | d :: r, S j => d :: hide j r
  end.

(** The click listener of a button without [menuButton_]; [menu] is the
    position of the button's own menu, when it has one. *)
Definition click (menu : option nat) (l : menus) : menus :=
  match menu with
  | None => l
  | Some i =>
      match nth_error l i with
      | None => l
      | Some d => if String.eqb d "block" then hide i l else hideOthers i l
      end
  end.

(** How many menus are displayed. *)
Definition displayed (l : menus) : nat :=
  List.length (filter (fun d => String.eqb d "block") l).

End Popups.

(* ================================================================== *)
(** ** The captions toggle *)
(* ================================================================== *)

Module Captions.

Import JS.

(** [TextTrack.kind] and [TextTrack.mode]. *)
Inductive trackKind : Type :=
| KSubtitles | KCaptions | KDescriptions | KChapters | KMetadata.

Inductive trackMode : Type := Disabled | Hidden | Showing.

Record textTrack : Type := {
  kind : trackKind;
  mode : trackMode;
  language : string
}.

Inductive prefValue : Type :=
| PBool (b : bool)
| PString (s : string).

(** What the listener does to the preference store and the console. *)
Inductive effect : Type :=
| SetPreference (key : string) (value : prefValue) (explicit : bool)
| ConsoleError (text : string).

(** The text tracks of the player, whether the button carries
    [vjs-subs-active], and the effects so far. *)
Record ui : Type := {
  tracks : list textTrack;
  active : bool;
  log : list effect
}.

Definition isSubtitles (t : textTrack) : bool :=
  match kind t with
  | KSubtitles => true
  | _ => false
  end.

Definition isShowing (t : textTrack) : bool :=
  match mode t with
  | Showing => true
  | _ => false
  end.

(** [t.kind === 'subtitles' && t.mode === 'showing'] for some track. *)
Definition anyShowing (l : list textTrack) : bool :=
  existsb (fun t => isSubtitles t && isShowing t) l.

Definition setMode (m : trackMode) (t : textTrack) : textTrack :=
  {| kind := kind t; mode := m; language := language t |}.

(** [if (t.kind === 'subtitles') t.mode = 'disabled'] *)
Definition disableSubtitles (l : list textTrack) : list textTrack :=
  map (fun t => if isSubtitles t then setMode Disabled t else t) l.

(** [if (t.kind === 'subtitles')
      t.mode = t.language === lang ? 'showing' : 'disabled'] *)
Definition showLanguage (lang : string) (l : list textTrack)
  : list textTrack :=
  map (fun t =>
         if isSubtitles t
         then setMode (if String.eqb (language t) lang
                       then Showing else Disabled) t
         else t) l.

(** The language of the first subtitles track; [None] without one. *)
Fixpoint firstLanguage (l : list textTrack) : option string :=
  match l with
  | [] => None
  | t :: r => if isSubtitles t then Some (language t) else firstLanguage r
  end.

Section Store.

(** Whether [setPreference(key, value, true)] throws. *)
Variable storeFails : string -> prefValue -> bool.

(** [try { setPreference(key, value, true) } catch (e) {
      console.error(text, e) }] *)
Definition setPreference (key : string) (value : prefValue)
  (text : string) (effects : list effect) : list effect :=
  (effects ++ SetPreference key value true
     :: (if storeFails key value then [ConsoleError text] else []))%list.

(** The click listener of the captions button; [preferred] is what
    [getPreference('subtitleLanguage')] answers. *)
Definition toggleSubs (preferred : option string) (u : ui) : ui :=
  if anyShowing (tracks u) then
    {| tracks := disableSubtitles (tracks u);
       active := false;
       log := setPreference "subtitleEnabled" (PBool false)
                "✗ Failed to set subtitleEnabled to false:" (log u) |}
  else
    match (if truthy_opt preferred then preferred else None) with
    | None =>
        match firstLanguage (tracks u) with
        | Some first =>
            if truthy_str first then
              {| tracks := showLanguage first (tracks u);
                 active := true;
                 log := setPreference "subtitleEnabled" (PBool true)
                          "✗ Failed to set subtitleEnabled to true:"
                          (setPreference "subtitleLanguage"
                             (PString first)
                             "✗ Failed to set subtitleLanguage to first:"
                             (log u)) |}
            else u
        | None => u
        end
    | Some lang =>
        let found :=
          existsb (fun t => isSubtitles t
                            && String.eqb (language t) lang) (tracks u) in
        if found then
          {| tracks := showLanguage lang (tracks u);
             active := true;
             log := setPreference "subtitleEnabled" (PBool true)
                      "✗ Failed to set subtitleEnabled to true:" (log u) |}
        else
          {| tracks := showLanguage lang (tracks u);
             active := active u;
             log := log u |}
    end.

End Store.

(** The [texttrackchange] listener: the underline follows the tracks. *)
Definition syncUnderline (u : ui) : ui :=
  {| tracks := tracks u; active := anyShowing (tracks u); log := log u |}.

End Captions.

(* ================================================================== *)
(** ** The subtitle tracks handed to the player *)
(* ================================================================== *)

Module Tracks.

Import JS.

(** An entry of [subtitles_info]. *)
Record backend : Type := {
  b_src : option string;
  b_srclang : option string;
  b_label : option string;
  b_default : option bool
}.

(** A track as [addRemoteTextTrack] receives it. *)
Record t : Type := {
  kind : string;
  src : option string;
  srclang : option string;
  label : option string;
  default : bool
}.

Definition demoSubtitleTracks : list backend :=
  [ {| b_src := Some "/sample-subtitles.vtt"; b_srclang := Some "en";
       b_label := Some "English Subtitles"; b_default := Some true |};
    {| b_src := Some "/sample-subtitles-greek.vtt"; b_srclang := Some "el";
       b_label := Some "Greek Subtitles (Ελληνικά)";
       b_default := Some false |} ].

(** [mediaData?.data?.subtitles_info || (isDevMode ? demoSubtitleTracks
    : [])]; an array is truthy, the empty one too. *)
Definition backendSubtitles (isDevMode : bool)
  (subtitles_info : option (list backend)) : list backend :=
  match subtitles_info with
  | Some l => l
  | None => if isDevMode then demoSubtitleTracks else []
  end.

Definition hasSubtitles (isDevMode : bool)
  (subtitles_info : option (list backend)) : bool :=
  (0 <? List.length (backendSubtitles isDevMode subtitles_info))%nat.

Definition subtitleTracks (isDevMode : bool)
  (subtitles_info : option (list backend)) : list t :=
  if hasSubtitles isDevMode subtitles_info then
    map (fun track =>
           {| kind := "subtitles";
              src := b_src track;
              srclang := b_srclang track;
              label := b_label track;
              default := or_bool (b_default track) false |})
        (backendSubtitles isDevMode subtitles_info)
  else [].

(** The track as [matchLang] reads it: a track of [subtitleTracks] has no
    [language] field. *)
Definition languageOf (track : t) : Subtitles.track :=
  {| Subtitles.srclang := srclang track; Subtitles.language := None |}.

(** [subtitleTracks.map((t) => ({ ...t, default: !!(enabled && savedLang
    && matchLang(t, savedLang)) }))] *)
Definition tracksToAdd (enabled : bool) (savedLang : option string)
  (subtitleTracks : list t) : list t :=
  map (fun track =>
         {| kind := kind track;
            src := src track;
            srclang := srclang track;
            label := label track;
            default :=
              Subtitles.defaultFlag enabled savedLang (languageOf track) |})
      subtitleTracks.

(** [tracks.forEach((track) => player.addRemoteTextTrack(track, false))]:
    the tracks added before the first call that throws, and whether every
    call returned.  [throws n] tells whether the call of
    [addRemoteTextTrack] that comes after [n] earlier ones throws. *)
Fixpoint addEach (throws : nat -> bool) (n : nat) (tracks : list t)
  : list t * bool :=
  match tracks with
  | [] => ([], true)
  | track :: rest =>
      if throws n then ([], false)
      else let '(added, done) := addEach throws (S n) rest in
           (track :: added, done)
  end.

(** [if (hasSubtitles) { try { ... } catch { ... } }]: the tracks the
    player has been given, and whether the block was left normally (an
    exception thrown inside the [catch] leaves it).  [preferences] is
    what the two calls of [getPreference] answer, [enabled] and
    [savedLang], or [None] when one of them throws. *)
Definition addSubtitleTracks (isDevMode : bool)
  (subtitles_info : option (list backend))
  (preferences : option (bool * option string)) (throws : nat -> bool)
  : list t * bool :=
  if hasSubtitles isDevMode subtitles_info then
    let asTheyAre := subtitleTracks isDevMode subtitles_info in
    let fallback (before : list t) (n : nat) : list t * bool :=
      let '(added, done) := addEach throws n asTheyAre in
      ((before ++ added)%list, done) in
    match preferences with
    | Some (enabled, savedLang) =>
        let '(added, done) :=
          addEach throws 0 (tracksToAdd enabled savedLang asTheyAre) in
        if done then (added, true)
        else fallback added (S (List.length added))
    | None => fallback [] 0
    end
  else ([], true).

End Tracks.

(* ================================================================== *)
(** ** Caption cues on iOS *)
(* ================================================================== *)

Module Cues.

Import Captions.

Inductive lineSetting : Type := LineAuto | Line (n : Z).

Inductive positionSetting : Type := PositionAuto | Position (percent : Z).

Record cue : Type := {
  startTime : float;
  endTime : float;
  text : string;
  line : lineSetting;
  size : Z;
  position : positionSetting;
  align : string
}.

(** A text track: its cues ([None] for [track.cues] null) and the line
    positions held by the [onCueChange] listeners waiting on it, oldest
    first. *)
Record track : Type := {
  kind : trackKind;
  cues : option (list cue);
  waiting : list Z
}.

(** The four assignments made to every cue. *)
Definition place (linePosition : Z) (c : cue) : cue :=
  {| startTime := startTime c;
     endTime := endTime c;
     text := text c;
     line := Line linePosition;
     size := 90;
     position := PositionAuto;
     align := "center" |}.

(** [track.kind === 'subtitles' || track.kind === 'captions'] *)
Definition captionKind (k : trackKind) : bool :=
  match k with
  | KSubtitles | KCaptions => true
  | _ => false
  end.

(** [track.cues && track.cues.length > 0] *)
Definition loaded (t : track) : option (list cue) :=
  match cues t with
  | Some (c :: l) => Some (c :: l)
  | _ => None
  end.

Definition adjustTrack (linePosition : Z) (t : track) : track :=
  if captionKind (kind t) then
    match loaded t with
    | Some l =>
        {| kind := kind t;
           cues := Some (map (place linePosition) l);
           waiting := waiting t |}
    | None =>
        {| kind := kind t;
           cues := cues t;
           waiting := (waiting t ++ [linePosition])%list |}
    end
  else t.

(** [if (linePosition === undefined) linePosition = isUserInactive
    ? -2 : -4]; [None] is a call without argument, [userInactive] whether
    the player has class [vjs-user-inactive]. *)
Definition chosenLine (linePosition : option Z) (userInactive : bool) : Z :=
  match linePosition with
  | Some n => n
  | None => if userInactive then (-2)%Z else (-4)%Z
  end.

(** [adjustIOSCues(linePosition)] *)
Definition adjustIOSCues (linePosition : option Z) (userInactive : bool)
  (textTracks : list track) : list track :=
  map (adjustTrack (chosenLine linePosition userInactive)) textTracks.

(** A [cuechange] event on a track: the waiting listeners run in the order
    they were added; each places the cues and removes itself when the
    track has cues, and stays otherwise. *)
Definition cueChange (t : track) : track :=
  match loaded t with
  | Some l =>
      {| kind := kind t;
         cues := Some (fold_left (fun cs n => map (place n) cs)
                                 (waiting t) l);
         waiting := [] |}
  | None => t
  end.

(** The browser has parsed the cues of a track. *)
Definition load (l : list cue) (t : track) : track :=
  {| kind := kind t; cues := Some l; waiting := waiting t |}.

End Cues.

(* ================================================================== *)
(** ** Tap to play or pause on touch devices *)
(* ================================================================== *)

Module Tap.

Local Open Scope float_scope.

Record point : Type := { x : float; y : float }.

(** [getBoundingClientRect()] *)
Record rect : Type := {
  top : float;
  bottom : float;
  left : float;
  right : float
}.

(** [touchStartTime], [touchStartPos] and [playerRef.current
    .seekbarTouching]. *)
Record state : Type := {
  touchStartTime : Z;
  touchStartPos : point;
  seekbarTouching : bool
}.

Definition initial : state :=
  {| touchStartTime := 0;
     touchStartPos := {| x := 0; y := 0 |};
     seekbarTouching := false |}.

Inductive command : Type :=
| Play
| Pause
| UserActive (active : bool)
| ShowMobilePauseIcon.

(** What [handleTouchEnd] reads of the page: whether the control bar is
    visible, the rectangle of the centre icon when it is there and
    visible, whether the seek indicator component exists, and whether
    the player is paused. *)
Record view : Type := {
  controlsVisible : bool;
  icon : option rect;
  seekIndicator : bool;
  paused : bool
}.

Definition seekbarDeadZone : float := 8.

(** [touch.clientY >= progressRect.top - seekbarDeadZone &&
    touch.clientY <= progressRect.bottom] *)
Definition isInSeekbarArea (touch : point) (progressRect : rect) : bool :=
  (top progressRect - seekbarDeadZone <=? y touch)
  && (y touch <=? bottom progressRect).

(** [progress] is the rectangle of the progress control, when the control
    bar has one with an element. *)
Definition handleTouchStart (now : Z) (touch : point)
  (progress : option rect) (s : state) : state :=
  {| touchStartTime := now;
     touchStartPos := touch;
     seekbarTouching :=
       match progress with
       | Some progressRect =>
           if isInSeekbarArea touch progressRect then true
           else seekbarTouching s
       | None => seekbarTouching s
       end |}.

Definition isTapOnCenterIcon (touch : point) (v : view) : bool :=
  match icon v with
  | Some iconRect =>
      (left iconRect <=? x touch) && (x touch <=? right iconRect)
      && (top iconRect <=? y touch) && (y touch <=? bottom iconRect)
  | None => false
  end.

(** The timer that every [touchend] starts, coming due 50 ms later (the
    player is still there). *)
Definition clearSeekbarTouching (s : state) : state :=
  {| touchStartTime := touchStartTime s;
     touchStartPos := touchStartPos s;
     seekbarTouching := false |}.

Section Gesture.

(** [Math.pow] and [Math.sqrt]. *)
Variable pow : float -> float -> float.
Variable sqrt : float -> float.

Definition distance (touchEndPos touchStartPos : point) : float :=
  sqrt (pow (x touchEndPos - x touchStartPos) 2
        + pow (y touchEndPos - y touchStartPos) 2).

(** The commands [handleTouchEnd] gives the player; the timer that
    clears the flag is started in every case. *)
Definition handleTouchEnd (now : Z) (touch : point) (v : view)
  (s : state) : list command :=
  if ((now - touchStartTime s <? 500)%Z && negb (seekbarTouching s))%bool
  then
    if distance touch (touchStartPos s) <? 50 then
      if paused v then [Play]
      else if isTapOnCenterIcon touch v then [Pause]
      else if controlsVisible v then [Pause]
      else UserActive true
             :: (if seekIndicator v then [ShowMobilePauseIcon] else [])
    else []
  else [].

(** What reaches the handlers: a [touchstart], a [touchend], or one of
    the timers coming due. *)
Inductive event : Type :=
| TouchStart (now : Z) (touch : point) (progress : option rect)
| TouchEnd (now : Z) (touch : point) (v : view)
| Timer.

Definition step (e : event) (s : state) : list command * state :=
  match e with
  | TouchStart now touch progress =>
      ([], handleTouchStart now touch progress s)
  | TouchEnd now touch v => (handleTouchEnd now touch v s, s)
  | Timer => ([], clearSeekbarTouching s)
  end.

(** The commands of every event in turn, and the state at the end. *)
Fixpoint run (events : list event) (s : state)
  : list (list command) * state :=
  match events with
  | [] => ([], s)
  | e :: rest =>
      let '(commands, s') := step e s in
      let '(more, final) := run rest s' in
      (commands :: more, final)
  end.

End Gesture.

End Tap.

(* ================================================================== *)
(** ** Vocabulary of the further properties *)
(* ================================================================== *)

Module Stated.

Import JS Captions.

(** The language the captions button turns on: the saved one, else the
    language of the first subtitles track, when that is not empty. *)
Definition chosenLanguage (preferred : option string)
  (l : list textTrack) : option string :=
  if truthy_opt preferred then preferred
  else match firstLanguage l with
       | Some first => if truthy_str first then Some first else None
       | None => None
       end.

(** The subtitles tracks show exactly the language [lang]. *)
Definition settledOn (lang : string) (l : list textTrack) : Prop :=
  forall t, In t l -> isSubtitles t = true ->
    (mode t = Showing <-> language t = lang) /\ mode t <> Hidden.

Definition isWrite (e : effect) : bool :=
  match e with
  | SetPreference _ _ _ => true
  | ConsoleError _ => false
  end.

(** The writes to the preference store among some effects. *)
Definition writes (l : list effect) : list effect := filter isWrite l.

(** A cue after it has been placed on a line: the line, a width of 90,
    centred, with the times and the text it had. *)
Definition placedAt (linePosition : Z) (before after : Cues.cue) : Prop :=
  Cues.line after = Cues.Line linePosition /\
  Cues.size after = 90%Z /\
  Cues.position after = Cues.PositionAuto /\
  Cues.align after = "center" /\
  Cues.startTime after = Cues.startTime before /\
  Cues.endTime after = Cues.endTime before /\
  Cues.text after = Cues.text before.

(** The line a call of [adjustIOSCues] asks for: the argument, else -2
    while the user is inactive and -4 otherwise. *)
Definition asksFor (linePosition : option Z) (userInactive : bool) (n : Z)
  : Prop :=
  linePosition = Some n \/
  (linePosition = None /\ userInactive = true /\ n = (-2)%Z) \/
  (linePosition = None /\ userInactive = false /\ n = (-4)%Z).

(** A subtitles or captions track. *)
Definition captionTrack (t : Cues.track) : Prop :=
  Cues.kind t = KSubtitles \/ Cues.kind t = KCaptions.

(** A track whose cues are not there yet. *)
Definition withoutCues (t : Cues.track) : Prop :=
  Cues.cues t = None \/ Cues.cues t = Some [].

(** What a call for line [n] makes of a track: another kind of track is
    left as it is; a subtitles or captions track with cues has each of
    them placed on the line, one without cues waits for them with one
    more listener. *)
Definition adjusted (n : Z) (before after : Cues.track) : Prop :=
  Cues.kind after = Cues.kind before /\
  (~ captionTrack before -> after = before) /\
  (forall l, captionTrack before -> Cues.cues before = Some l -> l <> [] ->
     exists l',
       Cues.cues after = Some l' /\ Forall2 (placedAt n) l l' /\
       Cues.waiting after = Cues.waiting before) /\
  (captionTrack before -> withoutCues before ->
     Cues.cues after = Cues.cues before /\
     Cues.waiting after = (Cues.waiting before ++ [n])%list).

(** The tap lands on the centre icon, which is there and visible. *)
Definition onCentreIcon (touch : Tap.point) (v : Tap.view) : Prop :=
  exists r, Tap.icon v = Some r /\
    (Tap.left r <=? Tap.x touch)%float = true /\
    (Tap.x touch <=? Tap.right r)%float = true /\
    (Tap.top r <=? Tap.y touch)%float = true /\
    (Tap.y touch <=? Tap.bottom r)%float = true.

(** The track handed to the player is the backend track: a subtitles
    track with its file, language code and label. *)
Definition describes (b : Tracks.backend) (t : Tracks.t) : Prop :=
  Tracks.kind t = "subtitles" /\ Tracks.src t = Tracks.b_src b /\
  Tracks.srclang t = Tracks.b_srclang b /\
  Tracks.label t = Tracks.b_label b.

(** The default flag decided by the saved preferences: subtitles are
    enabled and the saved language matches the language code. *)
Definition preferred (enabled : bool) (savedLang : option string)
  (b : Tracks.backend) : bool :=
  enabled && truthy_opt savedLang
  && Subtitles.matchLang {| Subtitles.srclang := Tracks.b_srclang b;
                            Subtitles.language := None |} savedLang.

(** The default flag of the backend. *)
Definition backendDefault (b : Tracks.backend) : bool :=
  match Tracks.b_default b with
  | Some flag => flag
  | None => false
  end.

(** No call of [addRemoteTextTrack] throws. *)
Definition neverThrows (throws : nat -> bool) : Prop :=
  forall n, throws n = false.

End Stated.

(* ================================================================== *)
(** ** More sample data *)
(* ================================================================== *)

Module Scenes.

Import Captions.

Definition english : textTrack :=
  {| kind := KSubtitles; mode := Showing; language := "en" |}.

Definition greek : textTrack :=
  {| kind := KSubtitles; mode := Disabled; language := "el" |}.

Definition markers : textTrack :=
  {| kind := KChapters; mode := Hidden; language := "" |}.

(** English subtitles on, the button underlined. *)
Definition watching : ui :=
  {| tracks := [markers; english; greek]; active := true; log := [] |}.

(** A preference store that never throws. *)
Definition reliable : string -> prefValue -> bool := fun _ _ => false.

(** A descriptor whose JSON list is there and empty. *)
Definition emptyList : media_data :=
  Samples.descriptor
    (Samples.mediaOf None (Some Samples.renditions) None None None
       (Some []) None).

(** A backend track that asks to be the default one. *)
Definition french : Tracks.backend :=
  {| Tracks.b_src := Some "/media/subtitles/fr.vtt";
     Tracks.b_srclang := Some "fr";
     Tracks.b_label := Some "French";
     Tracks.b_default := Some true |}.

(** A cue as the browser parsed it. *)
Definition greeting : Cues.cue :=
  {| Cues.startTime := 1; Cues.endTime := 4; Cues.text := "Hello";
     Cues.line := Cues.LineAuto; Cues.size := 100;
     Cues.position := Cues.PositionAuto; Cues.align := "start" |}.

(** A subtitles track with its cue, one without cues yet, and the
    chapters track. *)
Definition spoken : Cues.track :=
  {| Cues.kind := KSubtitles; Cues.cues := Some [greeting];
     Cues.waiting := [] |}.

Definition silent : Cues.track :=
  {| Cues.kind := KSubtitles; Cues.cues := None; Cues.waiting := [] |}.

Definition chapterMarks : Cues.track :=
  {| Cues.kind := KChapters;
     Cues.cues :=
       Some [ {| Cues.startTime := 0; Cues.endTime := 60;
                 Cues.text := "Introduction"; Cues.line := Cues.LineAuto;
                 Cues.size := 100; Cues.position := Cues.PositionAuto;
                 Cues.align := "center" |} ];
     Cues.waiting := [] |}.

(** [Math.pow(x, 2)] as a product. *)
Definition square (x exponent : float) : float := (x * x)%float.

(** A progress bar across the bottom of a 640 by 420 player, a point 5
    pixels above it, and the middle of the picture. *)
Definition progressBar : Tap.rect :=
  {| Tap.top := 400; Tap.bottom := 410; Tap.left := 0; Tap.right := 640 |}.

Definition aboveBar : Tap.point := {| Tap.x := 200; Tap.y := 395 |}.

Definition middle : Tap.point := {| Tap.x := 320; Tap.y := 200 |}.

(** A playing video with its controls showing. *)
Definition watchingControls : Tap.view :=
  {| Tap.controlsVisible := true; Tap.icon := None;
     Tap.seekIndicator := true; Tap.paused := false |}.

End Scenes.

(* ================================================================== *)
(** ** Properties *)
(* ================================================================== *)

(** *** Strings and tables *)

Section StringFacts.

Import JS.

Lemma prefix_append (p s : string) :
  String.prefix p s = true <-> exists r, s = p ++ r.
Proof.
  revert s; induction p as [|c p IH]; intros s.
  - split; [intros _; now exists s | now destruct s].
  - destruct s as [|d s]; simpl.
    + split; [discriminate | intros [r Hr]; discriminate].
    + destruct (Ascii.ascii_dec c d) as [Hcd|Hcd].
      * subst d. split.
        -- intros H. apply IH in H. destruct H as [r ->]. now exists r.
        -- intros [r Hr]. apply IH. exists r. now inversion Hr.
      * split; [discriminate | intros [r Hr]; inversion Hr; congruence].
Qed.

Lemma append_assoc (a b c : string) : (a ++ b) ++ c = a ++ (b ++ c).
Proof. induction a as [|x a IH]; simpl; [reflexivity | now rewrite IH]. Qed.

Lemma append_nil_r (a : string) : a ++ "" = a.
Proof. induction a as [|x a IH]; simpl; [reflexivity | now rewrite IH]. Qed.

Lemma truthy_str_true (s : string) : truthy_str s = true <-> s <> "".
Proof.
  unfold truthy_str. rewrite negb_true_iff. apply String.eqb_neq.
Qed.

Lemma truthy_str_false (s : string) : truthy_str s = false <-> s = "".
Proof.
  unfold truthy_str. rewrite negb_false_iff. apply String.eqb_eq.
Qed.

Lemma truthy_append (a b : string) :
  truthy_str b = true -> truthy_str (a ++ b) = true.
Proof.
  rewrite !truthy_str_true. intros Hb Hab. apply Hb.
  destruct a; simpl in Hab; [assumption | discriminate].
Qed.

Lemma flat_map_nil {X Y : Type} (entry : X -> list Y) (xs : list X)
  (H : forall x, In x xs -> entry x = []) :
  flat_map entry xs = [].
Proof.
  induction xs as [|x xs IH]; simpl; [reflexivity|].
  rewrite (H x (or_introl eq_refl)), IH; [reflexivity|].
  intros y Hy. apply H. now right.
Qed.

End StringFacts.

(** *** Related videos and the current-video record *)

Section PlayerFacts.

Import JS Player.

(** C10: the related-videos list holds at most 12 entries, which are the
    first entries of the related-media list in their input order, and it
    is empty when the media has no related-media field. *)
Theorem relatedVideos_first_twelve (mediaData : media_data) :
  (List.length (relatedVideos mediaData) <= 12)%nat /\
  (forall l, data_field related_media mediaData = Some l ->
     relatedVideos mediaData = map relatedVideo (firstn 12 l) /\
     map Related.id (relatedVideos mediaData)
       = firstn 12 (map Raw.friendly_token l)) /\
  (data_field related_media mediaData = None ->
     relatedVideos mediaData = []).
Proof.
  unfold relatedVideos.
  destruct (data_field related_media mediaData) as [l|].
  - split; [|split].
    + rewrite length_map, length_firstn. apply Nat.le_min_l.
    + intros l' Hl'. injection Hl' as <-. split; [reflexivity|].
      rewrite map_map, firstn_map. reflexivity.
    + discriminate.
  - split; [|split].
    + simpl. lia.
    + discriminate.
    + reflexivity.
Qed.

(** C9: the current-video record always has [urlAutoplay = true], whatever
    the input flag is (also an explicit [false]), while [urlMuted] keeps an
    explicit [false] (and an explicit [true]). *)
Theorem currentVideo_urlAutoplay_always_true
  (audioPosterImg : string) (mediaData : media_data) (quality : string) :
  Video.urlAutoplay (currentVideo audioPosterImg mediaData quality) = true /\
  Video.urlMuted (currentVideo audioPosterImg mediaData quality)
    = match urlMuted mediaData with
      | Some b => b
      | None => false
      end.
Proof.
  unfold currentVideo; simpl. split.
  - destruct (urlAutoplay mediaData) as [[|]|]; reflexivity.
  - destruct (urlMuted mediaData) as [[|]|]; reflexivity.
Qed.

End PlayerFacts.

(** *** Source resolution *)

Section ResolverFacts.

Import JS Sources Spec.

Variable mediaData : media_data.
Variable userQuality : string.

Lemma fromHls_noManifest :
  noManifest mediaData -> fromHls mediaData userQuality = None.
Proof.
  unfold noManifest, fromHls. intros H.
  destruct (data_field hls_info mediaData) as [hls|]; [|reflexivity].
  specialize (H hls eq_refl).
  unfold hlsAuto, hlsVariant, hlsMaster.
  pose proof (H "master_file") as Hm.
  pose proof (H (replace userQuality "p" "" ++ "_playlist")) as Hq.
  destruct (get hls "master_file") as [f|]; simpl in Hm;
    destruct (get hls (replace userQuality "p" "" ++ "_playlist")) as [g|];
    simpl in Hq; rewrite ?Hm, ?Hq, ?andb_false_r;
    destruct (negb (isAuto userQuality)); reflexivity.
Qed.

Lemma fromEncodings_noRendition :
  noRendition mediaData -> fromEncodings mediaData userQuality = None.
Proof.
  unfold noRendition, fromEncodings. intros H.
  destruct (data_field encodings_info mediaData) as [enc|]; [|reflexivity].
  specialize (H enc eq_refl).
  unfold encodedChoice, encodedLadder.
  rewrite H. rewrite flat_map_nil.
  - destruct (negb (isAuto userQuality)); reflexivity.
  - intros k _. unfold ladderSource. now rewrite H.
Qed.

Lemma fromOriginal_noOriginal :
  noOriginal mediaData -> fromOriginal mediaData = None.
Proof.
  unfold noOriginal, fromOriginal.
  destruct (data_field original_media_url mediaData) as [u|]; simpl;
    [intros ->|]; reflexivity.
Qed.

Lemma fromHls_nonempty (l : list Source.t) :
  fromHls mediaData userQuality = Some l -> l <> [].
Proof.
  unfold fromHls, hlsAuto, hlsVariant, hlsMaster.
  destruct (data_field hls_info mediaData) as [hls|]; [|discriminate].
  destruct (get hls "master_file") as [f|];
    destruct (get hls (replace userQuality "p" "" ++ "_playlist")) as [g|];
    destruct (isAuto userQuality); simpl;
    repeat match goal with
           | |- context [truthy_str ?x] => destruct (truthy_str x); simpl
           end;
    intros [= <-] || discriminate; discriminate.
Qed.

Lemma fromEncodings_nonempty (l : list Source.t) :
  fromEncodings mediaData userQuality = Some l -> l <> [].
Proof.
  unfold fromEncodings, encodedChoice, encodedLadder.
  destruct (data_field encodings_info mediaData) as [enc|]; [|discriminate].
  destruct (negb (isAuto userQuality));
    [destruct (h264_url enc (replace userQuality "p" ""))|]; simpl;
    try (intros [= <-]; discriminate);
    destruct (flat_map _ _); intros [= <-] || discriminate; discriminate.
Qed.

Lemma fromOriginal_nonempty (l : list Source.t) :
  fromOriginal mediaData = Some l -> l <> [].
Proof.
  unfold fromOriginal.
  destruct (data_field original_media_url mediaData) as [u|]; [|discriminate].
  destruct (truthy_str u); [intros [= <-]|]; discriminate.
Qed.

(** C4: for every media descriptor and every quality preference the
    resolver returns at least one source; with no adaptive manifest, no
    encoded rendition and no canonical media URL it returns the single
    hard-coded sample source. *)
Theorem getVideoSources_never_empty :
  getVideoSources mediaData userQuality <> [] /\
  (noManifest mediaData -> noRendition mediaData -> noOriginal mediaData ->
   getVideoSources mediaData userQuality = [sampleSource]).
Proof.
  split.
  - unfold getVideoSources.
    destruct (fromHls mediaData userQuality) as [l|] eqn:Hh; simpl.
    { now apply fromHls_nonempty. }
    destruct (fromEncodings mediaData userQuality) as [l|] eqn:He; simpl.
    { now apply fromEncodings_nonempty. }
    destruct (fromOriginal mediaData) as [l|] eqn:Ho; simpl.
    { now apply fromOriginal_nonempty. }
    discriminate.
  - intros Hm Hr Ho. unfold getVideoSources.
    rewrite (fromHls_noManifest Hm), (fromEncodings_noRendition Hr),
      (fromOriginal_noOriginal Ho). reflexivity.
Qed.

End ResolverFacts.
(** *** Subtitle language matching *)

Section SubtitleFacts.

Import JS Subtitles.

Lemma matchLang_eq (t : track) (target : option string) :
  matchLang t target =
    truthy_str (trackLang t) && truthy_str (targetLang target) &&
    (String.eqb (trackLang t) (targetLang target)
     || startsWith (trackLang t) (targetLang target ++ "-")
     || startsWith (targetLang target) (trackLang t ++ "-")).
Proof.
  unfold matchLang.
  destruct (truthy_str (trackLang t)), (truthy_str (targetLang target));
    reflexivity.
Qed.

Lemma lower_char_foldLetter (c : ascii) :
  lower_char c
  = Spec.foldLetter c "ABCDEFGHIJKLMNOPQRSTUVWXYZ"
                      "abcdefghijklmnopqrstuvwxyz".
Proof. destruct c as [[] [] [] [] [] [] [] []]; reflexivity. Qed.

Lemma toLowerCase_caseFold (s : string) : toLowerCase s = Spec.caseFold s.
Proof.
  induction s as [|c s IH]; simpl; [reflexivity|].
  now rewrite lower_char_foldLetter, IH.
Qed.

Lemma caseFold_empty (s : string) : Spec.caseFold s = "" <-> s = "".
Proof. destruct s; simpl; split; intros H; congruence. Qed.

Lemma trackLang_tagOf (t : track) :
  trackLang t = Spec.caseFold (Spec.tagOf t).
Proof.
  unfold trackLang, Spec.tagOf. rewrite <- toLowerCase_caseFold. f_equal.
  unfold or_str, or_opt.
  destruct (srclang t) as [[|c s]|]; simpl.
  - destruct (language t) as [[|d u]|]; reflexivity.
  - reflexivity.
  - destruct (language t) as [[|d u]|]; reflexivity.
Qed.

Lemma targetLang_preferenceOf (target : option string) :
  targetLang target = Spec.caseFold (Spec.preferenceOf target).
Proof.
  unfold targetLang, Spec.preferenceOf. rewrite <- toLowerCase_caseFold.
  f_equal. unfold or_str, or_opt.
  destruct target as [[|c s]|]; reflexivity.
Qed.

(** C7: for a track tag [T] (the [srclang] of the track, else its
    [language]) and a stored preference [S], both of ASCII characters,
    the predicate holds exactly when neither is empty and, after case
    folding, [T] equals [S], or [T] is [S], a hyphen and a subtag, or [S]
    is [T], a hyphen and a subtag; the predicate is symmetric in the two
    tags, and it never holds when either is empty. *)
Theorem matchLang_exact_or_subtag_prefix :
  (forall (t : track) (target : option string),
     Spec.isAscii (Spec.tagOf t) = true ->
     Spec.isAscii (Spec.preferenceOf target) = true ->
     (matchLang t target = true <->
      Spec.tagOf t <> "" /\ Spec.preferenceOf target <> "" /\
      Spec.tagsMatch (Spec.caseFold (Spec.tagOf t))
                     (Spec.caseFold (Spec.preferenceOf target)))) /\
  (forall a b : string,
     Spec.isAscii a = true -> Spec.isAscii b = true ->
     matchLang {| srclang := Some a; language := None |} (Some b)
     = matchLang {| srclang := Some b; language := None |} (Some a)) /\
  (forall (t : track) (target : option string),
     Spec.tagOf t = "" \/ Spec.preferenceOf target = "" ->
     matchLang t target = false).
Proof.
  split; [|split].
  - intros t target _ _. rewrite matchLang_eq.
    rewrite trackLang_tagOf, targetLang_preferenceOf.
    set (T := Spec.caseFold (Spec.tagOf t)).
    set (S := Spec.caseFold (Spec.preferenceOf target)).
    rewrite <- (caseFold_empty (Spec.tagOf t)),
      <- (caseFold_empty (Spec.preferenceOf target)).
    fold T S. unfold Spec.tagsMatch, Spec.extends.
    rewrite !andb_true_iff, !orb_true_iff, !truthy_str_true.
    unfold startsWith. rewrite String.eqb_eq, !prefix_append.
    split.
    + intros [[HT HS] [[H|[r H]]|[r H]]]; repeat split; auto.
      * right; left. exists r. rewrite H.
        now rewrite <- append_assoc.
      * right; right. exists r. rewrite H.
        now rewrite <- append_assoc.
    + intros (HT & HS & [H|[[r H]|[r H]]]); (split; [now split|]).
      * now left; left.
      * left; right. exists r. rewrite H at 1.
        now rewrite append_assoc.
      * right. exists r. rewrite H at 1.
        now rewrite append_assoc.
  - intros a b _ _. rewrite !matchLang_eq.
    assert (Hl : forall x, trackLang {| srclang := Some x; language := None |}
                           = targetLang (Some x)).
    { intros x. unfold trackLang, targetLang, or_str, or_opt; simpl.
      destruct (truthy_str x) eqn:E; simpl; rewrite ?E; [reflexivity|].
      apply truthy_str_false in E. now subst x. }
    rewrite !Hl.
    rewrite (String.eqb_sym (targetLang (Some a)) (targetLang (Some b))).
    destruct (truthy_str (targetLang (Some a))),
      (truthy_str (targetLang (Some b))),
      (String.eqb (targetLang (Some b)) (targetLang (Some a))),
      (startsWith (targetLang (Some a)) (targetLang (Some b) ++ "-")),
      (startsWith (targetLang (Some b)) (targetLang (Some a) ++ "-"));
      reflexivity.
  - intros t target H. rewrite matchLang_eq.
    rewrite trackLang_tagOf, targetLang_preferenceOf.
    destruct H as [H|H]; rewrite H; simpl; [reflexivity|].
    now rewrite andb_false_r.
Qed.

Lemma matchLang_en_en_US :
  matchLang {| srclang := Some "en-US"; language := None |} (Some "en") = true
  /\ matchLang {| srclang := Some "en"; language := None |} (Some "en-US")
     = true.
Proof. split; reflexivity. Qed.

End SubtitleFacts.
(** *** Chapters *)

Section NumberFacts.

Import JS.

Lemma Prim2SF_zero : Prim2SF 0%float = S754_zero false.
Proof. reflexivity. Qed.

Lemma SFcompare_refl_finite (s : bool) (m : positive) (e : Z) :
  SFcompare (S754_finite s m e) (S754_finite s m e) = Some Eq.
Proof.
  simpl. rewrite Z.compare_refl, Pos.compare_refl.
  destruct s; reflexivity.
Qed.

(** A Number above zero is truthy: it is neither NaN nor a zero. *)
Lemma positive_truthy (d : float) :
  (0 <? d)%float = true -> truthy_num d = true.
Proof.
  unfold truthy_num, PrimFloat.is_nan, PrimFloat.is_zero.
  rewrite ltb_spec, !eqb_spec, Prim2SF_zero.
  destruct (Prim2SF d) as [s|s| |s m e] eqn:E; unfold SFltb, SFeqb.
  - simpl. discriminate.
  - destruct s; simpl; [discriminate | reflexivity].
  - simpl. discriminate.
  - rewrite SFcompare_refl_finite.
    destruct s; simpl; [discriminate | reflexivity].
Qed.

End NumberFacts.

Section ChapterFacts.

Import JS Chapters Spec.

Lemma isGenericTitle_spec (c : Raw.chapter) :
  isGenericTitle c = true <-> genericTitle c.
Proof.
  unfold isGenericTitle, genericTitle.
  destruct (Raw.chapterTitle c) as [t|].
  - rewrite existsb_exists. split.
    + intros (x & Hx & E). apply String.eqb_eq in E. subst x.
      exists t. now split.
    + intros (t' & [= <-] & Hin). exists (toLowerCase t).
      split; [assumption | apply String.eqb_refl].
  - split; [discriminate | intros (t & Ht & _); discriminate].
Qed.

(** What [hasRealChapters] answers for a single entry. *)
Lemma hasRealChapters_single (c : Raw.chapter) (vd : option float) :
  hasRealChapters (Some [c]) vd =
    negb (isGenericTitle c &&
          match vd with
          | Some d =>
              if durationKnown vd
              then isFullVideo (startSeconds c) (endSeconds c) d
              else (startSeconds c =? 0)%float
          | None => (startSeconds c =? 0)%float
          end).
Proof.
  unfold hasRealChapters, startSeconds, endSeconds. cbv zeta.
  destruct vd as [d|].
  - destruct (durationKnown (Some d)),
      (isFullVideo (convertTimeStringToSeconds (Raw.startTime c))
         (convertTimeStringToSeconds (Raw.endTime c)) d),
      (isGenericTitle c),
      (convertTimeStringToSeconds (Raw.startTime c) =? 0)%float;
      reflexivity.
  - destruct (isGenericTitle c),
      (convertTimeStringToSeconds (Raw.startTime c) =? 0)%float;
      reflexivity.
Qed.

(** Whether the component sees a known, positive duration. *)
Lemma durationKnown_videoDuration (m : media_data) :
  durationKnown (videoDuration m) = true <->
  exists d, positiveDuration m d.
Proof.
  unfold videoDuration, positiveDuration, durationKnown.
  destruct (data_field duration m) as [d|].
  - destruct (truthy_num d) eqn:T.
    + rewrite T. simpl. split.
      * intros H. now exists d.
      * intros (d' & [= <-] & H). exact H.
    + split; [discriminate|].
      intros (d' & [= <-] & H). apply positive_truthy in H. congruence.
  - split; [discriminate | intros (d & H & _); discriminate].
Qed.

Lemma durationUnknown_videoDuration (m : media_data) :
  durationKnown (videoDuration m) = false <-> unknownOrNonPositive m.
Proof.
  rewrite <- not_true_iff_false, durationKnown_videoDuration.
  unfold unknownOrNonPositive, positiveDuration.
  destruct (data_field duration m) as [d|].
  - destruct (0 <? d)%float eqn:P.
    + split.
      * intros H. exfalso. apply H. now exists d.
      * intros [H|(d' & [= <-] & H)]; [discriminate | congruence].
    + split.
      * intros _. right. now exists d.
      * intros _ (d' & [= <-] & H). congruence.
  - split; [now left | intros _ (d & H & _); discriminate].
Qed.

Lemma videoDuration_positive (m : media_data) (d : float) :
  positiveDuration m d -> videoDuration m = Some d.
Proof.
  unfold positiveDuration, videoDuration. intros [-> H].
  now rewrite (positive_truthy _ H).
Qed.

Lemma suppressed_hasRealChapters (m : media_data) (c : Raw.chapter) :
  hasRealChapters (Some [c]) (videoDuration m) = false <-> suppressed m c.
Proof.
  rewrite hasRealChapters_single, negb_false_iff, andb_true_iff,
    isGenericTitle_spec.
  unfold suppressed, spansWholeVideo, startsAtZero.
  destruct (durationKnown (videoDuration m)) eqn:K.
  - pose proof (proj1 (durationKnown_videoDuration m) K) as [d Hd].
    rewrite (videoDuration_positive _ _ Hd) in *.
    unfold isFullVideo, tolerance. rewrite andb_true_iff. split.
    + intros [G F]. left. split; [assumption|]. now exists d.
    + intros [[G (d' & Hd' & F)]|[U _]].
      * destruct Hd as [Hd _], Hd' as [Hd' _].
        rewrite Hd in Hd'. injection Hd' as <-. now split.
      * apply durationUnknown_videoDuration in U.
        rewrite (videoDuration_positive _ _ Hd) in U. congruence.
  - assert (E : match videoDuration m with
                | Some d => (startSeconds c =? 0)%float
                | None => (startSeconds c =? 0)%float
                end = (startSeconds c =? 0)%float).
    { now destruct (videoDuration m). }
    rewrite E. split.
    + intros [G Z]. right. split; [|now split].
      now apply durationUnknown_videoDuration.
    + intros [[G (d & Hd & _)]|(_ & Z & G)]; [|now split].
      exfalso. rewrite (videoDuration_positive _ _ Hd) in K.
      destruct Hd as [_ Hd]. unfold durationKnown in K.
      rewrite (positive_truthy _ Hd), Hd in K. discriminate.
Qed.

(** C3 (amended): a single raw chapter is dropped exactly when its title is
    generic and either the duration is known and positive and the entry
    spans the whole video within one second, or the duration is unknown or
    not positive and the entry starts at exactly 0; otherwise the entry is
    kept, converted. *)
Theorem chaptersData_single_entry
  (isDevMode : bool) (mediaData : media_data) (c : Raw.chapter) :
  data_field chapter_data mediaData = Some [c] ->
  (chaptersData isDevMode mediaData = [] <-> suppressed mediaData c) /\
  (~ suppressed mediaData c ->
   chaptersData isDevMode mediaData = [convertChapter c]).
Proof.
  intros H. unfold chaptersData. rewrite H.
  destruct (hasRealChapters (Some [c]) (videoDuration mediaData)) eqn:R.
  - assert (N : ~ suppressed mediaData c).
    { rewrite <- suppressed_hasRealChapters. congruence. }
    split; [|reflexivity].
    simpl. split; [discriminate | contradiction].
  - apply suppressed_hasRealChapters in R.
    split; [tauto | contradiction].
Qed.

End ChapterFacts.

Section ConversionFacts.

Import JS Chapters Spec.




Example convert_timestamp :
  convertTimeStringToSeconds (TString "00:01:04.000") = 64%float /\
  convertTimeStringToSeconds (TString "01:02:03.5") = 3723.5%float /\
  convertTimeStringToSeconds (TString "12:30") = 0%float /\
  convertTimeStringToSeconds (TString "a:b:c") = 0%float.
Proof. repeat split; vm_compute; reflexivity. Qed.

End ConversionFacts.
(** *** Autoplay after next-video navigation *)

Section AutoplayFacts.

Import Autoplay.

Variable browser : policy.

(** C8: when the browser rejects the first, unmuted [play()], the handler
    mutes the player and calls [play()] exactly once more; nothing is
    thrown whatever the browser answers; when the muted call is rejected
    too, both failures are logged and the player stays paused. *)
Theorem autoplay_one_muted_retry
  (w : world) (p : player) (param : option string) (message : string) :
  current w = Some p ->
  disposed p = false ->
  muted p = false ->
  paused p = true ->
  JS.truthy_opt param = true ->
  browser (List.length (playCalls w)) false = Some message ->
  exists w',
    autoplayOnNavigation browser false param w = (Ok tt, w') /\
    match browser (S (List.length (playCalls w))) true with
    | None =>
        playCalls w'
        = (playCalls w ++ [PlayCalled false false; PlayCalled true true])%list
        /\
        current w'
        = Some {| muted := true; paused := false; disposed := false |}
    | Some mutedMessage =>
        playCalls w'
        = (playCalls w ++ [PlayCalled false false; PlayCalled true false])%list
        /\
        current w'
        = Some {| muted := true; paused := true; disposed := false |} /\
        trace w'
        = (trace w ++
           [ PlayCalled false false;
             ConsoleError "ℹ️ Browser prevented play:" message;
             MutedSet true;
             PlayCalled true false;
             ConsoleError "ℹ️ Even muted play was blocked:" mutedMessage ])%list
    end.
Proof.
  intros Hc Hd Hm Hp Hq Hb.
  destruct w as [c t]; simpl in Hc; subst c.
  destruct p as [m pa d]; simpl in Hd, Hm, Hp; subst m pa d.
  unfold playCalls in *; simpl in Hb |- *.
  unfold autoplayOnNavigation. rewrite Hq. simpl.
  unfold playWithFallback, bind, playerAlive, tryCatch, play, playCalls;
    simpl.
  rewrite Hb.
  unfold consoleError, emit, getMuted, setMuted; simpl.
  rewrite <- ?app_assoc; simpl.
  rewrite ?filter_app, ?length_app; simpl. rewrite ?Nat.add_1_r.
  destruct (browser (S (List.length (filter isPlayCall t))) true)
    as [mutedMessage|]; simpl.
  - eexists; split; [reflexivity|]. simpl.
    rewrite <- ?app_assoc; simpl.
    rewrite ?filter_app; simpl.
    split; [reflexivity | split; reflexivity].
  - eexists; split; [reflexivity|]. simpl.
    rewrite <- ?app_assoc; simpl.
    rewrite ?filter_app; simpl.
    split; reflexivity.
Qed.

End AutoplayFacts.
(** *** Integer-valued Numbers *)

Section IntegralFacts.

Import JS.

Local Open Scope Z_scope.

Lemma nearest_small (z : Z) : Z.abs z < 2 ^ 53 -> nearest z = Integer z.
Proof.
  intros H. unfold nearest. apply Z.ltb_lt in H. rewrite H. reflexivity.
Qed.

(** Rounding keeps the sign. *)
Lemma nearest_sign (z : Z) : cmp_gt (nearest z) = (0 <? z).
Proof.
  unfold nearest.
  destruct (Z.abs z <? 2 ^ 53) eqn:S; [reflexivity|].
  apply Z.ltb_ge in S. cbv zeta.
  set (a := Z.abs z) in *.
  set (e := Z.log2 a - 52).
  assert (A : 0 < a) by (assert (0 < 2 ^ 53) by (apply Z.pow_pos_nonneg; lia); lia).
  assert (L : 53 <= Z.log2 a).
  { apply Z.log2_le_pow2; [exact A | exact S]. }
  assert (E : 0 < e) by (unfold e; lia).
  assert (P : 0 < 2 ^ e) by (apply Z.pow_pos_nonneg; lia).
  assert (Q : 0 < a / 2 ^ e).
  { apply Z.div_str_pos. split; [exact P|].
    destruct (Z.log2_spec a A) as [Lo _].
    apply Z.le_trans with (2 ^ Z.log2 a); [|exact Lo].
    apply Z.pow_le_mono_r; [lia | unfold e; lia]. }
  fold e.
  set (q' := if (2 ^ (e - 1) <? a mod 2 ^ e)
                || (2 ^ (e - 1) =? a mod 2 ^ e) && Z.odd (a / 2 ^ e)
             then a / 2 ^ e + 1 else a / 2 ^ e).
  assert (Q' : 0 < q') by (unfold q'; destruct (_ || _); lia).
  assert (M : 0 < q' * 2 ^ e) by (apply Z.mul_pos_pos; assumption).
  destruct (2 ^ 1024 <=? q' * 2 ^ e); simpl.
  - destruct (Z.ltb_spec z 0), (Z.ltb_spec 0 z); try reflexivity; lia.
  - destruct (Z.ltb_spec 0 z) as [G|G].
    + rewrite Z.sgn_pos by exact G. apply Z.ltb_lt. lia.
    + assert (z < 0) by lia. rewrite Z.sgn_neg by assumption.
      apply Z.ltb_ge. lia.
Qed.

(** The sign of a difference of two integers is the sign of its Number. *)
Lemma minus_sign (a b : Z) :
  cmp_gt (minus (Integer a) (Integer b)) = (b <? a).
Proof.
  simpl. rewrite nearest_sign.
  destruct (Z.ltb_spec 0 (a - b)), (Z.ltb_spec b a); try reflexivity; lia.
Qed.

(** Below 2^53 [parseInt(x) - parseInt(y)] is the difference of the
    integers. *)
Lemma sub_int_sign (a b : Z) :
  Z.abs a < 2 ^ 53 -> Z.abs b < 2 ^ 53 ->
  cmp_gt (sub_int (Some a) (Some b)) = (b <? a).
Proof.
  intros Ha Hb. unfold sub_int, integral_of_int.
  rewrite (nearest_small a Ha), (nearest_small b Hb). apply minus_sign.
Qed.

(** At the edges of what binary64 holds the rounding of the model is the
    IEEE rounding. *)
Example nearest_is_binary64_rounding :
  forallb Spec.roundsAsBinary64 Samples.boundaryIntegers = true.
Proof. vm_compute. reflexivity. Qed.

(** Two resolution numbers that binary64 cannot tell apart stay in the
    order of the table. *)
Example ladderKeys_beyond_2_53 :
  Sources.ladderKeys Samples.hugeRenditions
  = ["9007199254740992"; "9007199254740993"].
Proof. vm_compute. reflexivity. Qed.

(** Numbers as a template literal prints them. *)
Example toString_samples :
  map (fun z => toString (nearest z))
      [0; 12; -3; 2 ^ 53 + 1; 2 ^ 60; 10 ^ 21; 10 ^ 23; 2 ^ 70; - 2 ^ 70]
  = ["0"; "12"; "-3"; "9007199254740992"; "1152921504606847000";
     "1e+21"; "1e+23"; "1.1805916207174113e+21";
     "-1.1805916207174113e+21"]%string.
Proof. vm_compute. reflexivity. Qed.

Example showNumber_samples :
  map Player.showNumber [Count 803; Null; Undefined; Count (10 ^ 21)]
  = ["803"; "null"; "undefined"; "1e+21"]%string.
Proof. vm_compute. reflexivity. Qed.

End IntegralFacts.

(** *** Sorting *)

Section SortFacts.

Import JS.

Context {A : Type}.
Variable cmp : A -> A -> integral.

Lemma insert_perm (x : A) (l : list A) :
  Permutation (insert cmp x l) (x :: l).
Proof.
  induction l as [|y r IH]; simpl; [reflexivity|].
  destruct (cmp_gt (cmp x y)); [|reflexivity].
  rewrite IH. apply perm_swap.
Qed.

Lemma sort_perm (l : list A) : Permutation (sort cmp l) l.
Proof.
  induction l as [|x l IH]; simpl; [reflexivity|].
  rewrite insert_perm. now constructor.
Qed.

Lemma sort_In (l : list A) (x : A) : In x (sort cmp l) <-> In x l.
Proof.
  split; apply Permutation_in;
    [apply sort_perm | symmetry; apply sort_perm].
Qed.

Lemma sort_Forall (P : A -> Prop) (l : list A) :
  Forall P l -> Forall P (sort cmp l).
Proof.
  intros H. eapply Permutation_Forall; [symmetry; apply sort_perm | exact H].
Qed.

Lemma sort_length (l : list A) : List.length (sort cmp l) = List.length l.
Proof. apply Permutation_length, sort_perm. Qed.

(** An element that no other element goes before stays in front: the sort
    is stable. *)
Lemma insert_front (x : A) (l : list A) :
  Forall (fun y => cmp_gt (cmp x y) = false) l ->
  insert cmp x l = x :: l.
Proof.
  destruct l as [|y r]; [reflexivity|].
  intros H. inversion H as [|? ? Hy _]; subst. simpl. now rewrite Hy.
Qed.

Lemma sort_front (x : A) (l : list A) :
  Forall (fun y => cmp_gt (cmp x y) = false) l ->
  sort cmp (x :: l) = x :: sort cmp l.
Proof.
  intros H. simpl. apply insert_front. now apply sort_Forall.
Qed.

(** With a comparator that is positive exactly when the key of its first
    argument is the larger one, the result is in key order. *)
Variable key : A -> Z.

Lemma insert_sorted (x : A) (l : list A) :
  (forall y, In y l -> cmp_gt (cmp x y) = (key y <? key x)%Z) ->
  StronglySorted (fun a b => (key a <= key b)%Z) l ->
  StronglySorted (fun a b => (key a <= key b)%Z) (insert cmp x l).
Proof.
  induction l as [|y r IH]; intros Hc Hs; simpl.
  - constructor; constructor.
  - inversion Hs as [|? ? Hr Hy]; subst.
    rewrite (Hc y (or_introl eq_refl)).
    destruct (key y <? key x)%Z eqn:E.
    + apply Z.ltb_lt in E. constructor.
      * apply IH; [|assumption]. intros z Hz. apply Hc. now right.
      * eapply Permutation_Forall; [symmetry; apply insert_perm|].
        constructor; [lia | assumption].
    + apply Z.ltb_ge in E. constructor; [assumption|].
      constructor; [lia|].
      eapply Forall_impl; [|exact Hy]. simpl. intros z Hz. lia.
Qed.

Lemma sort_sorted (l : list A) :
  (forall x y, In x l -> In y l ->
     cmp_gt (cmp x y) = (key y <? key x)%Z) ->
  StronglySorted (fun a b => (key a <= key b)%Z) (sort cmp l).
Proof.
  induction l as [|x l IH]; intros Hc; simpl; [constructor|].
  apply insert_sorted.
  - intros y Hy. apply Hc; [now left | right; now apply sort_In].
  - apply IH. intros a b Ha Hb. apply Hc; now right.
Qed.

End SortFacts.
(** *** Resolution keys *)

Section KeyFacts.

Import JS Sources Spec.

Lemma digit_cases (c : ascii) :
  isDigit c = true ->
  In c ["0"; "1"; "2"; "3"; "4"; "5"; "6"; "7"; "8"; "9"]%char.
Proof.
  destruct c as [[] [] [] [] [] [] [] []]; vm_compute; intros H;
    try discriminate; intuition.
Qed.

Lemma read_digits_resolution (n rest : string) :
  allDigits n = true -> noDigitFirst rest ->
  exists ds, read_digits dec_digit (n ++ rest) = (ds, rest) /\
             List.length ds = String.length n /\
             read_digits dec_digit n = (ds, "").
Proof.
  intros Hn Hr. induction n as [|c t IH]; simpl.
  - exists []. repeat split.
    destruct rest as [|c r]; [reflexivity|].
    simpl in *. unfold isDigit, isSome in Hr.
    destruct (dec_digit c); [discriminate | reflexivity].
  - simpl in Hn. apply andb_true_iff in Hn as [Hc Ht].
    destruct (IH Ht) as (ds & E1 & L & E2).
    unfold isDigit, isSome in Hc.
    destruct (dec_digit c) as [d|]; [|discriminate].
    exists (d :: ds). rewrite E1, E2. simpl. now rewrite L.
Qed.

Lemma lower_digit (c : ascii) : isDigit c = true -> lower_char c = c.
Proof.
  intros H. apply digit_cases in H. simpl in H.
  repeat (destruct H as [<-|H]; [reflexivity|]). contradiction.
Qed.

Lemma toLowerCase_append (a b : string) :
  toLowerCase (a ++ b) = toLowerCase a ++ toLowerCase b.
Proof. induction a as [|c a IH]; simpl; [reflexivity | now rewrite IH]. Qed.

Lemma toLowerCase_digits (n : string) :
  allDigits n = true -> toLowerCase n = n.
Proof.
  induction n as [|c t IH]; simpl; [reflexivity|].
  intros H. apply andb_true_iff in H as [Hc Ht].
  now rewrite (lower_digit _ Hc), (IH Ht).
Qed.

Lemma toLowerCase_label (n : string) :
  allDigits n = true -> toLowerCase (n ++ "p") = n ++ "p".
Proof.
  intros H. now rewrite toLowerCase_append, (toLowerCase_digits _ H).
Qed.

Lemma replace_unfold (s pat rep : string) :
  replace s pat rep =
    if String.prefix pat s then rep ++ drop (String.length pat) s
    else match s with
         | EmptyString => EmptyString
         | String c t => String c (replace t pat rep)
         end.
Proof. destruct s; reflexivity. Qed.

Lemma drop_length (s : string) : drop (String.length s) s = "".
Proof. induction s as [|c s IH]; [reflexivity | exact IH]. Qed.

Lemma prefix_refl (s : string) : String.prefix s s = true.
Proof. apply prefix_append. exists "". now rewrite append_nil_r. Qed.

(** [replace] removes a suffix that the digits before it cannot start. *)
Lemma replace_after_digits (n suffix : string) (c0 : ascii) (s0 : string) :
  suffix = String c0 s0 -> isDigit c0 = false ->
  allDigits n = true ->
  replace (n ++ suffix) suffix "" = n.
Proof.
  intros -> Hc0 Hn. induction n as [|c t IH].
  - rewrite replace_unfold. simpl append at 1 2.
    now rewrite prefix_refl, drop_length.
  - simpl in Hn. apply andb_true_iff in Hn as [Hc Ht].
    rewrite replace_unfold.
    assert (N : c0 <> c) by (intros ->; congruence).
    assert (P : String.prefix (String c0 s0) (String c t ++ String c0 s0)
                = false).
    { simpl. destruct (Ascii.ascii_dec c0 c); [contradiction | reflexivity]. }
    rewrite P. simpl. now rewrite (IH Ht).
Qed.

Lemma replace_label (n : string) :
  allDigits n = true -> replace (n ++ "p") "p" "" = n.
Proof. now apply (replace_after_digits n "p" "p" ""). Qed.

Lemma replace_playlist (n : string) :
  allDigits n = true -> replace (n ++ "_playlist") "_playlist" "" = n.
Proof. now apply (replace_after_digits n "_playlist" "_" "playlist"). Qed.

Lemma resolution_inv (n : string) :
  resolution n = true ->
  exists c t, n = String c t /\ isDigit c = true /\ allDigits t = true.
Proof.
  unfold resolution. destruct n as [|c t]; [discriminate|]. simpl.
  intros H. apply andb_true_iff in H. now exists c, t.
Qed.

Lemma resolution_allDigits (n : string) :
  resolution n = true -> allDigits n = true.
Proof. unfold resolution. intros H. now apply andb_true_iff in H. Qed.

(** A discrete label is never ["auto"]. *)
Lemma label_not_auto (n : string) :
  resolution n = true -> isAuto (n ++ "p") = false.
Proof.
  intros H. destruct (resolution_inv _ H) as (c & t & -> & Hc & _).
  apply digit_cases in Hc. simpl in Hc. unfold isAuto.
  repeat (destruct Hc as [<-|Hc]; [reflexivity|]). contradiction.
Qed.

Lemma dec_digit_nonneg (c : ascii) (d : Z) :
  dec_digit c = Some d -> (0 <= d)%Z.
Proof.
  unfold dec_digit. destruct (_ && _); [|discriminate].
  intros [= <-]. lia.
Qed.

Lemma read_digits_nonneg (s : string) :
  Forall (fun d => (0 <= d)%Z) (fst (read_digits dec_digit s)).
Proof.
  induction s as [|c t IH]; simpl; [constructor|].
  destruct (dec_digit c) as [d|] eqn:E; [|constructor].
  destruct (read_digits dec_digit t) as [ds r]. simpl in *.
  constructor; [now apply (dec_digit_nonneg c) | assumption].
Qed.

Lemma digits_value_nonneg (ds : list Z) :
  Forall (fun d => (0 <= d)%Z) ds -> (0 <= digits_value 10 ds)%Z.
Proof.
  unfold digits_value.
  assert (G : forall acc, (0 <= acc)%Z ->
              Forall (fun d => (0 <= d)%Z) ds ->
              (0 <= fold_left (fun a d => a * 10 + d) ds acc)%Z).
  { induction ds as [|d ds IH]; intros acc Ha H; simpl; [assumption|].
    inversion H; subst. apply IH; [lia | assumption]. }
  apply G. lia.
Qed.

(** [parseInt] reads the digits of a key, with or without the [p]. *)
Lemma parseInt_resolution_digits (n : string) :
  resolution n = true ->
  exists ds, read_digits dec_digit n = (ds, "") /\
             parseInt n = Some (digits_value 10 ds) /\
             parseInt (n ++ "p") = Some (digits_value 10 ds).
Proof.
  intros H. pose proof (resolution_allDigits _ H) as Hd.
  destruct (read_digits_resolution n "p" Hd) as (ds & E1 & L & E2).
  { reflexivity. }
  destruct (resolution_inv _ H) as (c & t & -> & Hc & Ht).
  assert (Hds : ds <> []).
  { intros ->. simpl in L. discriminate. }
  assert (G : forall rest, 
             read_digits dec_digit (String c (t ++ rest)) = (ds, rest) ->
             rest = "" \/ rest = "p" ->
             parseInt (String c (t ++ rest))
             = Some (digits_value 10 ds)).
  { intros rest E Hrest. unfold parseInt.
    assert (W : trimStart (String c (t ++ rest)) = String c (t ++ rest)).
    { apply digit_cases in Hc. simpl in Hc.
      repeat (destruct Hc as [<-|Hc]; [reflexivity|]). contradiction. }
    rewrite W.
    assert (S : read_sign (String c (t ++ rest))
                = (false, String c (t ++ rest))).
    { apply digit_cases in Hc. simpl in Hc.
      repeat (destruct Hc as [<-|Hc]; [reflexivity|]). contradiction. }
    rewrite S.
    assert (X : forall x u, t ++ rest = String x u ->
                Ascii.eqb x "x" || Ascii.eqb x "X" = false).
    { intros x u Hx. destruct t as [|c' t'].
      - simpl in Hx. subst rest.
        destruct Hrest as [Hrest|Hrest]; [discriminate|].
        injection Hrest as -> _. reflexivity.
      - simpl in Hx. injection Hx as <- _. simpl in Ht.
        apply andb_true_iff in Ht as [Hc' _].
        destruct (Ascii.eqb_spec c' "x") as [->|_]; [discriminate|].
        destruct (Ascii.eqb_spec c' "X") as [->|_]; [discriminate|].
        reflexivity. }
    assert (D : match read_digits dec_digit (String c (t ++ rest)) with
                | ([], _) => None
                | (_ :: _, _) => Some (signed false (digits_value 10 ds))
                end = Some (digits_value 10 ds)).
    { rewrite E. destruct ds; [contradiction | reflexivity]. }
    apply digit_cases in Hc. simpl in Hc.
    destruct Hc as [<-|Hc].
    - destruct (t ++ rest) as [|x u] eqn:Etr.
      + rewrite E in *. destruct ds; [contradiction | reflexivity].
      + rewrite (X x u eq_refl). rewrite E.
        destruct ds; [contradiction | reflexivity].
    - repeat (destruct Hc as [<-|Hc];
              [rewrite E; destruct ds; [contradiction | reflexivity]|]).
      contradiction. }
  exists ds. split; [exact E2 | split].
  - specialize (G ""). rewrite append_nil_r in G. apply G.
    + exact E2.
    + now left.
  - apply (G "p"); [exact E1 | now right].
Qed.

Lemma parseInt_resolution (n : string) :
  resolution n = true ->
  exists v, (0 <= v)%Z /\ parseInt n = Some v /\
            parseInt (n ++ "p") = Some v.
Proof.
  intros H. destruct (parseInt_resolution_digits n H) as (ds & R & E1 & E2).
  exists (digits_value 10 ds). split; [|now split].
  apply digits_value_nonneg.
  pose proof (read_digits_nonneg n) as F. now rewrite R in F.
Qed.

End KeyFacts.
(** *** Times written in digits *)

Section TimeFacts.

Import JS Sources Chapters Spec.















End TimeFacts.
(** *** The resolver on manifests and renditions *)

Lemma StronglySorted_weaken {A : Type} (R R' : A -> A -> Prop) (l : list A) :
  (forall a b, R a b -> R' a b) -> StronglySorted R l -> StronglySorted R' l.
Proof.
  intros H S. induction S as [|a l S IH F]; constructor; [assumption|].
  eapply Forall_impl; [|exact F]. apply H.
Qed.

Section LadderFacts.

Import JS Sources Spec.

Variable mediaData : media_data.

Lemma availableKeys_usable (encodings : obj Raw.encoding) (k : string) :
  In k (availableKeys encodings) ->
  exists u, h264_url encodings k = Some u.
Proof.
  unfold availableKeys. rewrite filter_In. intros [_ H].
  destruct (h264_url encodings k) as [u|]; [now exists u | discriminate].
Qed.

Lemma ladderKeys_perm (encodings : obj Raw.encoding) :
  Permutation (ladderKeys encodings) (availableKeys encodings).
Proof. apply sort_perm. Qed.

(** The ladder is in descending order of resolution number. *)
Lemma ladderKeys_descending (encodings : obj Raw.encoding) :
  Forall (fun k => resolution k = true) (availableKeys encodings) ->
  Forall exactResolution (availableKeys encodings) ->
  StronglySorted (fun a b => (resolutionOf b <= resolutionOf a)%Z)
                 (ladderKeys encodings).
Proof.
  intros H B. unfold ladderKeys. fold (availableKeys encodings).
  assert (S := sort_sorted descending (fun k => (- resolutionOf k)%Z)
                 (availableKeys encodings)).
  eapply StronglySorted_weaken; [|apply S].
  - intros a b Hab. simpl in Hab. lia.
  - intros x y Hx Hy. rewrite Forall_forall in H, B.
    pose proof (B x Hx) as Bx. pose proof (B y Hy) as By.
    unfold exactResolution in Bx, By.
    destruct (parseInt_resolution _ (H x Hx)) as (vx & Px & Ex & _).
    destruct (parseInt_resolution _ (H y Hy)) as (vy & Py & Ey & _).
    unfold descending, resolutionOf in *. rewrite Ex, Ey in *.
    rewrite sub_int_sign by lia.
    destruct (Z.ltb_spec vx vy), (Z.ltb_spec (- vy) (- vx));
      try reflexivity; lia.
Qed.

Lemma ladder_sources (encodings : obj Raw.encoding) (ks : list string) :
  (forall k, In k ks -> exists u, h264_url encodings k = Some u) ->
  Forall2 (fun k s => exists u, h264_url encodings k = Some u /\
                                s = encodedSource mediaData u k)
          ks (flat_map (ladderSource mediaData encodings) ks).
Proof.
  induction ks as [|k ks IH]; intros H; simpl; [constructor|].
  destruct (H k (or_introl eq_refl)) as [u Hu].
  unfold ladderSource at 1. rewrite Hu. simpl. constructor.
  - now exists u.
  - apply IH. intros k' Hk'. apply H. now right.
Qed.

Lemma ladderKeys_usable (encodings : obj Raw.encoding) (k : string) :
  In k (ladderKeys encodings) -> exists u, h264_url encodings k = Some u.
Proof.
  intros H. apply availableKeys_usable.
  eapply Permutation_in; [apply ladderKeys_perm | exact H].
Qed.

Lemma encodedLadder_some (encodings : obj Raw.encoding) :
  availableKeys encodings <> [] ->
  encodedLadder mediaData encodings
  = Some (flat_map (ladderSource mediaData encodings) (ladderKeys encodings)).
Proof.
  intros H. unfold encodedLadder.
  pose proof (ladder_sources encodings (ladderKeys encodings)
                (ladderKeys_usable encodings)) as F.
  destruct (flat_map _ _) as [|s l]; [|reflexivity].
  assert (E : ladderKeys encodings = []) by (inversion F; reflexivity).
  exfalso. apply H. apply Permutation_nil.
  rewrite <- E. apply ladderKeys_perm.
Qed.

Lemma append_neq (s : string) : s ++ "p" <> s.
Proof.
  induction s as [|c s IH]; simpl; [discriminate|].
  intros [= H]. now apply IH.
Qed.

(** C5: with no adaptive manifest and with encoded renditions whose keys are
    resolution numbers below 2^53 (the integers a Number holds exactly),
    a discrete preference [n ++ "p"] whose rendition [n] has a URL gets
    exactly that rendition, labelled with the preference; ["auto"], or a
    discrete preference without such a rendition, gets every rendition
    that has a URL, each once, in descending order of resolution
    number. *)
Theorem encoded_renditions_choice_or_ladder
  (encodings : obj Raw.encoding) (userQuality : string) :
  noManifest mediaData ->
  data_field encodings_info mediaData = Some encodings ->
  availableKeys encodings <> [] ->
  Forall (fun k => resolution k = true) (availableKeys encodings) ->
  Forall exactResolution (availableKeys encodings) ->
  (forall n u,
     resolution n = true -> userQuality = n ++ "p" ->
     h264_url encodings n = Some u ->
     getVideoSources mediaData userQuality
     = [ {| Source.src := u;
            Source.type :=
              getMimeType (Some u) (data_field media_type mediaData);
            Source.label := Some userQuality |} ]) /\
  (userQuality = "auto" \/
   (exists n, resolution n = true /\ userQuality = n ++ "p" /\
              h264_url encodings n = None) ->
   Forall2 (fun k s => exists u,
              h264_url encodings k = Some u /\
              s = {| Source.src := u;
                     Source.type :=
                       getMimeType (Some u)
                                   (data_field media_type mediaData);
                     Source.label := Some (k ++ "p") |})
           (ladderKeys encodings)
           (getVideoSources mediaData userQuality) /\
   Permutation (ladderKeys encodings) (availableKeys encodings) /\
   StronglySorted (fun a b => (resolutionOf b <= resolutionOf a)%Z)
                  (ladderKeys encodings)).
Proof.
  intros Hm He Ha Hr Hb. split.
  - intros n u Hn -> Hu. unfold getVideoSources.
    rewrite (fromHls_noManifest _ _ Hm). unfold fromEncodings.
    rewrite He. unfold encodedChoice.
    rewrite (label_not_auto _ Hn), (replace_label _ (resolution_allDigits _ Hn)).
    simpl. rewrite Hu. reflexivity.
  - intros Hq.
    assert (C : encodedChoice mediaData userQuality encodings = None).
    { unfold encodedChoice. destruct Hq as [->|(n & Hn & -> & Hu)].
      - reflexivity.
      - rewrite (label_not_auto _ Hn),
          (replace_label _ (resolution_allDigits _ Hn)).
        simpl. now rewrite Hu. }
    unfold getVideoSources.
    rewrite (fromHls_noManifest _ _ Hm). unfold fromEncodings.
    rewrite He, C, (encodedLadder_some _ Ha). simpl.
    split; [|split].
    + apply ladder_sources, ladderKeys_usable.
    + apply ladderKeys_perm.
    + now apply ladderKeys_descending.
Qed.

(** C1: when the preference is not ["auto"] and the manifest table holds a
    playlist for it, the resolver answers with that playlist alone, and
    labels it with the preference followed by one more [p], which is never
    the preference itself. *)
Theorem hls_variant_label_doubles_p
  (hls : obj string) (userQuality file : string) :
  data_field hls_info mediaData = Some hls ->
  isAuto userQuality = false ->
  get hls (replace userQuality "p" "" ++ "_playlist") = Some file ->
  truthy_str file = true ->
  getVideoSources mediaData userQuality
  = [ {| Source.src := siteUrl mediaData ++ file;
         Source.type := "application/x-mpegURL";
         Source.label := Some (userQuality ++ "p") |} ] /\
  userQuality ++ "p" <> userQuality.
Proof.
  intros Hh Ha Hg Hf. split; [|apply append_neq].
  unfold getVideoSources, fromHls. rewrite Hh.
  unfold hlsAuto, hlsVariant. rewrite Ha, Hg, Hf. simpl.
  destruct (get hls "master_file"); reflexivity.
Qed.

End LadderFacts.

Section ListFacts.

Import JS.

Lemma length_append (a b : string) :
  String.length (a ++ b) = String.length a + String.length b.
Proof. induction a as [|c a IH]; simpl; [reflexivity | now rewrite IH]. Qed.

Lemma append_inj_l (a b s : string) : a ++ s = b ++ s -> a = b.
Proof.
  intros H.
  assert (L : String.length a = String.length b).
  { apply (f_equal String.length) in H. rewrite !length_append in H. lia. }
  revert b H L. induction a as [|c a IH]; intros [|d b] H L;
    try discriminate; [reflexivity|].
  simpl in H. injection H as -> H. f_equal. apply IH; [exact H|].
  simpl in L. lia.
Qed.

Lemma lower_char_idem (c : ascii) : lower_char (lower_char c) = lower_char c.
Proof. destruct c as [[] [] [] [] [] [] [] []]; reflexivity. Qed.

Lemma toLowerCase_idem (s : string) :
  toLowerCase (toLowerCase s) = toLowerCase s.
Proof.
  induction s as [|c s IH]; simpl; [reflexivity|].
  now rewrite lower_char_idem, IH.
Qed.

(** Dropping entries keeps their projections distinct. *)
Lemma filter_keeps_distinct {X Y : Type} (proj : X -> Y) (keep : X -> bool)
  (xs : list X) (D : NoDup (map proj xs)) :
  NoDup (map proj (filter keep xs)).
Proof.
  induction xs as [|x xs IH]; simpl in *; [constructor|].
  apply NoDup_cons_iff in D as [Hx Hl].
  destruct (keep x); simpl; [|now apply IH].
  apply NoDup_cons_iff. split; [|now apply IH].
  intros Hin. apply Hx. apply in_map_iff in Hin as (y & E & Hy).
  apply in_map_iff. exists y. split; [assumption|].
  apply filter_In in Hy. tauto.
Qed.

Lemma indexOf_found (a : list string) (x : string) :
  In x a ->
  (0 <= indexOf a x < Z.of_nat (List.length a))%Z /\
  nth (Z.to_nat (indexOf a x)) a "" = x.
Proof.
  induction a as [|y r IH]; intros H; [contradiction|]. simpl indexOf.
  destruct (String.eqb_spec y x) as [->|N].
  - simpl. split; [lia | reflexivity].
  - destruct H as [H|H]; [contradiction|].
    destruct (IH H) as [B E].
    destruct (indexOf r x <? 0)%Z eqn:L; [apply Z.ltb_lt in L; lia|].
    split; [simpl List.length; lia|].
    replace (Z.to_nat (indexOf r x + 1)) with (S (Z.to_nat (indexOf r x)))
      by lia.
    exact E.
Qed.

Lemma indexOf_missing (a : list string) (x : string) :
  ~ In x a -> indexOf a x = (-1)%Z.
Proof.
  induction a as [|y r IH]; intros H; [reflexivity|]. simpl.
  destruct (String.eqb_spec y x) as [->|N].
  - exfalso. apply H. now left.
  - rewrite IH; [reflexivity|]. intros Hr. apply H. now right.
Qed.

Lemma StronglySorted_nth {A : Type} (R : A -> A -> Prop) (l : list A)
  (d : A) (i j : nat) :
  StronglySorted R l -> (i < j)%nat -> (j < List.length l)%nat ->
  R (nth i l d) (nth j l d).
Proof.
  intros S. revert i j. induction S as [|a l S IH F]; intros i j Hij Hj.
  - simpl in Hj. lia.
  - destruct j as [|j]; [lia|]. simpl in Hj.
    destruct i as [|i].
    + simpl. rewrite Forall_forall in F. apply F. apply nth_In. lia.
    + simpl. apply IH; lia.
Qed.

Lemma StronglySorted_refine {A : Type} (R R' : A -> A -> Prop)
  (P : A -> Prop) (l : list A) :
  (forall a b, P a -> P b -> R a b -> R' a b) ->
  Forall P l -> StronglySorted R l -> StronglySorted R' l.
Proof.
  intros H F S. induction S as [|a l S IH Fa]; constructor.
  - apply IH. now inversion F.
  - inversion F as [|? ? Pa Pl]; subst.
    rewrite Forall_forall in *. intros b Hb. apply H; auto.
Qed.

End ListFacts.

(** *** The quality menu *)

Section MenuFacts.

Import JS Sources Menu Spec.

Variable mediaData : media_data.

Lemma normalize_resolvable (arr : list Raw.quality) :
  onlyResolvable (normalize mediaData arr).
Proof.
  unfold onlyResolvable, normalize. apply sort_Forall.
  apply Forall_forall. intros e He. apply filter_In in He. tauto.
Qed.

Lemma normalize_ranked (arr : list Raw.quality) :
  StronglySorted
    (fun a b => (idx mediaData (Quality.value a)
                 <= idx mediaData (Quality.value b))%Z)
    (normalize mediaData arr).
Proof.
  unfold normalize.
  apply (sort_sorted (byDesiredOrder mediaData)
           (fun e => idx mediaData (Quality.value e))).
  intros x y _ _. unfold byDesiredOrder. apply minus_sign.
Qed.

(** Every menu comes out of [normalize]. *)
Lemma menu_normalized (quality : string) :
  exists arr, availableQualities mediaData quality = normalize mediaData arr.
Proof.
  unfold availableQualities.
  destruct (jsonQualities mediaData) as [l|] eqn:J; simpl.
  { unfold jsonQualities in J.
    destruct (data_field qualities mediaData) as [[|q r]|];
      try discriminate. injection J as <-. now eexists. }
  destruct (hlsQualities mediaData) as [l|] eqn:H; simpl.
  { unfold hlsQualities in H.
    destruct (data_field hls_info mediaData) as [hls|]; [|discriminate].
    destruct (get hls "master_file") as [f|]; [|discriminate].
    destruct (truthy_str f); [|discriminate].
    injection H as <-. now eexists. }
  destruct (encodingQualities mediaData) as [l|] eqn:E; simpl.
  { unfold encodingQualities in E.
    destruct (data_field encodings_info mediaData) as [enc|]; [|discriminate].
    destruct (1 <? _)%nat; [|discriminate].
    injection E as <-. now eexists. }
  unfold baseQualities.
  destruct (getVideoSources mediaData quality) as [|s r].
  - now exists [].
  - destruct (truthy_str (Source.src s)); [now eexists | now exists []].
Qed.

Lemma indexOf_lower_bound (a : list string) (x : string) :
  (-1 <= indexOf a x)%Z.
Proof.
  induction a as [|y r IH]; simpl; [lia|].
  destruct (String.eqb y x); [lia|].
  destruct (indexOf r x <? 0)%Z eqn:E; [lia|]. apply Z.ltb_ge in E. lia.
Qed.

Lemma idx_nonneg (v : string) : (0 <= idx mediaData v)%Z.
Proof.
  unfold idx.
  pose proof (indexOf_lower_bound (desiredOrder mediaData) (toLowerCase v)).
  destruct (indexOf _ _ =? -1)%Z eqn:E; [lia|].
  apply Z.eqb_neq in E. lia.
Qed.

Lemma desiredOrder_head :
  exists ladder, desiredOrder mediaData = "auto" :: ladder.
Proof.
  unfold desiredOrder, generateDesiredOrder.
  destruct (data_field encodings_info mediaData); now eexists.
Qed.

Lemma idx_auto : idx mediaData "auto" = 0%Z.
Proof.
  unfold idx. destruct desiredOrder_head as [ladder ->]. reflexivity.
Qed.

Lemma jsonQualities_none :
  noJsonList mediaData -> jsonQualities mediaData = None.
Proof. unfold jsonQualities. now intros [-> | ->]. Qed.

Lemma norm_auto (src type : string) :
  truthy_str src = true -> truthy_str type = true ->
  norm mediaData (autoEntry (Some src) type) = autoQuality src type.
Proof.
  intros Hs Ht. unfold norm, autoEntry, autoQuality, or_str, or_opt; simpl.
  rewrite Hs; simpl. rewrite Hs, Ht; simpl. reflexivity.
Qed.

Lemma normalize_auto_first (src type : string) (rest : list Raw.quality) :
  truthy_str src = true -> truthy_str type = true ->
  exists menu,
    normalize mediaData (autoEntry (Some src) type :: rest)
    = autoQuality src type :: menu.
Proof.
  intros Hs Ht. unfold normalize. simpl map.
  rewrite (norm_auto _ _ Hs Ht). simpl filter. rewrite Hs.
  rewrite sort_front; [now eexists|].
  apply Forall_forall. intros y _. unfold byDesiredOrder.
  rewrite minus_sign. simpl Quality.value.
  rewrite idx_auto. pose proof (idx_nonneg (Quality.value y)).
  apply Z.ltb_ge. lia.
Qed.

(** With a master file the menu opens with the Auto entry of the
    manifest. *)
Lemma hls_menu_auto_first (quality : string) (hls : obj string) (f : string) :
  noJsonList mediaData ->
  data_field hls_info mediaData = Some hls ->
  get hls "master_file" = Some f -> truthy_str f = true ->
  exists menu,
    availableQualities mediaData quality
    = autoQuality (siteUrl mediaData ++ f) hlsMimeType :: menu.
Proof.
  intros Hj Hh Hg Hf. unfold availableQualities.
  rewrite (jsonQualities_none Hj). simpl.
  unfold hlsQualities. rewrite Hh, Hg, Hf. simpl.
  apply normalize_auto_first; [now apply truthy_append | reflexivity].
Qed.

End MenuFacts.
Section MenuOrder.

Import JS Sources Menu Spec.

Variable mediaData : media_data.

Lemma standardOrder_ascending :
  StronglySorted (fun x y => (resolutionOf x <= resolutionOf y)%Z)
                 ("auto" :: standardOrder).
Proof.
  unfold standardOrder.
  repeat (constructor; [|repeat (constructor; [vm_compute; discriminate|]);
                         constructor]).
  constructor.
Qed.

Lemma label_resolutionOf (k : string) :
  resolution k = true ->
  parseInt (k ++ "p") = Some (resolutionOf (k ++ "p")) /\
  (0 <= resolutionOf (k ++ "p"))%Z /\
  resolutionOf (k ++ "p") = resolutionOf k.
Proof.
  intros H. destruct (parseInt_resolution k H) as (v & Hv & E0 & E).
  unfold resolutionOf. rewrite E, E0. now repeat split.
Qed.

(** The desired order is ascending in resolution number. *)
Lemma desiredOrder_ascending :
  resolutionRenditions mediaData -> exactRenditions mediaData ->
  StronglySorted (fun x y => (resolutionOf x <= resolutionOf y)%Z)
                 (desiredOrder mediaData).
Proof.
  intros H B. unfold desiredOrder, generateDesiredOrder.
  unfold resolutionRenditions in H. unfold exactRenditions in B.
  destruct (data_field encodings_info mediaData) as [enc|];
    [|apply standardOrder_ascending].
  specialize (H enc eq_refl). specialize (B enc eq_refl).
  fold (availableKeys enc).
  assert (L : forall x, In x (map (fun quality => quality ++ "p")
                                  (availableKeys enc)) ->
              parseInt x = Some (resolutionOf x) /\
              (0 <= resolutionOf x < 2 ^ 53)%Z).
  { intros x Hx. apply in_map_iff in Hx as (k & <- & Hk).
    rewrite Forall_forall in H, B.
    destruct (label_resolutionOf k (H k Hk)) as (P & N & E).
    split; [exact P|]. split; [exact N|].
    rewrite E. apply (B k Hk). }
  constructor.
  - apply (sort_sorted ascending resolutionOf).
    intros x y Hx Hy. unfold ascending.
    destruct (L x Hx) as [-> Bx], (L y Hy) as [-> By].
    apply sub_int_sign; lia.
  - apply sort_Forall. apply Forall_forall. intros x Hx.
    destruct (L x Hx) as [_ [P _]]. exact P.
Qed.

Lemma idx_known (e : Quality.t) :
  toLowerCase (Quality.value e) = Quality.value e ->
  known mediaData e ->
  (0 <= idx mediaData (Quality.value e)
   < Z.of_nat (List.length (desiredOrder mediaData)))%Z /\
  nth (Z.to_nat (idx mediaData (Quality.value e))) (desiredOrder mediaData) ""
  = Quality.value e.
Proof.
  intros L K. unfold idx. rewrite L.
  destruct (indexOf_found _ _ K) as [B E].
  destruct (indexOf _ _ =? -1)%Z eqn:N; [apply Z.eqb_eq in N; lia|].
  now split.
Qed.

Lemma idx_unknown (e : Quality.t) :
  toLowerCase (Quality.value e) = Quality.value e ->
  ~ known mediaData e -> idx mediaData (Quality.value e) = 999%Z.
Proof.
  intros L K. unfold idx. rewrite L.
  now rewrite (indexOf_missing _ _ K).
Qed.

Lemma normalize_lowercase (arr : list Raw.quality) :
  Forall (fun e => toLowerCase (Quality.value e) = Quality.value e)
         (normalize mediaData arr).
Proof.
  unfold normalize. apply sort_Forall. apply Forall_forall.
  intros e He. apply filter_In in He as [He _].
  apply in_map_iff in He as (q & <- & _). simpl.
  apply toLowerCase_idem.
Qed.

(** Ranks in an ascending desired order of at most 999 values put the
    menu in [rankOrder]. *)
Lemma normalize_rankOrder (arr : list Raw.quality) :
  resolutionRenditions mediaData -> exactRenditions mediaData ->
  (List.length (desiredOrder mediaData) <= 999)%nat ->
  StronglySorted (rankOrder mediaData) (normalize mediaData arr).
Proof.
  intros Hr Hb Hl.
  eapply StronglySorted_refine;
    [|apply normalize_lowercase | apply normalize_ranked].
  intros a b La Lb Hab. cbv beta in La, Lb, Hab. split.
  - intros Ka Kb.
    destruct (idx_known a La Ka) as [Ba Ea], (idx_known b Lb Kb) as [Bb Eb].
    rewrite <- Ea, <- Eb.
    destruct (Z.eq_dec (idx mediaData (Quality.value a))
                       (idx mediaData (Quality.value b))) as [E|N].
    + rewrite E. lia.
    + apply (StronglySorted_nth
               (fun x y => (resolutionOf x <= resolutionOf y)%Z));
        [now apply desiredOrder_ascending | lia | lia].
  - intros Ka Kb. rewrite (idx_unknown a La Ka) in Hab.
    destruct (idx_known b Lb Kb) as [Bb _]. lia.
Qed.

End MenuOrder.
Section MenuValues.

Import JS Sources Menu Spec.

Variable mediaData : media_data.

Local Abbreviation V := (normValue mediaData).

Lemma value_qualityEntry (quality src type : string) :
  V (qualityEntry quality src type) = toLowerCase (quality ++ "p").
Proof.
  unfold normValue, norm, qualityEntry, or_str, or_opt; simpl.
  assert (T : truthy_str (quality ++ "p") = true)
    by now apply truthy_append.
  rewrite T; simpl. rewrite T. reflexivity.
Qed.

Lemma value_autoEntry (src : option string) (type : string) :
  V (autoEntry src type) = "auto".
Proof. reflexivity. Qed.

Lemma normalize_distinct (arr : list Raw.quality) :
  NoDup (map V arr) -> distinctValues (normalize mediaData arr).
Proof.
  intros H. unfold distinctValues, normalize.
  eapply Permutation_NoDup.
  - apply Permutation_map. symmetry. apply sort_perm.
  - apply filter_keeps_distinct. now rewrite map_map.
Qed.

Lemma flat_values_distinct (entry : string -> list Raw.quality)
  (lab : string -> string) (ks : list string) :
  NoDup ks ->
  (forall k, In k ks ->
     map V (entry k) = [] \/ map V (entry k) = [lab k]) ->
  (forall k k', In k ks -> In k' ks ->
     map V (entry k) = [lab k] -> map V (entry k') = [lab k'] ->
     lab k = lab k' -> k = k') ->
  NoDup (map V (flat_map entry ks)) /\
  (forall v, In v (map V (flat_map entry ks)) ->
     exists k, In k ks /\ map V (entry k) = [lab k] /\ v = lab k).
Proof.
  induction ks as [|k ks IH]; intros N H2 H3; simpl.
  - split; [constructor | contradiction].
  - inversion N as [|? ? Nk Nks]; subst.
    destruct IH as [D I]; [assumption | | |].
    { intros k' Hk'. apply H2. now right. }
    { intros a b Ha Hb. apply H3; now right. }
    rewrite map_app.
    destruct (H2 k (or_introl eq_refl)) as [E|E]; rewrite E; simpl.
    + split; [assumption|]. intros v Hv.
      destruct (I v Hv) as (k' & Hk' & Ek' & ->).
      exists k'. split; [now right | now split].
    + split.
      * constructor; [|assumption]. intros Hin.
        destruct (I _ Hin) as (k' & Hk' & Ek' & El).
        apply Nk. rewrite (H3 k k'); auto; [now left | now right].
      * intros v [<-|Hv].
        -- exists k. split; [now left | now split].
        -- destruct (I v Hv) as (k' & Hk' & Ek' & ->).
           exists k'. split; [now right | now split].
Qed.

Lemma digits_label_not_auto (n : string) :
  allDigits n = true -> n ++ "p" <> "auto".
Proof.
  destruct n as [|c t]; simpl; [discriminate|].
  intros H E. injection E as -> _. discriminate.
Qed.

(** The values of the manifest menu are pairwise distinct. *)
Lemma hls_values_distinct (hls : obj string) (master : string) :
  NoDup (keys hls) ->
  Forall (fun k => endsWith k "_playlist" = true ->
                   exists n, allDigits n = true /\ k = n ++ "_playlist")
         (keys hls) ->
  NoDup (map V (autoEntry (Some master) hlsMimeType
                :: flat_map (hlsPlaylistEntry mediaData hls) (keys hls))).
Proof.
  intros N F. rewrite Forall_forall in F.
  set (lab := fun k => toLowerCase (replace k "_playlist" "" ++ "p")).
  assert (P : forall k, In k (keys hls) ->
              map V (hlsPlaylistEntry mediaData hls k) = [lab k] ->
              exists n, allDigits n = true /\ k = n ++ "_playlist" /\
                        lab k = n ++ "p").
  { intros k Hk E. unfold hlsPlaylistEntry in E.
    destruct (endsWith k "_playlist") eqn:W; [|discriminate].
    destruct (F k Hk W) as (n & Hn & ->). exists n.
    split; [assumption | split; [reflexivity|]].
    unfold lab. now rewrite (replace_playlist _ Hn), toLowerCase_label. }
  destruct (flat_values_distinct (hlsPlaylistEntry mediaData hls) lab
              (keys hls) N) as [D I].
  - intros k _. unfold hlsPlaylistEntry.
    destruct (endsWith k "_playlist"); [right | now left].
    simpl. now rewrite value_qualityEntry.
  - intros k k' Hk Hk' E E' L.
    destruct (P k Hk E) as (n & _ & -> & Ln).
    destruct (P k' Hk' E') as (n' & _ & -> & Ln').
    rewrite Ln, Ln' in L. apply append_inj_l in L. now subst.
  - simpl. rewrite value_autoEntry. constructor; [|exact D].
    intros Hin. destruct (I _ Hin) as (k & Hk & E & L).
    destruct (P k Hk E) as (n & Hn & _ & Ln).
    rewrite Ln in L. symmetry in L. now apply digits_label_not_auto in L.
Qed.

(** The values of the menu of encoded renditions are pairwise distinct. *)
Lemma encoding_values_distinct (encodings : obj Raw.encoding) :
  NoDup (keys encodings) ->
  Forall (fun k => resolution k = true) (availableKeys encodings) ->
  NoDup (map V (autoEntry None
                  (getMimeType None (data_field media_type mediaData))
                :: flat_map (encodingEntry mediaData encodings)
                     (keys encodings))).
Proof.
  intros N F. rewrite Forall_forall in F.
  set (lab := fun k => toLowerCase (k ++ "p")).
  assert (P : forall k, In k (keys encodings) ->
              map V (encodingEntry mediaData encodings k) = [lab k] ->
              allDigits k = true /\ lab k = k ++ "p").
  { intros k Hk E. unfold encodingEntry in E.
    destruct (h264_url encodings k) as [u|] eqn:U; [|discriminate].
    assert (R : resolution k = true).
    { apply F. unfold availableKeys. apply filter_In.
      split; [assumption | now rewrite U]. }
    apply resolution_allDigits in R. split; [assumption|].
    unfold lab. now apply toLowerCase_label. }
  destruct (flat_values_distinct (encodingEntry mediaData encodings) lab
              (keys encodings) N) as [D I].
  - intros k _. unfold encodingEntry.
    destruct (h264_url encodings k); [right | now left].
    simpl. now rewrite value_qualityEntry.
  - intros k k' Hk Hk' E E' L.
    destruct (P k Hk E) as [_ Lk], (P k' Hk' E') as [_ Lk'].
    rewrite Lk, Lk' in L. now apply append_inj_l in L.
  - simpl. rewrite value_autoEntry. constructor; [|exact D].
    intros Hin. destruct (I _ Hin) as (k & Hk & E & L).
    destruct (P k Hk E) as [Hd Lk].
    rewrite Lk in L. symmetry in L. now apply digits_label_not_auto in L.
Qed.

(** Without a JSON list, with tables keyed by resolution numbers, no two
    entries of the menu share a value. *)
Lemma menu_distinct (quality : string) :
  noJsonList mediaData -> distinctKeys mediaData ->
  resolutionPlaylists mediaData -> resolutionRenditions mediaData ->
  distinctValues (availableQualities mediaData quality).
Proof.
  intros Hj [Kh Ke] Hp Hr. unfold availableQualities.
  rewrite (jsonQualities_none _ Hj). simpl.
  destruct (hlsQualities mediaData) as [l|] eqn:H; simpl.
  { unfold hlsQualities in H.
    destruct (data_field hls_info mediaData) as [hls|] eqn:Eh;
      [|discriminate].
    destruct (get hls "master_file") as [f|]; [|discriminate].
    destruct (truthy_str f); [|discriminate].
    injection H as <-. apply normalize_distinct.
    apply hls_values_distinct; [now apply Kh | now apply Hp]. }
  destruct (encodingQualities mediaData) as [l|] eqn:E; simpl.
  { unfold encodingQualities in E.
    destruct (data_field encodings_info mediaData) as [enc|] eqn:Ee;
      [|discriminate].
    destruct (1 <? _)%nat; [|discriminate].
    injection E as <-. apply normalize_distinct.
    apply encoding_values_distinct; [now apply Ke | now apply Hr]. }
  unfold baseQualities.
  destruct (getVideoSources mediaData quality) as [|s r];
    [constructor|].
  destruct (truthy_str (Source.src s)); [|constructor].
  apply normalize_distinct. simpl. constructor; [intros []|constructor].
Qed.

End MenuValues.
(** *** The menu as a whole *)

Section MenuClaims.

Import JS Sources Menu Spec.

(** What does hold of every menu: every entry has a source; the menu is
    in the order of the ranks of its values in the desired order, which
    is ascending in resolution number, values outside the desired order
    coming last; without a JSON list, a manifest with a master file puts
    its Auto entry first, and tables keyed by distinct resolution numbers
    give no value twice. *)
Lemma quality_menu_properties (mediaData : media_data) (quality : string) :
  let menu := availableQualities mediaData quality in
  (noJsonList mediaData ->
   forall hls f,
     data_field hls_info mediaData = Some hls ->
     get hls "master_file" = Some f -> truthy_str f = true ->
     exists rest,
       menu = autoQuality (siteUrl mediaData ++ f) hlsMimeType :: rest) /\
  onlyResolvable menu /\
  StronglySorted
    (fun a b => (idx mediaData (Quality.value a)
                 <= idx mediaData (Quality.value b))%Z) menu /\
  (resolutionRenditions mediaData -> exactRenditions mediaData ->
   (List.length (desiredOrder mediaData) <= 999)%nat ->
   StronglySorted (rankOrder mediaData) menu) /\
  (noJsonList mediaData -> distinctKeys mediaData ->
   resolutionPlaylists mediaData -> resolutionRenditions mediaData ->
   distinctValues menu).
Proof.
  intros menu. subst menu.
  destruct (menu_normalized mediaData quality) as [arr E].
  split; [|split; [|split; [|split]]].
  - intros Hj hls f Hh Hg Hf. now apply (hls_menu_auto_first _ _ hls).
  - rewrite E. apply normalize_resolvable.
  - rewrite E. apply normalize_ranked.
  - intros Hr Hb Hl. rewrite E. now apply normalize_rankOrder.
  - intros Hj Hk Hp Hr. now apply menu_distinct.
Qed.

(** With encoded renditions only, the menu holds the renditions and no
    Auto entry: the requirements of the specification fail. *)
Lemma menu_not_as_stated : ~ menuAsStated Samples.encodedOnly "auto".
Proof.
  intros [H _].
  destruct H as (e & rest & E & V).
  - right. exists Samples.renditions. split; [reflexivity|].
    vm_compute. discriminate.
  - vm_compute in E. injection E as <- _. discriminate V.
Qed.

Example menu_of_renditions :
  map Quality.value (availableQualities Samples.encodedOnly "auto")
  = ["240p"; "480p"; "720p"].
Proof. vm_compute. reflexivity. Qed.

(** A JSON list is taken as it is: a value listed twice stays twice. *)
Example menu_of_json_list :
  map Quality.value (availableQualities Samples.listed "auto")
  = ["720p"; "720p"].
Proof. vm_compute. reflexivity. Qed.

(** Playlists that the table of renditions does not name keep the order of
    the manifest table. *)
Example menu_of_unranked_playlists :
  map Quality.value (availableQualities Samples.adaptiveOnly "auto")
  = ["auto"; "240p"; "480p"; "720p"; "144p"].
Proof. vm_compute. reflexivity. Qed.

Example menu_of_manifest :
  map Quality.value (availableQualities Samples.adaptive "auto")
  = ["auto"; "240p"; "480p"; "720p"; "144p"].
Proof. vm_compute. reflexivity. Qed.

End MenuClaims.
(** *** The properties at the sample descriptors *)

Section Witnesses.

Import JS Sources Menu Chapters Subtitles Player Spec.

(** The sample with renditions only has no manifest. *)
Lemma no_manifest_encodedOnly : noManifest Samples.encodedOnly.
Proof. intros hls H. discriminate H. Defined.

(** With nothing to play the resolver answers with the sample source. *)
Lemma getVideoSources_never_empty_sample :
  getVideoSources Samples.bare "720p" = [sampleSource].
Proof.
  apply (proj2 (getVideoSources_never_empty Samples.bare "720p")).
  - intros hls H. discriminate H.
  - intros enc H. discriminate H.
  - reflexivity.
Defined.

(** Asking for 720p where the manifest has a 720 playlist. *)
Lemma hls_variant_label_sample :
  getVideoSources Samples.adaptive "720p"
  = [ {| Source.src :=
           "https://videojs.mediacms.io/media/hls/5073/media-3/stream.m3u8";
         Source.type := "application/x-mpegURL";
         Source.label := Some "720pp" |} ] /\
  "720pp" <> "720p".
Proof.
  exact (hls_variant_label_doubles_p Samples.adaptive Samples.playlists
           "720p" "/media/hls/5073/media-3/stream.m3u8"
           eq_refl eq_refl eq_refl eq_refl).
Defined.

(** The sample renditions are keyed by resolution numbers. *)
Lemma resolution_renditions_sample :
  Forall (fun k => resolution k = true) (availableKeys Samples.renditions).
Proof. repeat constructor. Defined.

(** And their resolution numbers are far below 2^53. *)
Lemma exact_renditions_sample :
  Forall exactResolution (availableKeys Samples.renditions).
Proof. repeat (constructor; [reflexivity|]). constructor. Defined.

(** 480p is among the sample renditions, 1080p is not. *)
Lemma encoded_renditions_sample :
  getVideoSources Samples.encodedOnly "480p"
  = [ {| Source.src := "/media/encoded/13/a.mp4";
         Source.type := "video/mp4";
         Source.label := Some "480p" |} ] /\
  map Source.label (getVideoSources Samples.encodedOnly "1080p")
  = [Some "720p"; Some "480p"; Some "240p"] /\
  StronglySorted (fun a b => (resolutionOf b <= resolutionOf a)%Z)
                 (ladderKeys Samples.renditions).
Proof.
  assert (A : availableKeys Samples.renditions <> []) by discriminate.
  split; [|split].
  - apply (proj1 (encoded_renditions_choice_or_ladder Samples.encodedOnly
                    Samples.renditions "480p" no_manifest_encodedOnly
                    eq_refl A resolution_renditions_sample
                    exact_renditions_sample)
             "480" "/media/encoded/13/a.mp4"); reflexivity.
  - reflexivity.
  - apply (proj2 (encoded_renditions_choice_or_ladder Samples.encodedOnly
                    Samples.renditions "1080p" no_manifest_encodedOnly
                    eq_refl A resolution_renditions_sample
                    exact_renditions_sample)).
    right. exists "1080". repeat split.
Defined.


(** A generic chapter over the whole of a known duration is dropped. *)
Lemma chaptersData_single_entry_sample :
  chaptersData false Samples.oneSegment = [].
Proof.
  apply (proj2 (proj1 (chaptersData_single_entry false Samples.oneSegment
                         Samples.segment eq_refl))).
  left. split.
  - exists "segment". split; [reflexivity | now left].
  - exists 10%float. split; [split; reflexivity | split; reflexivity].
Defined.

(** Half a second into a media of duration 0 the generic chapter is kept,
    though it lies within one second of both ends of that duration. *)
Lemma single_part_kept :
  ~ (chaptersData false Samples.onePart = [] <->
     suppressedAsStated Samples.onePart Samples.part).
Proof.
  intros [_ H].
  assert (S : suppressedAsStated Samples.onePart Samples.part).
  { left. split.
    - exists "Part". split; [reflexivity|]. simpl. tauto.
    - exists 0%float. split; [reflexivity|]. split; vm_compute; reflexivity. }
  apply H in S. vm_compute in S. discriminate S.
Qed.

(** A stored preference in capitals matches a track with a region
    subtag, and the other way round; a track without a tag matches
    nothing. *)
Lemma matchLang_case_and_subtag_sample :
  matchLang {| srclang := Some "en-US"; language := None |} (Some "EN")
  = true /\
  matchLang {| srclang := None; language := Some "EN" |} (Some "en-us")
  = true /\
  matchLang {| srclang := Some "en-US"; language := None |} (Some "fr")
  <> true /\
  matchLang {| srclang := Some ""; language := None |} (Some "en") = false.
Proof.
  destruct matchLang_exact_or_subtag_prefix as (M & _ & E).
  split; [|split; [|split]].
  - apply (M {| srclang := Some "en-US"; language := None |} (Some "EN")
             eq_refl eq_refl).
    split; [discriminate|]. split; [discriminate|].
    right; left. exists "us". reflexivity.
  - apply (M {| srclang := None; language := Some "EN" |} (Some "en-us")
             eq_refl eq_refl).
    split; [discriminate|]. split; [discriminate|].
    right; right. exists "us". reflexivity.
  - intros H.
    apply (M {| srclang := Some "en-US"; language := None |} (Some "fr")
             eq_refl eq_refl) in H.
    destruct H as (_ & _ & [H|[[r H]|[r H]]]); discriminate H.
  - apply E. left. reflexivity.
Defined.

(** A browser that rejects every call: two calls, then the handler gives
    up. *)
Lemma autoplay_one_muted_retry_sample :
  exists w',
    Autoplay.autoplayOnNavigation Samples.strict false (Some "2Uk08Il5u")
      Samples.idle = (Autoplay.Ok tt, w') /\
    Autoplay.playCalls w'
    = [Autoplay.PlayCalled false false; Autoplay.PlayCalled true false] /\
    Autoplay.current w'
    = Some {| Autoplay.muted := true; Autoplay.paused := true;
              Autoplay.disposed := false |} /\
    Autoplay.trace w'
    = [ Autoplay.PlayCalled false false;
        Autoplay.ConsoleError "ℹ️ Browser prevented play:" "NotAllowedError";
        Autoplay.MutedSet true;
        Autoplay.PlayCalled true false;
        Autoplay.ConsoleError "ℹ️ Even muted play was blocked:"
          "NotAllowedError" ].
Proof.
  exact (autoplay_one_muted_retry Samples.strict Samples.idle
           {| Autoplay.muted := false; Autoplay.paused := true;
              Autoplay.disposed := false |}
           (Some "2Uk08Il5u") "NotAllowedError"
           eq_refl eq_refl eq_refl eq_refl eq_refl eq_refl).
Defined.

(** No [related_media] field, no related videos. *)
Lemma relatedVideos_absent_sample : relatedVideos Samples.unrelated = [].
Proof.
  apply (proj2 (proj2 (relatedVideos_first_twelve Samples.unrelated))).
  reflexivity.
Defined.

(** The menu of the sample with a manifest and renditions. *)
Lemma quality_menu_properties_sample :
  (exists rest,
     availableQualities Samples.adaptive "auto"
     = autoQuality "https://videojs.mediacms.io/media/hls/5073/master.m3u8"
                   "application/x-mpegURL" :: rest) /\
  StronglySorted (rankOrder Samples.adaptive)
                 (availableQualities Samples.adaptive "auto") /\
  distinctValues (availableQualities Samples.adaptive "auto").
Proof.
  assert (J : noJsonList Samples.adaptive) by (left; reflexivity).
  assert (R : resolutionRenditions Samples.adaptive).
  { intros enc H. injection H as <-. exact resolution_renditions_sample. }
  assert (P : resolutionPlaylists Samples.adaptive).
  { intros hls H. injection H as <-.
    constructor; [intros W; discriminate W|].
    constructor; [intros _; exists "240"; split; reflexivity|].
    constructor; [intros _; exists "480"; split; reflexivity|].
    constructor; [intros _; exists "720"; split; reflexivity|].
    constructor; [intros _; exists "144"; split; reflexivity|].
    constructor. }
  assert (K : distinctKeys Samples.adaptive).
  { split; intros t H; injection H as <-;
      repeat (constructor; [simpl; intuition discriminate|]); constructor. }
  destruct (quality_menu_properties Samples.adaptive "auto")
    as (A & _ & _ & O & D).
  split; [|split].
  - exact (A J Samples.playlists "/media/hls/5073/master.m3u8"
             eq_refl eq_refl eq_refl).
  - apply O; [exact R | | simpl; lia].
    intros enc H. injection H as <-. exact exact_renditions_sample.
  - exact (D J K P R).
Defined.

End Witnesses.

(** *** Worked examples *)

Section Examples.

Import JS Sources Menu Chapters Subtitles Player.

(** Thirteen related items give twelve related videos, the first twelve. *)
Example relatedVideos_thirteen :
  let tokens := ["a"; "b"; "c"; "d"; "e"; "f"; "g"; "h"; "i"; "j"; "k";
                 "l"; "m"] in
  map Related.id
    (relatedVideos
       (Samples.descriptor
          (Samples.mediaOf None None None None None None
             (Some (map Samples.relatedItem tokens)))))
  = map Some (firstn 12 tokens).
Proof. reflexivity. Qed.

(** An explicit [urlAutoplay: false] is overridden, an explicit
    [urlMuted: false] is kept. *)
Example currentVideo_flags :
  let v := currentVideo "/audio-poster.jpg" Samples.bare "auto" in
  urlAutoplay Samples.bare = Some false /\
  Video.urlAutoplay v = true /\ Video.urlMuted v = false.
Proof. repeat split. Qed.

(** A browser that allows muted playback: the retry starts the player. *)
Example autoplay_muted_retry_plays :
  Autoplay.autoplayOnNavigation Samples.mutedOnly false (Some "2Uk08Il5u")
    Samples.idle
  = (Autoplay.Ok tt,
     {| Autoplay.current :=
          Some {| Autoplay.muted := true; Autoplay.paused := false;
                  Autoplay.disposed := false |};
        Autoplay.trace :=
          [ Autoplay.PlayCalled false false;
            Autoplay.ConsoleError "ℹ️ Browser prevented play:"
              "NotAllowedError";
            Autoplay.MutedSet true;
            Autoplay.PlayCalled true true ] |}).
Proof. reflexivity. Qed.

(** Embed players and pages without the [m] parameter do not autoplay. *)
Example autoplay_skipped :
  Autoplay.autoplayOnNavigation Samples.strict true (Some "2Uk08Il5u")
    Samples.idle = (Autoplay.Ok tt, Samples.idle) /\
  Autoplay.autoplayOnNavigation Samples.strict false None Samples.idle
  = (Autoplay.Ok tt, Samples.idle).
Proof. split; reflexivity. Qed.

(** The resolver on the sample media. *)
Example getVideoSources_samples :
  map Source.label (getVideoSources Samples.adaptive "auto") = [Some "Auto"]
  /\ map Source.label (getVideoSources Samples.adaptive "1080p")
     = [Some "Auto"]
  /\ map Source.label (getVideoSources Samples.encodedOnly "auto")
     = [Some "720p"; Some "480p"; Some "240p"]
  /\ map Source.label (getVideoSources Samples.encodedOnly "720p")
     = [Some "720p"].
Proof. repeat split. Qed.

(** A generic single chapter over a known duration is dropped, the same
    chapter with a title of its own is kept. *)
Example chaptersData_titles :
  chaptersData false Samples.oneSegment = [] /\
  chaptersData false
    (Samples.descriptor
       (Samples.mediaOf None None None (Some 10%float)
          (Some [ {| Raw.startTime := TNumber 0%float;
                     Raw.endTime := TNumber 10%float;
                     Raw.chapterTitle := Some "Intro" |} ])
          None None))
  = [ {| startTime := 0%float; endTime := 10%float;
         chapterTitle := Some "Intro" |} ].
Proof. split; vm_compute; reflexivity. Qed.

End Examples.
(* ================================================================== *)
(** ** Further properties *)
(* ================================================================== *)

(** *** MIME types *)

Section MimeFacts.

Import JS Sources Derived.

Lemma audio_match (A : Type) (t : string) (a b : A) :
  match t with
  | "audio" => a
  | _ => b
  end = if String.eqb t "audio" then a else b.
Proof.
  destruct (String.eqb_spec t "audio") as [->|N]; [reflexivity|].
  destruct t as [|c1 t]; [reflexivity|].
  destruct c1 as [[] [] [] [] [] [] [] []]; try reflexivity.
  destruct t as [|c2 t]; [reflexivity|].
  destruct c2 as [[] [] [] [] [] [] [] []]; try reflexivity.
  destruct t as [|c3 t]; [reflexivity|].
  destruct c3 as [[] [] [] [] [] [] [] []]; try reflexivity.
  destruct t as [|c4 t]; [reflexivity|].
  destruct c4 as [[] [] [] [] [] [] [] []]; try reflexivity.
  destruct t as [|c5 t]; [reflexivity|].
  destruct c5 as [[] [] [] [] [] [] [] []]; try reflexivity.
  destruct t as [|c6 t]; [|reflexivity].
  contradiction N. reflexivity.
Qed.

(** [getMimeType] by the kind of the media. *)
Lemma getMimeType_by_kind (url mediaType : option string) :
  getMimeType url mediaType =
    let has (ext : string) : bool :=
      match url with
      | Some u => truthy_str u && includes (toLowerCase u) ext
      | None => false
      end in
    if isAudio mediaType then
      if has ".mp3" then "audio/mpeg"
      else if has ".ogg" then "audio/ogg"
      else if has ".wav" then "audio/wav"
      else if has ".m4a" then "audio/mp4"
      else "audio/mpeg"
    else
      if has ".webm" then "video/webm"
      else if has ".ogg" then "video/ogg"
      else "video/mp4".
Proof.
  unfold getMimeType, isAudio.
  destruct mediaType as [t|]; [|reflexivity].
  apply audio_match.
Qed.

Lemma truthy_toLowerCase (u : string) :
  truthy_str (toLowerCase u) = truthy_str u.
Proof. destruct u; reflexivity. Qed.

Lemma getMimeType_of_kind (url mediaType : option string) :
  if isAudio mediaType
  then In (getMimeType url mediaType) audioTypes
  else In (getMimeType url mediaType) videoTypes.
Proof.
  rewrite getMimeType_by_kind. cbv zeta beta.
  destruct (isAudio mediaType);
    repeat match goal with
           | |- context [if ?b then _ else _] => destruct b
           end; simpl; tauto.
Qed.

Lemma getMimeType_listed (url mediaType : option string) :
  In (getMimeType url mediaType) (audioTypes ++ videoTypes)%list.
Proof.
  pose proof (getMimeType_of_kind url mediaType) as H.
  apply in_or_app. destruct (isAudio mediaType); [now left | now right].
Qed.

Lemma includes_spec (s sub : string) :
  includes s sub = true <-> exists before after, s = before ++ sub ++ after.
Proof.
  split.
  - induction s as [|c t IH].
    + simpl. rewrite orb_false_r. intros H.
      destruct sub; [|discriminate]. now exists "", "".
    + intros H. change (String.prefix sub (String c t)
                        || includes t sub = true) in H.
      apply orb_true_iff in H as [H|H].
      * apply prefix_append in H as [r H]. exists "", r. exact H.
      * destruct (IH H) as (a & b & ->). exists (String c a), b. reflexivity.
  - intros (a & b & ->). induction a as [|c a IH]; simpl.
    + assert (P : String.prefix sub (sub ++ b) = true)
        by (apply prefix_append; now exists b).
      destruct (sub ++ b); simpl in *; rewrite P; reflexivity.
    + change (String.prefix sub (String c (a ++ sub ++ b))
              || includes (a ++ sub ++ b) sub = true).
      rewrite IH. apply orb_true_r.
Qed.

Lemma has_mentions (u ext : string) :
  truthy_str u = true ->
  (truthy_str u && includes (toLowerCase u) ext = true <-> mentions u ext).
Proof.
  intros T. rewrite T. simpl. unfold mentions.
  rewrite <- toLowerCase_caseFold. apply includes_spec.
Qed.

Lemma has_not_mentions (u ext : string) :
  truthy_str u = true -> ~ mentions u ext ->
  truthy_str u && includes (toLowerCase u) ext = false.
Proof.
  intros T N. destruct (_ && _) eqn:E; [|reflexivity].
  exfalso. apply N. now apply has_mentions.
Qed.

Lemma getMimeType_decided (u : string) (mediaType : option string)
  (type : string) :
  truthy_str u = true ->
  decides (tableOf mediaType) (defaultOf mediaType) u type ->
  getMimeType (Some u) mediaType = type.
Proof.
  intros T D. rewrite getMimeType_by_kind. cbv zeta beta.
  unfold tableOf, defaultOf in D.
  destruct (isAudio mediaType).
  - destruct D as [(earlier & ext & later & E & M & N)|[N ->]].
    + apply (has_mentions u ext T) in M.
      destruct earlier as [|[e1 t1] earlier]; simpl in E.
      { injection E as <- <- _. now rewrite M. }
      injection E as <- <- E.
      rewrite (has_not_mentions u ".mp3" T (N _ _ (or_introl eq_refl))).
      destruct earlier as [|[e2 t2] earlier]; simpl in E.
      { injection E as <- <- _. now rewrite M. }
      injection E as <- <- E.
      rewrite (has_not_mentions u ".ogg" T
                 (N _ _ (or_intror (or_introl eq_refl)))).
      destruct earlier as [|[e3 t3] earlier]; simpl in E.
      { injection E as <- <- _. now rewrite M. }
      injection E as <- <- E.
      rewrite (has_not_mentions u ".wav" T
                 (N _ _ (or_intror (or_intror (or_introl eq_refl))))).
      destruct earlier as [|[e4 t4] earlier]; simpl in E.
      { injection E as <- <- _. now rewrite M. }
      injection E as _ _ E. destruct earlier; discriminate E.
    + rewrite !has_not_mentions; try assumption; try reflexivity;
        eapply N; simpl; eauto.
  - destruct D as [(earlier & ext & later & E & M & N)|[N ->]].
    + apply (has_mentions u ext T) in M.
      destruct earlier as [|[e1 t1] earlier]; simpl in E.
      { injection E as <- <- _. now rewrite M. }
      injection E as <- <- E.
      rewrite (has_not_mentions u ".webm" T (N _ _ (or_introl eq_refl))).
      destruct earlier as [|[e2 t2] earlier]; simpl in E.
      { injection E as <- <- _. now rewrite M. }
      injection E as _ _ E. destruct earlier; discriminate E.
    + rewrite !has_not_mentions; try assumption; try reflexivity;
        eapply N; simpl; eauto.
Qed.

(** X1: the type of a source is an audio type exactly for audio media,
    whatever the URL says; for a URL of ASCII characters it is the type
    of the first extension of the table of the kind (.mp3, .ogg, .wav,
    .m4a for audio; .webm, .ogg otherwise) that the URL has somewhere in
    it, capitals counting as small letters, and the default of the kind
    when it has none; the case of the URL does not matter; and without a
    URL the type is the default of the kind. *)
Theorem getMimeType_kind_and_case (url mediaType : option string) :
  (if isAudio mediaType
   then In (getMimeType url mediaType) audioTypes
   else In (getMimeType url mediaType) videoTypes) /\
  (forall u type,
     url = Some u -> u <> "" -> Spec.isAscii u = true ->
     decides (tableOf mediaType) (defaultOf mediaType) u type ->
     getMimeType url mediaType = type) /\
  (forall u, url = Some u ->
     getMimeType (Some (toLowerCase u)) mediaType
     = getMimeType url mediaType) /\
  (truthy_opt url = false ->
   getMimeType url mediaType
   = if isAudio mediaType then "audio/mpeg" else "video/mp4").
Proof.
  split; [apply getMimeType_of_kind | split; [|split]].
  - intros u type -> N _ D. apply getMimeType_decided; [|exact D].
    now apply truthy_str_true.
  - intros u ->. rewrite !getMimeType_by_kind. cbv zeta beta.
    now rewrite toLowerCase_idem, truthy_toLowerCase.
  - intros F. rewrite getMimeType_by_kind. cbv zeta.
    assert (H : forall ext, match url with
                            | Some u => truthy_str u
                                        && includes (toLowerCase u) ext
                            | None => false
                            end = false).
    { intros ext. destruct url as [u|]; [|reflexivity].
      simpl in F. now rewrite F. }
    cbv beta. rewrite !H. reflexivity.
Qed.

Lemma getMimeType_truthy (url mediaType : option string) :
  truthy_str (getMimeType url mediaType) = true.
Proof.
  pose proof (getMimeType_listed url mediaType) as H. simpl in H.
  repeat (destruct H as [<-|H]; [reflexivity|]). contradiction.
Qed.

End MimeFacts.

(** *** What the resolver answers with *)

Section SourceFacts.

Import JS Sources Menu Spec Derived.

Variable mediaData : media_data.

Lemma h264_url_truthy (encodings : obj Raw.encoding) (k u : string) :
  h264_url encodings k = Some u -> truthy_str u = true.
Proof.
  unfold h264_url. destruct (get encodings k) as [e|]; [|discriminate].
  destruct (Raw.h264 e) as [h|]; [|discriminate].
  destruct (truthy_opt (Raw.url h)) eqn:T; [|discriminate].
  intros E. rewrite E in T. exact T.
Qed.

Lemma hlsSource_playable (f label : string) :
  truthy_str f = true -> playable (hlsSource mediaData f label).
Proof.
  intros H. split; [now apply truthy_append | now left].
Qed.

Lemma encodedSource_playable (u k : string) :
  truthy_str u = true -> playable (encodedSource mediaData u k).
Proof.
  intros H. split; [exact H | right; apply getMimeType_listed].
Qed.

Lemma fromHls_playable (userQuality : string) (l : list Source.t) :
  fromHls mediaData userQuality = Some l -> Forall playable l.
Proof.
  unfold fromHls, hlsAuto, hlsVariant, hlsMaster.
  destruct (data_field hls_info mediaData) as [hls|]; [|discriminate].
  destruct (get hls "master_file") as [f|];
    destruct (get hls (replace userQuality "p" "" ++ "_playlist")) as [g|];
    destruct (isAuto userQuality); simpl;
    repeat match goal with
           | |- context [truthy_str ?x] =>
               let T := fresh "T" in destruct (truthy_str x) eqn:T; simpl
           end;
    intros E; try discriminate E; injection E as <-;
    constructor; try constructor; now apply hlsSource_playable.
Qed.

Lemma fromEncodings_playable (userQuality : string) (l : list Source.t) :
  fromEncodings mediaData userQuality = Some l -> Forall playable l.
Proof.
  unfold fromEncodings, encodedChoice, encodedLadder.
  destruct (data_field encodings_info mediaData) as [enc|]; [|discriminate].
  assert (L : Forall playable
                (flat_map (ladderSource mediaData enc) (ladderKeys enc))).
  { apply Forall_forall. intros s Hs.
    apply in_flat_map in Hs as (k & _ & Hs). unfold ladderSource in Hs.
    destruct (h264_url enc k) as [u|] eqn:U; [|contradiction].
    destruct Hs as [<-|[]]. apply encodedSource_playable.
    eapply h264_url_truthy. exact U. }
  destruct (negb (isAuto userQuality)).
  - destruct (h264_url enc (replace userQuality "p" "")) as [u|] eqn:U;
      simpl.
    + intros [= <-]. constructor; [|constructor].
      apply encodedSource_playable. eapply h264_url_truthy. exact U.
    + destruct (flat_map _ _) as [|s r]; [discriminate|].
      now intros [= <-].
  - simpl. destruct (flat_map _ _) as [|s r]; [discriminate|].
    now intros [= <-].
Qed.

Lemma fromOriginal_playable (l : list Source.t) :
  fromOriginal mediaData = Some l -> Forall playable l.
Proof.
  unfold fromOriginal.
  destruct (data_field original_media_url mediaData) as [u|]; [|discriminate].
  destruct (truthy_str u) eqn:T; [|discriminate].
  intros [= <-]. constructor; [|constructor]. split; simpl.
  - now apply truthy_append.
  - right. apply getMimeType_listed.
Qed.

Lemma getVideoSources_playable (userQuality : string) :
  Forall playable (getVideoSources mediaData userQuality).
Proof.
  unfold getVideoSources.
  destruct (fromHls mediaData userQuality) as [l|] eqn:Hh; simpl.
  { now apply (fromHls_playable userQuality). }
  destruct (fromEncodings mediaData userQuality) as [l|] eqn:He; simpl.
  { now apply (fromEncodings_playable userQuality). }
  destruct (fromOriginal mediaData) as [l|] eqn:Ho; simpl.
  { now apply fromOriginal_playable. }
  constructor; [|constructor]. split; [reflexivity|].
  right. simpl. tauto.
Qed.

(** X2: whatever the media and the preference, every source the resolver
    returns has a non-empty URL and a type of the fixed table; only the
    original-file and the sample source come without a label. *)
Theorem resolved_sources_are_playable (userQuality : string) :
  Forall playable (getVideoSources mediaData userQuality) /\
  (forall s, In s (getVideoSources mediaData userQuality) ->
     Source.label s = None ->
     fromHls mediaData userQuality = None /\
     fromEncodings mediaData userQuality = None).
Proof.
  split; [apply getVideoSources_playable|].
  intros s Hs Hl. unfold getVideoSources in Hs.
  destruct (fromHls mediaData userQuality) as [l|] eqn:Hh; simpl in Hs.
  { exfalso. unfold fromHls, hlsAuto, hlsVariant, hlsMaster in Hh.
    destruct (data_field hls_info mediaData) as [hls|]; [|discriminate].
    destruct (get hls "master_file") as [f|];
      destruct (get hls (replace userQuality "p" "" ++ "_playlist"))
        as [g|];
      destruct (isAuto userQuality); simpl in Hh;
      repeat match type of Hh with
             | context [truthy_str ?x] => destruct (truthy_str x); simpl in Hh
             end;
      try discriminate Hh; injection Hh as <-;
      destruct Hs as [<-|[]]; discriminate Hl. }
  destruct (fromEncodings mediaData userQuality) as [l|] eqn:He;
    simpl in Hs; [|now split].
  exfalso. unfold fromEncodings, encodedChoice, encodedLadder in He.
  destruct (data_field encodings_info mediaData) as [enc|]; [|discriminate].
  assert (L : forall s, In s (flat_map (ladderSource mediaData enc)
                                       (ladderKeys enc)) ->
              Source.label s <> None).
  { intros s' Hs'. apply in_flat_map in Hs' as (k & _ & Hs').
    unfold ladderSource in Hs'.
    destruct (h264_url enc k); [|contradiction].
    destruct Hs' as [<-|[]]. discriminate. }
  destruct (negb (isAuto userQuality)).
  - destruct (h264_url enc (replace userQuality "p" "")) as [u|]; simpl in He.
    + injection He as <-. destruct Hs as [<-|[]]. discriminate Hl.
    + destruct (flat_map _ _) as [|s0 r] eqn:F; [discriminate|].
      injection He as <-. now apply (L s).
  - simpl in He. destruct (flat_map _ _) as [|s0 r] eqn:F; [discriminate|].
    injection He as <-. now apply (L s).
Qed.

(** The resolver on a manifest table that names a master file. *)
Lemma getVideoSources_master (hls : obj string) (f userQuality : string) :
  masterFile mediaData hls f ->
  getVideoSources mediaData userQuality
  = match (if negb (isAuto userQuality)
           then get hls (replace userQuality "p" "" ++ "_playlist")
           else None) with
    | Some g => if truthy_str g
                then [hlsSource mediaData g (userQuality ++ "p")]
                else [hlsSource mediaData f "Auto"]
    | None => [hlsSource mediaData f "Auto"]
    end.
Proof.
  intros (Hh & Hg & Hf). unfold getVideoSources, fromHls. rewrite Hh.
  unfold hlsAuto, hlsVariant, hlsMaster. rewrite Hg, Hf.
  destruct (isAuto userQuality); simpl; [reflexivity|].
  destruct (get hls (replace userQuality "p" "" ++ "_playlist")) as [g|];
    [|reflexivity].
  destruct (truthy_str g); reflexivity.
Qed.

(** X3: when the manifest table names a master file, every preference is
    answered with exactly one source of the manifest, and the renditions
    and the original file are never used: ["auto"] gets the master file,
    and so does a preference without a playlist of its own. *)
Theorem master_file_takes_precedence (hls : obj string) (f : string) :
  masterFile mediaData hls f ->
  getVideoSources mediaData "auto" = [hlsSource mediaData f "Auto"] /\
  (forall userQuality,
     exists file label,
       getVideoSources mediaData userQuality
       = [hlsSource mediaData file label]) /\
  (forall userQuality,
     truthy_opt (get hls (replace userQuality "p" "" ++ "_playlist"))
     = false ->
     getVideoSources mediaData userQuality
     = [hlsSource mediaData f "Auto"]).
Proof.
  intros M. split; [|split].
  - rewrite (getVideoSources_master hls f "auto" M). reflexivity.
  - intros q. rewrite (getVideoSources_master hls f q M).
    destruct (if negb (isAuto q) then _ else None) as [g|];
      [destruct (truthy_str g)|]; now eexists; eexists.
  - intros q Hq. rewrite (getVideoSources_master hls f q M).
    destruct (negb (isAuto q)); [|reflexivity].
    destruct (get hls (replace q "p" "" ++ "_playlist")) as [g|];
      [|reflexivity].
    simpl in Hq. now rewrite Hq.
Qed.

End SourceFacts.

(** *** The menu and the resolver together *)

Section MenuResolver.

Import JS Sources Menu Spec Derived.

Variable mediaData : media_data.

Lemma getVideoSources_cons (quality : string) :
  getVideoSources mediaData quality <> [].
Proof.
  unfold getVideoSources.
  destruct (fromHls mediaData quality) as [l|] eqn:Hh; simpl.
  { now apply (fromHls_nonempty mediaData quality). }
  destruct (fromEncodings mediaData quality) as [l|] eqn:He; simpl.
  { now apply (fromEncodings_nonempty mediaData quality). }
  destruct (fromOriginal mediaData) as [l|] eqn:Ho; simpl.
  { now apply (fromOriginal_nonempty mediaData). }
  discriminate.
Qed.

Lemma or_str_truthy (a : option string) (b : string) :
  truthy_str b = true -> truthy_str (or_str a b) = true.
Proof.
  intros H. unfold or_str, or_opt.
  destruct a as [s|]; simpl; [|exact H].
  destruct (truthy_str s) eqn:T; [exact T | exact H].
Qed.

Lemma or_str_some (s b : string) :
  truthy_str s = true -> or_str (Some s) b = s.
Proof. intros H. unfold or_str, or_opt. simpl. now rewrite H. Qed.

(** What [normalize] makes of the entry of a playlist or a rendition. *)
Lemma norm_qualityEntry (quality src type : string) :
  truthy_str src = true -> truthy_str type = true ->
  norm mediaData (qualityEntry quality src type)
  = {| Quality.label := quality ++ "p";
       Quality.value := toLowerCase (quality ++ "p");
       Quality.src := Some src;
       Quality.type := type |}.
Proof.
  intros Hs Ht. unfold norm, qualityEntry. simpl.
  assert (T : truthy_str (quality ++ "p") = true)
    by now apply truthy_append.
  unfold or_opt at 1 2 3 4; simpl. rewrite T, Hs; simpl.
  rewrite !or_str_some; try assumption.
  unfold or_opt; simpl. now rewrite Hs.
Qed.

Lemma normalize_In (arr : list Raw.quality) (e : Quality.t) :
  In e (normalize mediaData arr) <->
  exists r, In r arr /\ e = norm mediaData r /\
            truthy_opt (Quality.src e) = true.
Proof.
  unfold normalize. rewrite sort_In, filter_In, in_map_iff. split.
  - intros [(r & <- & Hr) T]. now exists r.
  - intros (r & Hr & -> & T). split; [now exists r | exact T].
Qed.

Lemma normalize_nonempty (arr : list Raw.quality) (r : Raw.quality) :
  In r arr -> truthy_opt (Quality.src (norm mediaData r)) = true ->
  normalize mediaData arr <> [].
Proof.
  intros Hr T E.
  assert (H : In (norm mediaData r) (normalize mediaData arr)).
  { apply normalize_In. now exists r. }
  rewrite E in H. contradiction.
Qed.

Lemma hlsQualities_noManifest :
  noManifest mediaData -> hlsQualities mediaData = None.
Proof.
  intros H. unfold hlsQualities.
  destruct (data_field hls_info mediaData) as [hls|] eqn:Eh; [|reflexivity].
  specialize (H hls Eh "master_file").
  destruct (get hls "master_file") as [f|]; [|reflexivity].
  simpl in H. now rewrite H.
Qed.

Lemma encodingEntry_In (encodings : obj Raw.encoding) (r : Raw.quality) :
  In r (flat_map (encodingEntry mediaData encodings) (keys encodings)) ->
  exists k u,
    In k (availableKeys encodings) /\ h264_url encodings k = Some u /\
    r = qualityEntry k u
          (getMimeType (Some u) (data_field media_type mediaData)).
Proof.
  intros H. apply in_flat_map in H as (k & Hk & H).
  unfold encodingEntry in H.
  destruct (h264_url encodings k) as [u|] eqn:U; [|contradiction].
  destruct H as [<-|[]]. exists k, u. split; [|now split].
  unfold availableKeys. apply filter_In. split; [exact Hk|]. now rewrite U.
Qed.

Lemma encodingEntries_exist (encodings : obj Raw.encoding) :
  availableKeys encodings <> [] ->
  exists r,
    In r (flat_map (encodingEntry mediaData encodings) (keys encodings)).
Proof.
  intros H. destruct (availableKeys encodings) as [|k l] eqn:E;
    [contradiction|].
  assert (Hk : In k (availableKeys encodings)) by (rewrite E; now left).
  unfold availableKeys in Hk. apply filter_In in Hk as [Hk U].
  destruct (h264_url encodings k) as [u|] eqn:Eu; [|discriminate].
  eexists. apply in_flat_map. exists k. split; [exact Hk|].
  unfold encodingEntry. rewrite Eu. now left.
Qed.

Lemma encodingEntries_none (encodings : obj Raw.encoding) :
  availableKeys encodings = [] ->
  flat_map (encodingEntry mediaData encodings) (keys encodings) = [].
Proof.
  intros H. destruct (flat_map _ _) as [|r l] eqn:E; [reflexivity|].
  destruct (encodingEntry_In encodings r) as (k & u & Hk & _).
  { rewrite E. now left. }
  rewrite H in Hk. contradiction.
Qed.

(** The menu of a media with renditions and neither JSON list nor
    manifest. *)
Lemma encoding_menu (encodings : obj Raw.encoding) (quality : string) :
  noJsonList mediaData -> noManifest mediaData ->
  data_field encodings_info mediaData = Some encodings ->
  availableKeys encodings <> [] ->
  availableQualities mediaData quality
  = normalize mediaData
      (autoEntry None (getMimeType None (data_field media_type mediaData))
       :: flat_map (encodingEntry mediaData encodings) (keys encodings)).
Proof.
  intros Hj Hm He Ha. unfold availableQualities.
  rewrite (jsonQualities_none _ Hj), (hlsQualities_noManifest Hm). simpl.
  unfold encodingQualities. rewrite He.
  destruct (encodingEntries_exist encodings Ha) as [r Hr].
  destruct (flat_map _ _) as [|r0 l]; [contradiction|]. reflexivity.
Qed.

(** X4: a media without a JSON list, without manifest and with renditions
    keyed by resolution numbers: whichever entry of the menu is chosen,
    the resolver answers the choice with exactly one source, which has the
    URL and the type of the entry and its value as label. *)
Theorem menu_choice_resolves_to_its_rendition
  (encodings : obj Raw.encoding) (quality : string) (e : Quality.t) :
  noJsonList mediaData -> noManifest mediaData ->
  data_field encodings_info mediaData = Some encodings ->
  availableKeys encodings <> [] ->
  Forall (fun k => resolution k = true) (availableKeys encodings) ->
  In e (availableQualities mediaData quality) ->
  exists src,
    Quality.src e = Some src /\
    getVideoSources mediaData (Quality.value e)
    = [ {| Source.src := src;
           Source.type := Quality.type e;
           Source.label := Some (Quality.value e) |} ].
Proof.
  intros Hj Hm He Ha Hr Hin.
  rewrite (encoding_menu encodings quality Hj Hm He Ha) in Hin.
  apply normalize_In in Hin as (r & Hrin & -> & T).
  destruct Hrin as [<-|Hrin]; [discriminate T|].
  destruct (encodingEntry_In encodings r Hrin) as (k & u & Hk & Hu & ->).
  rewrite Forall_forall in Hr. pose proof (Hr k Hk) as Rk.
  pose proof (h264_url_truthy encodings k u Hu) as Tu.
  rewrite norm_qualityEntry; [|exact Tu | apply getMimeType_truthy].
  simpl. exists u. split; [reflexivity|].
  rewrite (toLowerCase_label _ (resolution_allDigits _ Rk)).
  unfold getVideoSources.
  rewrite (fromHls_noManifest _ _ Hm). unfold fromEncodings.
  rewrite He. unfold encodedChoice.
  rewrite (label_not_auto _ Rk), (replace_label _ (resolution_allDigits _ Rk)).
  simpl. rewrite Hu. reflexivity.
Qed.

Lemma hlsPlaylistEntry_In (hls : obj string) (r : Raw.quality) :
  In r (flat_map (hlsPlaylistEntry mediaData hls) (keys hls)) ->
  exists k,
    In k (keys hls) /\ endsWith k "_playlist" = true /\
    r = qualityEntry (replace k "_playlist" "")
          (siteUrl mediaData ++ match get hls k with
                                | Some file => file
                                | None => "undefined"
                                end)
          hlsMimeType.
Proof.
  intros H. apply in_flat_map in H as (k & Hk & H).
  unfold hlsPlaylistEntry in H.
  destruct (endsWith k "_playlist") eqn:W; [|contradiction].
  destruct H as [<-|[]]. now exists k.
Qed.

(** The menu of a media with a master file and no JSON list. *)
Lemma hls_menu (hls : obj string) (f quality : string) :
  noJsonList mediaData -> masterFile mediaData hls f ->
  availableQualities mediaData quality
  = normalize mediaData
      (autoEntry (Some (siteUrl mediaData ++ f)) hlsMimeType
       :: flat_map (hlsPlaylistEntry mediaData hls) (keys hls)).
Proof.
  intros Hj (Hh & Hg & Hf). unfold availableQualities.
  rewrite (jsonQualities_none _ Hj). simpl.
  unfold hlsQualities. now rewrite Hh, Hg, Hf.
Qed.

(** X5: a media without a JSON list whose manifest names a master file
    and a file for every playlist, the playlists keyed
    [<digits>_playlist]: whichever entry of the menu is chosen, the
    resolver answers the choice with exactly one HLS source, which has the
    URL of the entry; its label is ["Auto"] for the Auto entry and the
    value followed by one more [p] for the others. *)
Theorem menu_choice_resolves_to_its_playlist
  (hls : obj string) (f quality : string) (e : Quality.t) :
  noJsonList mediaData -> masterFile mediaData hls f ->
  resolutionPlaylists mediaData -> playlistsNamed hls ->
  In e (availableQualities mediaData quality) ->
  exists src,
    Quality.src e = Some src /\
    getVideoSources mediaData (Quality.value e)
    = [ {| Source.src := src;
           Source.type := hlsMimeType;
           Source.label :=
             Some (if String.eqb (Quality.value e) "auto" then "Auto"
                   else Quality.value e ++ "p") |} ].
Proof.
  intros Hj M Hp Hn Hin.
  rewrite (hls_menu hls f quality Hj M) in Hin.
  apply normalize_In in Hin as (r & Hrin & -> & T).
  destruct M as (Hh & Hg & Hf).
  destruct Hrin as [<-|Hrin].
  - rewrite norm_auto; [|now apply truthy_append | reflexivity].
    simpl. eexists. split; [reflexivity|].
    now rewrite (getVideoSources_master mediaData hls f "auto").
  - destruct (hlsPlaylistEntry_In hls r Hrin) as (k & Hk & W & ->).
    pose proof (Hp hls Hh) as F. rewrite Forall_forall in F.
    destruct (F k Hk W) as (n & Dn & ->).
    pose proof (Hn _ Hk W) as Tk.
    destruct (get hls (n ++ "_playlist")) as [file|] eqn:G;
      [|discriminate Tk].
    simpl in Tk.
    rewrite (replace_playlist _ Dn).
    rewrite norm_qualityEntry;
      [|now apply truthy_append | reflexivity].
    simpl. rewrite (toLowerCase_label _ Dn).
    eexists. split; [reflexivity|].
    rewrite (getVideoSources_master mediaData hls f (n ++ "p"));
      [|now repeat split].
    assert (A : isAuto (n ++ "p") = false).
    { unfold isAuto. apply String.eqb_neq.
      now apply digits_label_not_auto. }
    unfold isAuto in A. rewrite A. unfold isAuto. rewrite A. simpl.
    rewrite (replace_label _ Dn), G, Tk. reflexivity.
Qed.

Lemma menu_without_json_list (quality : string) :
  noJsonList mediaData -> availableQualities mediaData quality <> [].
Proof.
  intros Hj. unfold availableQualities.
  rewrite (jsonQualities_none _ Hj). simpl.
  destruct (hlsQualities mediaData) as [menu|] eqn:H; simpl.
  { unfold hlsQualities in H.
    destruct (data_field hls_info mediaData) as [hls|]; [|discriminate].
    destruct (get hls "master_file") as [f|]; [|discriminate].
    destruct (truthy_str f) eqn:Tf; [|discriminate].
    injection H as <-.
    destruct (normalize_auto_first mediaData
                (siteUrl mediaData ++ f) hlsMimeType
                (flat_map (hlsPlaylistEntry mediaData hls) (keys hls)))
      as [rest ->]; [now apply truthy_append | reflexivity | discriminate]. }
  destruct (encodingQualities mediaData) as [menu|] eqn:E; simpl.
  { unfold encodingQualities in E.
    destruct (data_field encodings_info mediaData) as [enc|];
      [|discriminate].
    destruct (flat_map (encodingEntry mediaData enc) (keys enc))
      as [|r l] eqn:F; [discriminate|].
    simpl in E. injection E as <-.
    destruct (encodingEntry_In enc r) as (k & u & _ & Hu & ->).
    { rewrite F. now left. }
    apply (normalize_nonempty _
             (qualityEntry k u
                (getMimeType (Some u) (data_field media_type mediaData)))).
    - right. now left.
    - rewrite norm_qualityEntry;
        [|eapply h264_url_truthy; exact Hu | apply getMimeType_truthy].
      simpl. eapply h264_url_truthy. exact Hu. }
  unfold baseQualities.
  pose proof (getVideoSources_playable mediaData quality) as P.
  pose proof (getVideoSources_cons quality) as N.
  destruct (getVideoSources mediaData quality) as [|s r]; [contradiction|].
  inversion P as [|? ? [Ts _] _]; subst. rewrite Ts.
  destruct (normalize_auto_first mediaData (Source.src s)
              (or_str (Some (Source.type s))
                 (getMimeType (Some (Source.src s))
                    (data_field media_type mediaData))) [])
    as [rest ->]; [exact Ts | | discriminate].
  apply or_str_truthy, getMimeType_truthy.
Qed.

(** X6: without a JSON list the menu is never empty (the empty answer of
    the component cannot occur); with a JSON list it is empty exactly when
    no entry of the list has a source. *)
Theorem quality_menu_empty_only_for_json_lists (quality : string) :
  (noJsonList mediaData -> availableQualities mediaData quality <> []) /\
  (forall q l,
     data_field qualities mediaData = Some (q :: l) ->
     (availableQualities mediaData quality = [] <->
      Forall (fun r => truthy_opt (Quality.src (norm mediaData r)) = false)
             (q :: l))).
Proof.
  split.
  - apply menu_without_json_list.
  - intros q l Hq. unfold availableQualities, jsonQualities. rewrite Hq.
    simpl orElse. cbv iota. split.
    + intros E. apply Forall_forall. intros r Hr.
      destruct (truthy_opt (Quality.src (norm mediaData r))) eqn:T;
        [|reflexivity].
      exfalso. now apply (normalize_nonempty (q :: l) r).
    + intros F. rewrite Forall_forall in F.
      destruct (normalize mediaData (q :: l)) as [|e rest] eqn:E;
        [reflexivity|].
      assert (He : In e (normalize mediaData (q :: l)))
        by (rewrite E; now left).
      apply normalize_In in He as (r & Hr & -> & T).
      rewrite (F r Hr) in T. discriminate.
Qed.

End MenuResolver.

(** *** The Auto entry of the menu of renditions *)

Section AutoEntry.

Import JS Sources Menu Spec Derived.

Variable mediaData : media_data.

Lemma label_never_auto (k : string) : toLowerCase (k ++ "p") <> "auto".
Proof.
  rewrite toLowerCase_append. simpl.
  destruct (toLowerCase k) as [|c1 [|c2 [|c3 [|c4 [|c5 r]]]]]; simpl;
    intros E; try discriminate; injection E as _ _ _ E; discriminate.
Qed.

Lemma filter_all {X : Type} (keep : X -> bool) (l : list X) :
  Forall (fun x => keep x = true) l -> filter keep l = l.
Proof.
  induction 1 as [|x l Hx _ IH]; simpl; [reflexivity|].
  now rewrite Hx, IH.
Qed.

(** C2: the Auto entry of the menu of encoded renditions is lost.  For
    every media without a JSON list and without manifest that has encoded
    renditions with a URL, the component builds the menu from a list that
    opens with the Auto entry, as the specification asks, but gives that
    entry no source; [normalize] then drops it with the entries that have
    none, so the menu is the renditions alone: it is not empty, it is a
    rearrangement of the renditions' entries, no entry has the value
    ["auto"], and its first entry is not Auto although a multi-rendition
    source exists. *)
Theorem encoded_menu_drops_auto
  (encodings : obj Raw.encoding) (quality : string) :
  noJsonList mediaData -> noManifest mediaData ->
  data_field encodings_info mediaData = Some encodings ->
  availableKeys encodings <> [] ->
  let menu := availableQualities mediaData quality in
  let auto :=
    autoEntry None (getMimeType None (data_field media_type mediaData)) in
  let renditions :=
    flat_map (encodingEntry mediaData encodings) (keys encodings) in
  menu = normalize mediaData (auto :: renditions) /\
  Raw.value auto = Some "auto" /\ Raw.src auto = None /\
  hasRenditions mediaData /\
  Permutation menu (map (norm mediaData) renditions) /\
  menu <> [] /\
  Forall (fun e => Quality.value e <> "auto") menu /\
  ~ autoFirst menu.
Proof.
  intros Hj Hm He Ha. cbv zeta.
  rewrite (encoding_menu mediaData encodings quality Hj Hm He Ha).
  set (renditions :=
         flat_map (encodingEntry mediaData encodings) (keys encodings)).
  assert (Each : forall r, In r renditions ->
            exists k u, h264_url encodings k = Some u /\
              norm mediaData r
              = {| Quality.label := k ++ "p";
                   Quality.value := toLowerCase (k ++ "p");
                   Quality.src := Some u;
                   Quality.type :=
                     getMimeType (Some u)
                       (data_field media_type mediaData) |}).
  { intros r Hr.
    destruct (encodingEntry_In mediaData encodings r Hr)
      as (k & u & _ & Hu & ->).
    exists k, u. split; [exact Hu|].
    apply norm_qualityEntry;
      [eapply h264_url_truthy; exact Hu | apply getMimeType_truthy]. }
  assert (P : Permutation
                (normalize mediaData
                   (autoEntry None
                      (getMimeType None (data_field media_type mediaData))
                    :: renditions))
                (map (norm mediaData) renditions)).
  { unfold normalize. cbv zeta. rewrite sort_perm. simpl.
    rewrite filter_all; [reflexivity|].
    apply Forall_forall. intros e He'.
    apply in_map_iff in He' as (r & <- & Hr).
    destruct (Each r Hr) as (k & u & Hu & ->). simpl.
    eapply h264_url_truthy. exact Hu. }
  assert (V : Forall (fun e => Quality.value e <> "auto")
                (normalize mediaData
                   (autoEntry None
                      (getMimeType None (data_field media_type mediaData))
                    :: renditions))).
  { apply Forall_forall. intros e He'.
    apply (Permutation_in _ P) in He'.
    apply in_map_iff in He' as (r & <- & Hr).
    destruct (Each r Hr) as (k & u & _ & ->). simpl.
    apply label_never_auto. }
  split; [reflexivity|]. split; [reflexivity|]. split; [reflexivity|].
  split; [exists encodings; split; assumption|].
  split; [exact P|]. split; [|split; [exact V|]].
  - destruct (encodingEntries_exist mediaData encodings Ha) as [r Hr].
    fold renditions in Hr. intros E. rewrite E in P.
    apply Permutation_nil in P.
    destruct renditions; [contradiction | discriminate].
  - intros (e & rest & E & A). rewrite E in V.
    inversion V as [|? ? N _]; subst. contradiction.
Qed.

End AutoEntry.

Section AutoEntrySample.

Import JS Sources Menu Spec.

(** Three renditions and no manifest: the menu is the three renditions. *)
Lemma encoded_menu_sample :
  hasRenditions Samples.encodedOnly /\
  map Quality.value (availableQualities Samples.encodedOnly "auto")
  = ["240p"; "480p"; "720p"] /\
  ~ autoFirst (availableQualities Samples.encodedOnly "auto").
Proof.
  assert (A : availableKeys Samples.renditions <> []) by discriminate.
  destruct (encoded_menu_drops_auto Samples.encodedOnly Samples.renditions
              "auto" (or_introl eq_refl) no_manifest_encodedOnly eq_refl A)
    as (_ & _ & _ & R & _ & _ & _ & N).
  split; [exact R|]. split; [reflexivity | exact N].
Defined.

End AutoEntrySample.

(** *** Autoplay: bounds that hold for every browser *)

Section AutoplayBounds.

Import Autoplay.

Variable browser : policy.

(** The handler with its guard open. *)
Lemma autoplay_skipped_cases (isEmbedPlayer : bool) (param : option string)
  (w : world) :
  isEmbedPlayer = true \/ JS.truthy_opt param = false \/
  current w = None \/ (exists p, current w = Some p /\ disposed p = true) ->
  autoplayOnNavigation browser isEmbedPlayer param w = (Ok tt, w).
Proof.
  unfold autoplayOnNavigation.
  intros [-> | [-> | [N | (p & P & D)]]].
  - reflexivity.
  - rewrite andb_false_r. reflexivity.
  - destruct (negb isEmbedPlayer && JS.truthy_opt param); [|reflexivity].
    unfold playWithFallback, bind, playerAlive. rewrite N. reflexivity.
  - destruct (negb isEmbedPlayer && JS.truthy_opt param); [|reflexivity].
    unfold playWithFallback, bind, playerAlive. rewrite P, D. reflexivity.
Qed.

Lemma world_eta (w : world) :
  w = {| current := current w; trace := (trace w ++ [])%list |}.
Proof. destruct w; simpl. rewrite app_nil_r. reflexivity. Qed.

Local Ltac settle :=
  simpl; rewrite <- ?app_assoc; simpl;
  repeat match goal with
         | |- _ /\ _ => split
         | |- forall _, _ => intro
         | |- ~ _ => intro
         | H : _ \/ _ |- _ => destruct H
         | H : exists _, _ |- _ => destruct H
         | H : _ /\ _ |- _ => destruct H
         | H : False |- _ => destruct H
         | H : Some _ = Some _ |- _ => injection H as H; subst
         | H : In _ _ |- _ => simpl in H
         end;
  simpl in *; try discriminate; try congruence; try lia;
  try (eexists; simpl; eauto; fail);
  try (eexists; split; [reflexivity | simpl; congruence]).

(** X7: whatever the browser answers and whatever the state of the
    player, the navigation autoplay handler returns normally; it only
    appends to what was done before, with at most two calls of [play()];
    for an embed player, without the [m] parameter, and with a missing or
    disposed player it does nothing at all; it mutes the player only
    after a rejected call, and a player that was muted already gets a
    single call and stays muted. *)
Theorem autoplay_returns_within_two_calls (isEmbedPlayer : bool)
  (param : option string) (w : world) :
  exists w' added,
    autoplayOnNavigation browser isEmbedPlayer param w = (Ok tt, w') /\
    trace w' = (trace w ++ added)%list /\
    (List.length (filter isPlayCall added) <= 2)%nat /\
    (isEmbedPlayer = true \/ JS.truthy_opt param = false \/
     current w = None \/ (exists p, current w = Some p /\ disposed p = true) ->
     w' = w) /\
    (forall m, In (MutedSet m) added ->
       m = true /\
       exists message,
         In (ConsoleError "ℹ️ Browser prevented play:" message) added) /\
    (forall p, current w = Some p -> muted p = true ->
       (List.length (filter isPlayCall added) <= 1)%nat /\
       (forall m, ~ In (MutedSet m) added) /\
       exists p', current w' = Some p' /\ muted p' = true).
Proof.
  destruct (negb isEmbedPlayer && JS.truthy_opt param) eqn:G.
  2:{ exists w, []. rewrite autoplay_skipped_cases.
      - rewrite app_nil_r. settle.
      - apply andb_false_iff in G as [G | G]; [left | right; left; exact G].
        destruct isEmbedPlayer; [reflexivity | discriminate]. }
  unfold autoplayOnNavigation. rewrite G.
  apply andb_true_iff in G as [G1 G2].
  destruct isEmbedPlayer; [discriminate|]. clear G1.
  destruct w as [[[m pa d]|] t].
  2:{ exists {| current := None; trace := t |}, []. simpl.
      rewrite app_nil_r. settle. }
  destruct d.
  { exists {| current := Some {| muted := m; paused := pa; disposed := true |};
             trace := t |}, []. simpl.
    rewrite app_nil_r. settle. }
  unfold playWithFallback, bind, playerAlive, tryCatch, play, playCalls;
    simpl.
  destruct (browser (List.length (filter isPlayCall t)) m) as [message|] eqn:B1.
  - unfold consoleError, emit, getMuted, setMuted; simpl.
    destruct m; simpl.
    + eexists; exists [PlayCalled true false;
                       ConsoleError "ℹ️ Browser prevented play:" message].
      split; [reflexivity|]. settle.
    + rewrite <- ?app_assoc; simpl.
      rewrite ?filter_app, ?length_app; simpl.
      destruct (browser _ true) as [mutedMessage|]; simpl.
      * eexists; exists [PlayCalled false false;
                         ConsoleError "ℹ️ Browser prevented play:" message;
                         MutedSet true; PlayCalled true false;
                         ConsoleError "ℹ️ Even muted play was blocked:"
                                      mutedMessage].
        split; [reflexivity|]. settle.
      * eexists; exists [PlayCalled false false;
                         ConsoleError "ℹ️ Browser prevented play:" message;
                         MutedSet true; PlayCalled true true].
        split; [reflexivity|]. settle.
  - eexists; exists [PlayCalled m true].
    split; [reflexivity|]. settle.
Qed.

End AutoplayBounds.

(** *** The timestamp of the URL *)

Section DeeplinkFacts.

Import Deeplink.

Local Open Scope float_scope.

(** X8: the two paths of the URL timestamp handler (metadata already
    loaded, or awaited) issue the same commands once the duration is
    known: a timestamp that is absent, negative or not a number does
    nothing; otherwise the player seeks to the timestamp when it lies
    before the duration and is asked to play when it does not (also when
    the duration is not a number).  So at most one command is issued and
    a seek target always lies in [0, duration). *)
Theorem url_timestamp_seek_or_play (urlTimestamp : option float)
  (readyState : Z) (duration : float) :
  let commands :=
    commandsAt (handleUrlTimestamp urlTimestamp readyState duration)
               duration in
  commands
  = match urlTimestamp with
    | Some timestamp =>
        if 0 <=? timestamp
        then if timestamp <? duration then [CurrentTime timestamp]
             else [Play]
        else []
    | None => []
    end /\
  (List.length commands <= 1)%nat /\
  (forall t, In (CurrentTime t) commands ->
     urlTimestamp = Some t /\ (0 <=? t) = true /\ (t <? duration) = true) /\
  (In Play commands ->
     exists t, urlTimestamp = Some t /\ (0 <=? t) = true /\
               (t <? duration) = false).
Proof.
  unfold handleUrlTimestamp, commandsAt, seekNow, seekOnMetadata.
  destruct urlTimestamp as [t|]; simpl.
  2:{ repeat split; auto; intros; contradiction. }
  destruct (0 <=? t) eqn:P; simpl.
  2:{ repeat split; auto; intros; contradiction. }
  destruct (1 <=? readyState)%Z; simpl; rewrite ?P;
    destruct (t <? duration) eqn:L; simpl;
    (split; [reflexivity|]); (split; [lia|]); split.
  all: try (intros t' [E | []]; try discriminate;
            injection E as <-; auto).
  all: try (intros [E | []]; try discriminate; exists t; auto).
Qed.

(** A link to 1:30 into a video of one minute plays from the start. *)
Lemma url_timestamp_sample :
  commandsAt (handleUrlTimestamp (Some 90) 4 60) 60 = [Play].
Proof.
  exact (proj1 (url_timestamp_seek_or_play (Some 90) 4 60)).
Defined.

End DeeplinkFacts.

(** *** Menus that open on click *)

Section PopupFacts.

Import Popups.

Lemma displayed_none (l : menus) :
  displayed (map (fun _ => "none") l) = 0%nat.
Proof. unfold displayed. induction l; simpl; auto. Qed.

Lemma hideOthers_length (i : nat) (l : menus) :
  List.length (hideOthers i l) = List.length l.
Proof.
  revert i; induction l as [|d r IH]; intros [|j]; simpl; auto.
  now rewrite length_map.
Qed.

Lemma hide_length (i : nat) (l : menus) :
  List.length (hide i l) = List.length l.
Proof. revert i; induction l as [|d r IH]; intros [|j]; simpl; auto. Qed.

Lemma hideOthers_shows (i : nat) (l : menus) (d : string) :
  nth_error l i = Some d ->
  displayed (hideOthers i l) = 1%nat /\
  nth_error (hideOthers i l) i = Some "block".
Proof.
  revert i; induction l as [|x r IH]; intros [|j] H; simpl in *;
    try discriminate.
  - split; [|reflexivity].
    unfold displayed; simpl. f_equal. apply displayed_none.
  - apply IH in H as [H1 H2]. split; [|exact H2].
    unfold displayed in *; simpl. exact H1.
Qed.

Lemma hide_hides (i : nat) (l : menus) :
  nth_error l i = Some "block" ->
  S (displayed (hide i l)) = displayed l /\
  nth_error (hide i l) i = Some "none".
Proof.
  revert i; induction l as [|x r IH]; intros [|j] H; simpl in *;
    try discriminate.
  - injection H as ->. split; reflexivity.
  - apply IH in H as [H1 H2]. split; [|exact H2].
    unfold displayed in *; simpl.
    destruct (String.eqb x "block"); simpl; congruence.
Qed.

Lemma hideOthers_others (i j : nat) (l : menus) (d : string) :
  nth_error l i = Some d -> j <> i -> (j < List.length l)%nat ->
  nth_error (hideOthers i l) j = Some "none".
Proof.
  revert i j; induction l as [|x r IH]; intros [|i] [|j] H N L;
    simpl in *; try discriminate; try lia; try reflexivity.
  - rewrite nth_error_map.
    destruct (nth_error r j) eqn:E; [reflexivity|].
    apply nth_error_None in E. lia.
  - apply (IH i j H); lia.
Qed.

Lemma hide_others (i j : nat) (l : menus) :
  j <> i -> nth_error (hide i l) j = nth_error l j.
Proof.
  revert i j; induction l as [|x r IH]; intros [|i] [|j] N;
    simpl; try reflexivity; try lia.
  apply IH. lia.
Qed.

(** X9: a click on a button that shows its own menu leaves at most one
    menu displayed in the whole document: the number of menus does not
    change; a click on a menu that is not displayed sets it to 'block' and
    every other menu of the document to 'none'; a click on a displayed
    menu sets it to 'none' and leaves every other menu as it is; a button
    without a menu changes nothing; so pages that start with at most one
    menu displayed keep that property, and two clicks on the same button
    leave its menu hidden. *)
Theorem click_leaves_at_most_one_menu (menu : option nat) (l : menus) :
  List.length (click menu l) = List.length l /\
  (forall i d, menu = Some i -> nth_error l i = Some d -> d <> "block" ->
     displayed (click menu l) = 1%nat /\
     nth_error (click menu l) i = Some "block" /\
     forall j, j <> i -> (j < List.length l)%nat ->
               nth_error (click menu l) j = Some "none") /\
  (forall i, menu = Some i -> nth_error l i = Some "block" ->
     S (displayed (click menu l)) = displayed l /\
     nth_error (click menu l) i = Some "none" /\
     forall j, j <> i -> nth_error (click menu l) j = nth_error l j) /\
  (menu = None -> click menu l = l) /\
  ((displayed l <= 1)%nat -> (displayed (click menu l) <= 1)%nat) /\
  (forall i d, menu = Some i -> nth_error l i = Some d -> d <> "block" ->
     displayed (click menu (click menu l)) = 0%nat).
Proof.
  assert (A : forall i d, nth_error l i = Some d -> d <> "block" ->
              click (Some i) l = hideOthers i l).
  { intros i d H N. unfold click. rewrite H.
    destruct (String.eqb_spec d "block"); [contradiction | reflexivity]. }
  assert (B : forall i, nth_error l i = Some "block" ->
              click (Some i) l = hide i l).
  { intros i H. unfold click. rewrite H. reflexivity. }
  split; [|split; [|split; [|split; [|split]]]].
  - destruct menu as [i|]; simpl; [|reflexivity].
    destruct (nth_error l i) as [d|]; [|reflexivity].
    destruct (String.eqb d "block");
      [apply hide_length | apply hideOthers_length].
  - intros i d -> H N. rewrite (A i d H N).
    destruct (hideOthers_shows i l d H) as [H1 H2].
    split; [exact H1|]. split; [exact H2|].
    intros j Nj Lj. now apply (hideOthers_others i j l d).
  - intros i -> H. rewrite (B i H).
    destruct (hide_hides i l H) as [H1 H2].
    split; [exact H1|]. split; [exact H2|].
    intros j Nj. now apply hide_others.
  - intros ->. reflexivity.
  - intros D. destruct menu as [i|]; simpl; [|exact D].
    destruct (nth_error l i) as [d|] eqn:H; [|exact D].
    destruct (String.eqb_spec d "block") as [->|N].
    + apply hide_hides in H as [H _]. lia.
    + apply (hideOthers_shows i l d) in H as [H _]. lia.
  - intros i d -> H N. rewrite (A i d H N).
    destruct (hideOthers_shows i l d H) as [H1 H2].
    unfold click at 1. rewrite H2. simpl.
    apply hide_hides in H2 as [H2 _]. lia.
Qed.

(** The second of three menus is opened while the third is displayed:
    the third is hidden. *)
Lemma click_sample :
  displayed (click (Some 1%nat) [""; ""; "block"]) = 1%nat /\
  nth_error (click (Some 1%nat) [""; ""; "block"]) 1 = Some "block" /\
  nth_error (click (Some 1%nat) [""; ""; "block"]) 2 = Some "none".
Proof.
  destruct (proj1 (proj2 (click_leaves_at_most_one_menu
                            (Some 1%nat) [""; ""; "block"]))
              1%nat "" eq_refl eq_refl) as (D & O & H).
  - discriminate.
  - split; [exact D|]. split; [exact O|].
    apply H; [discriminate | simpl; lia].
Defined.

End PopupFacts.

(** *** The captions toggle *)

Section CaptionFacts.

Import JS Captions Stated.

Variable storeFails : string -> prefValue -> bool.

Lemma disableSubtitles_quiet (l : list textTrack) :
  anyShowing (disableSubtitles l) = false.
Proof.
  unfold anyShowing, disableSubtitles.
  induction l as [|t r IH]; simpl; [reflexivity|].
  rewrite IH, orb_false_r.
  destruct t as [[] m g]; reflexivity.
Qed.

Lemma showLanguage_anyShowing (lang : string) (l : list textTrack) :
  anyShowing (showLanguage lang l)
  = existsb (fun t => isSubtitles t && String.eqb (language t) lang) l.
Proof.
  unfold anyShowing, showLanguage.
  induction l as [|t r IH]; simpl; [reflexivity|].
  rewrite IH. f_equal.
  destruct t as [[] m g]; simpl; try reflexivity.
  destruct (String.eqb g lang); reflexivity.
Qed.

Lemma firstLanguage_found (l : list textTrack) (first : string) :
  firstLanguage l = Some first ->
  existsb (fun t => isSubtitles t && String.eqb (language t) first) l = true.
Proof.
  induction l as [|t r IH]; simpl; [discriminate|].
  destruct (isSubtitles t) eqn:S; simpl.
  - intros [= <-]. rewrite String.eqb_refl. reflexivity.
  - intros H. apply IH, H.
Qed.

Lemma anyShowing_false (l : list textTrack) (t : textTrack) :
  anyShowing l = false -> In t l -> isSubtitles t = true ->
  mode t <> Showing.
Proof.
  unfold anyShowing. intros A I S M.
  assert (E : existsb (fun t => isSubtitles t && isShowing t) l = true).
  { apply existsb_exists. exists t. split; [exact I|].
    unfold isShowing. rewrite S, M. reflexivity. }
  congruence.
Qed.

(** The tracks after a click, branch by branch. *)
Lemma toggleSubs_tracks (preferred : option string) (u : ui) :
  tracks (toggleSubs storeFails preferred u)
  = if anyShowing (tracks u) then disableSubtitles (tracks u)
    else match chosenLanguage preferred (tracks u) with
         | Some lang => showLanguage lang (tracks u)
         | None => tracks u
         end.
Proof.
  unfold toggleSubs, chosenLanguage.
  destruct (anyShowing (tracks u)); [reflexivity|].
  destruct (truthy_opt preferred) eqn:P.
  - destruct preferred as [p|]; [|discriminate].
    destruct (existsb _ _); reflexivity.
  - destruct (firstLanguage (tracks u)) as [first|]; [|reflexivity].
    destruct (truthy_str first); reflexivity.
Qed.

(** X10: a click on the captions button changes nothing but the mode of
    subtitles tracks: the tracks keep their number, order, kinds and
    languages, and every track of another kind (captions, descriptions,
    chapters, metadata) is left exactly as it was, a showing one too. *)
Theorem toggleSubs_touches_only_subtitles (preferred : option string)
  (u : ui) :
  Forall2 (fun before after =>
             kind after = kind before /\
             language after = language before /\
             (isSubtitles before = false -> after = before))
          (tracks u) (tracks (toggleSubs storeFails preferred u)).
Proof.
  rewrite toggleSubs_tracks.
  assert (Same : forall l : list textTrack,
            Forall2 (fun before after =>
                       kind after = kind before /\
                       language after = language before /\
                       (isSubtitles before = false -> after = before)) l l).
  { induction l; constructor; auto. }
  assert (Mapped : forall (f : textTrack -> trackMode) (l : list textTrack),
            Forall2 (fun before after =>
                       kind after = kind before /\
                       language after = language before /\
                       (isSubtitles before = false -> after = before)) l
              (map (fun t => if isSubtitles t then setMode (f t) t else t)
                   l)).
  { intros f l. induction l as [|t r IH]; simpl; constructor; auto.
    destruct (isSubtitles t) eqn:S; simpl; auto.
    repeat split; auto. discriminate. }
  destruct (anyShowing (tracks u)).
  - apply (Mapped (fun _ => Disabled)).
  - destruct (chosenLanguage preferred (tracks u)) as [lang|]; [|apply Same].
    apply (Mapped (fun t => if String.eqb (language t) lang
                            then Showing else Disabled)).
Qed.

(** X11: the underline of the captions button follows the tracks: when
    the button is marked active exactly when some subtitles track is
    showing, the same holds after a click, so the [texttrackchange]
    listener has nothing to correct. *)
Theorem toggleSubs_keeps_underline_in_sync (preferred : option string)
  (u : ui) :
  active u = anyShowing (tracks u) ->
  let u' := toggleSubs storeFails preferred u in
  active u' = anyShowing (tracks u') /\ syncUnderline u' = u'.
Proof.
  intros I.
  assert (G : active (toggleSubs storeFails preferred u)
              = anyShowing (tracks (toggleSubs storeFails preferred u))).
  { unfold toggleSubs.
    destruct (anyShowing (tracks u)) eqn:A; simpl.
    - symmetry. apply disableSubtitles_quiet.
    - destruct (truthy_opt preferred) eqn:P.
      + destruct preferred as [p|]; [|discriminate].
        destruct (existsb _ _) eqn:F; simpl;
          rewrite showLanguage_anyShowing, F; congruence.
      + destruct (firstLanguage (tracks u)) as [first|] eqn:Fl;
          [|congruence].
        destruct (truthy_str first); [|congruence]. simpl.
        rewrite showLanguage_anyShowing.
        symmetry. apply firstLanguage_found, Fl. }
  split; [exact G|].
  unfold syncUnderline. cbv zeta. rewrite <- G.
  destruct (toggleSubs storeFails preferred u); reflexivity.
Qed.

(** X12: which subtitles are on after a click.  A subtitles track is
    showing afterwards exactly when none was showing before and its
    language is, character for character, the chosen one: the saved
    language, else the language of the first subtitles track.  So a click
    while subtitles are on turns all of them off, and a saved language
    that no track carries exactly turns none on. *)
Theorem toggleSubs_shows_the_chosen_language (preferred : option string)
  (u : ui) (t : textTrack) :
  In t (tracks (toggleSubs storeFails preferred u)) ->
  isSubtitles t = true ->
  (mode t = Showing <->
   anyShowing (tracks u) = false /\
   chosenLanguage preferred (tracks u) = Some (language t)).
Proof.
  rewrite toggleSubs_tracks.
  destruct (anyShowing (tracks u)) eqn:A.
  - intros I S. split; [|intros [? _]; discriminate].
    intros M. exfalso.
    apply (anyShowing_false _ t (disableSubtitles_quiet (tracks u)) I S M).
  - destruct (chosenLanguage preferred (tracks u)) as [lang|].
    + unfold showLanguage. intros I S.
      apply in_map_iff in I as (b & <- & _).
      destruct (isSubtitles b) eqn:Sb; simpl.
      * destruct (String.eqb_spec (language b) lang) as [E|N]; simpl.
        -- split; [intros _; split; congruence | reflexivity].
        -- split; [discriminate|]. intros [_ [= E]]. congruence.
      * congruence.
    + intros I S. split; [|intros [_ ?]; discriminate].
      intros M. exfalso. apply (anyShowing_false _ t A I S M).
Qed.

Lemma writes_setPreference (key : string) (value : prefValue)
  (text : string) (effects : list effect) :
  writes (setPreference storeFails key value text effects)
  = (writes effects ++ [SetPreference key value true])%list.
Proof.
  unfold writes, setPreference. rewrite filter_app. simpl.
  destruct (storeFails key value); reflexivity.
Qed.

Lemma showLanguage_after_disable (lang : string) (l : list textTrack) :
  showLanguage lang (disableSubtitles l) = showLanguage lang l.
Proof.
  unfold showLanguage, disableSubtitles. rewrite map_map.
  apply map_ext. intros [[] m g]; reflexivity.
Qed.

Lemma showLanguage_settled (lang : string) (l : list textTrack) :
  settledOn lang l -> showLanguage lang l = l.
Proof.
  unfold settledOn, showLanguage. induction l as [|t r IH]; intros H;
    simpl; [reflexivity|].
  rewrite IH by (intros x I; apply H; right; exact I). f_equal.
  destruct (isSubtitles t) eqn:S; [|reflexivity].
  destruct (H t (or_introl eq_refl) S) as [[H1 H2] H3].
  destruct t as [k m g]; unfold setMode; simpl in *.
  destruct (String.eqb_spec g lang) as [E|N].
  - rewrite (H2 E). reflexivity.
  - destruct m; try reflexivity; [contradiction | tauto].
Qed.

Lemma settled_found (lang : string) (l : list textTrack) :
  settledOn lang l -> anyShowing l = true ->
  existsb (fun t => isSubtitles t && String.eqb (language t) lang)
          (disableSubtitles l) = true.
Proof.
  unfold anyShowing. intros H A.
  apply existsb_exists in A as (t & I & T).
  apply andb_true_iff in T as [S M].
  apply existsb_exists. exists (setMode Disabled t). split.
  - unfold disableSubtitles. apply in_map_iff. exists t.
    rewrite S. split; [reflexivity | exact I].
  - destruct (H t I S) as [[H1 _] _].
    unfold isShowing in M. destruct t as [k m g]; simpl in *.
    destruct m; try discriminate.
    rewrite (H1 eq_refl), String.eqb_refl.
    unfold isSubtitles in *; simpl in *. rewrite S. reflexivity.
Qed.

(** X13: off and on again.  With a saved language and the subtitles
    tracks showing exactly that language, a first click turns every
    subtitles track off and a second one brings every track back to
    where it was, with the button underlined; the store is told
    [subtitleEnabled] false, then true, and the saved language is never
    written. *)
Theorem toggleSubs_off_then_on (lang : string) (u : ui) :
  truthy_str lang = true ->
  anyShowing (tracks u) = true ->
  settledOn lang (tracks u) ->
  let off := toggleSubs storeFails (Some lang) u in
  let on := toggleSubs storeFails (Some lang) off in
  anyShowing (tracks off) = false /\ active off = false /\
  tracks on = tracks u /\ active on = true /\
  writes (log on)
  = (writes (log u)
     ++ [ SetPreference "subtitleEnabled" (PBool false) true;
          SetPreference "subtitleEnabled" (PBool true) true ])%list.
Proof.
  intros T A S. cbv zeta.
  assert (Off : toggleSubs storeFails (Some lang) u
                = {| tracks := disableSubtitles (tracks u);
                     active := false;
                     log := setPreference storeFails "subtitleEnabled"
                              (PBool false)
                              "✗ Failed to set subtitleEnabled to false:"
                              (log u) |}).
  { unfold toggleSubs. rewrite A. reflexivity. }
  rewrite Off. simpl.
  split; [apply disableSubtitles_quiet|]. split; [reflexivity|].
  unfold toggleSubs at 1 2 3. simpl.
  rewrite disableSubtitles_quiet, T, (settled_found lang _ S A). simpl.
  rewrite showLanguage_after_disable, (showLanguage_settled lang _ S).
  split; [reflexivity|]. split; [reflexivity|].
  rewrite !writes_setPreference, <- app_assoc. reflexivity.
Qed.

(** X14: what a click writes.  The click only adds to the effects; the
    language is written only when none was saved, and then it is the
    language of the first subtitles track; a written [subtitleEnabled]
    flag says whether subtitles are showing after the click; an error is
    logged only for a write that failed; and a failing store changes
    neither the tracks nor the underline. *)
Theorem toggleSubs_writes (preferred : option string) (u : ui) :
  let u' := toggleSubs storeFails preferred u in
  exists added,
    log u' = (log u ++ added)%list /\
    (forall value explicit,
       In (SetPreference "subtitleLanguage" value explicit) added ->
       truthy_opt preferred = false /\
       exists first,
         firstLanguage (tracks u) = Some first /\ value = PString first) /\
    (forall b explicit,
       In (SetPreference "subtitleEnabled" (PBool b) explicit) added ->
       b = anyShowing (tracks u')) /\
    (forall text, In (ConsoleError text) added ->
       exists key value,
         In (SetPreference key value true) added /\
         storeFails key value = true) /\
    (forall otherStore,
       tracks (toggleSubs otherStore preferred u) = tracks u' /\
       active (toggleSubs otherStore preferred u) = active u').
Proof.
  cbv zeta. unfold toggleSubs.
  destruct (anyShowing (tracks u)) eqn:A.
  - unfold setPreference. eexists. split; [reflexivity|]. simpl.
    rewrite disableSubtitles_quiet.
    split; [|split; [|split]].
    + intros v e [H|H]; [discriminate|].
      destruct (storeFails _ _); simpl in H; intuition discriminate.
    + intros b e [H|H]; [congruence|].
      destruct (storeFails _ _); simpl in H; intuition discriminate.
    + intros text [H|H]; [discriminate|].
      destruct (storeFails _ _) eqn:F; [|destruct H].
      do 2 eexists. split; [left; reflexivity | exact F].
    + intros o. split; reflexivity.
  - destruct (truthy_opt preferred) eqn:P.
    + destruct preferred as [p|]; [|discriminate].
      destruct (existsb _ _) eqn:F; simpl.
      * unfold setPreference. eexists. split; [reflexivity|]. simpl.
        rewrite showLanguage_anyShowing, F.
        split; [|split; [|split]].
        -- intros v e [H|H]; [discriminate|].
           destruct (storeFails _ _); simpl in H; intuition discriminate.
        -- intros b e [H|H]; [congruence|].
           destruct (storeFails _ _); simpl in H; intuition discriminate.
        -- intros text [H|H]; [discriminate|].
           destruct (storeFails _ _) eqn:G; [|destruct H].
           do 2 eexists. split; [left; reflexivity | exact G].
        -- intros o. split; reflexivity.
      * exists []. rewrite app_nil_r. split; [reflexivity|].
        repeat split; intros; contradiction.
    + assert (Idle : exists added : list effect,
                log u = (log u ++ added)%list /\
                (forall value explicit,
                   In (SetPreference "subtitleLanguage" value explicit)
                      added ->
                   false = false /\
                   exists first,
                     firstLanguage (tracks u) = Some first /\
                     value = PString first) /\
                (forall b explicit,
                   In (SetPreference "subtitleEnabled" (PBool b) explicit)
                      added -> b = anyShowing (tracks u)) /\
                (forall text, In (ConsoleError text) added ->
                   exists key value,
                     In (SetPreference key value true) added /\
                     storeFails key value = true) /\
                (forall otherStore : string -> prefValue -> bool,
                   tracks u = tracks u /\ active u = active u)).
      { exists []. rewrite app_nil_r. split; [reflexivity|].
        repeat split; intros; contradiction. }
      destruct (firstLanguage (tracks u)) as [first|] eqn:Fl;
        [|destruct preferred; exact Idle].
      destruct (truthy_str first) eqn:Tf;
        [|destruct preferred; exact Idle].
      clear Idle.
      simpl.
      unfold setPreference. rewrite <- app_assoc.
      eexists. split; [reflexivity|]. simpl.
      rewrite showLanguage_anyShowing, (firstLanguage_found _ _ Fl).
      split; [|split; [|split]].
      * intros v e H. split; [reflexivity|]. exists first.
        split; [reflexivity|].
        destruct H as [H|H]; [congruence|].
        apply in_app_iff in H as [H|H].
        -- destruct (storeFails _ _); simpl in H; intuition discriminate.
        -- destruct H as [H|H]; [discriminate|].
           destruct (storeFails _ _); simpl in H; intuition discriminate.
      * intros b e [H|H]; [discriminate|].
        apply in_app_iff in H as [H|H].
        -- destruct (storeFails _ _); simpl in H; intuition discriminate.
        -- destruct H as [H|H]; [congruence|].
           destruct (storeFails _ _); simpl in H; intuition discriminate.
      * intros text [H|H]; [discriminate|].
        apply in_app_iff in H as [H|H].
        -- destruct (storeFails "subtitleLanguage" _) eqn:G; [|destruct H].
           do 2 eexists. split; [left; reflexivity | exact G].
        -- destruct H as [H|H]; [discriminate|].
           destruct (storeFails "subtitleEnabled" _) eqn:G; [|destruct H].
           do 2 eexists. split; [|exact G].
           right. apply in_or_app. right. left. reflexivity.
      * intros o. split; reflexivity.
Qed.

End CaptionFacts.

(** *** The subtitle tracks handed to the player *)

Section TrackFacts.

Import JS Tracks Stated.

Variable isDevMode : bool.
Variable subtitles_info : option (list backend).

Lemma subtitleTracks_map :
  subtitleTracks isDevMode subtitles_info
  = map (fun track =>
           {| kind := "subtitles";
              src := b_src track;
              srclang := b_srclang track;
              label := b_label track;
              default := or_bool (b_default track) false |})
        (backendSubtitles isDevMode subtitles_info).
Proof.
  unfold subtitleTracks, hasSubtitles.
  destruct (backendSubtitles isDevMode subtitles_info); reflexivity.
Qed.

Lemma or_bool_backendDefault (b : backend) :
  or_bool (b_default b) false = backendDefault b.
Proof. unfold backendDefault. destruct (b_default b) as [[|]|]; reflexivity. Qed.

Lemma subtitleTracks_describes :
  Forall2 (fun b t => describes b t /\ default t = backendDefault b)
          (backendSubtitles isDevMode subtitles_info)
          (subtitleTracks isDevMode subtitles_info).
Proof.
  rewrite subtitleTracks_map.
  induction (backendSubtitles isDevMode subtitles_info) as [|b r IH];
    simpl; constructor; [|exact IH].
  split; [repeat split | apply or_bool_backendDefault].
Qed.

Lemma tracksToAdd_describes (enabled : bool) (savedLang : option string) :
  Forall2 (fun b t => describes b t /\
                      default t = preferred enabled savedLang b)
          (backendSubtitles isDevMode subtitles_info)
          (tracksToAdd enabled savedLang
             (subtitleTracks isDevMode subtitles_info)).
Proof.
  rewrite subtitleTracks_map. unfold tracksToAdd. rewrite map_map.
  induction (backendSubtitles isDevMode subtitles_info) as [|b r IH];
    simpl; constructor; [|exact IH].
  split; [repeat split | reflexivity].
Qed.

Lemma described_from (bs : list backend) (l : list t) :
  Forall2 (fun b t => describes b t /\ True) bs l ->
  Forall (fun t => exists b, In b bs /\ describes b t) l.
Proof.
  intros F. induction F as [|b t r r' [D _] _ IH]; constructor.
  - exists b. split; [now left | exact D].
  - eapply Forall_impl; [|exact IH]. intros t' (b' & I & D').
    exists b'. split; [now right | exact D'].
Qed.

Lemma addEach_all (throws : nat -> bool) (n : nat) (l : list t) :
  (forall k, (n <= k)%nat -> throws k = false) ->
  addEach throws n l = (l, true).
Proof.
  revert n. induction l as [|x r IH]; intros n H; simpl; [reflexivity|].
  rewrite (H n) by lia. rewrite IH; [reflexivity|].
  intros k L. apply H. lia.
Qed.

Lemma addEach_stops (throws : nat -> bool) (n k : nat) (l : list t) :
  (forall j, (n <= j < n + k)%nat -> throws j = false) ->
  throws (n + k)%nat = true -> (k < List.length l)%nat ->
  addEach throws n l = (firstn k l, false).
Proof.
  revert n k. induction l as [|x r IH]; intros n k H T L; simpl in L;
    [lia|].
  destruct k as [|k]; simpl.
  - rewrite Nat.add_0_r in T. now rewrite T.
  - rewrite (H n) by lia.
    rewrite (IH (S n) k); [reflexivity | | | lia].
    + intros j B. apply H. lia.
    + replace (S n + k)%nat with (n + S k)%nat by lia. exact T.
Qed.

(** X15: the subtitle tracks given to the player.  Each is a backend
    track (the demo tracks in development mode without backend tracks),
    of kind subtitles with its file, language code and label.  When the
    preferences can be read and no call of [addRemoteTextTrack] throws,
    the player gets one track for each backend track, in order, and
    which is marked default is decided by the preferences alone, not by
    the default flag of the backend: with subtitles disabled or no saved
    language none is, and a track is marked only when it has a non-empty
    language code.  When reading the preferences throws, the player gets
    the same tracks with the default flags of the backend.  When a call
    of [addRemoteTextTrack] throws, the tracks added before it stay and
    all the tracks are added again, with the flags of the backend. *)
Theorem tracksToAdd_defaults_follow_preferences
  (preferences : option (bool * option string)) (throws : nat -> bool) :
  let offered := backendSubtitles isDevMode subtitles_info in
  let given := addSubtitleTracks isDevMode subtitles_info preferences throws in
  Forall (fun t => exists b, In b offered /\ describes b t) (fst given) /\
  (forall enabled savedLang,
     preferences = Some (enabled, savedLang) -> neverThrows throws ->
     snd given = true /\
     Forall2 (fun b t => describes b t /\
                         default t = preferred enabled savedLang b)
             offered (fst given) /\
     (enabled = false \/ truthy_opt savedLang = false ->
      Forall (fun t => default t = false) (fst given)) /\
     (forall t, In t (fst given) -> default t = true ->
        exists code, srclang t = Some code /\ truthy_str code = true)) /\
  (preferences = None -> neverThrows throws ->
   snd given = true /\
   Forall2 (fun b t => describes b t /\ default t = backendDefault b)
           offered (fst given)) /\
  (forall enabled savedLang k,
     preferences = Some (enabled, savedLang) ->
     (k < List.length offered)%nat ->
     throws k = true -> (forall j, j <> k -> throws j = false) ->
     given
     = ((firstn k (tracksToAdd enabled savedLang
                     (subtitleTracks isDevMode subtitles_info))
         ++ subtitleTracks isDevMode subtitles_info)%list, true)).
Proof.
  cbv zeta.
  pose proof subtitleTracks_describes as P.
  assert (Len : List.length (subtitleTracks isDevMode subtitles_info)
                = List.length (backendSubtitles isDevMode subtitles_info)).
  { symmetry. eapply Forall2_length. exact P. }
  assert (Empty : hasSubtitles isDevMode subtitles_info = false ->
                  backendSubtitles isDevMode subtitles_info = [] /\
                  subtitleTracks isDevMode subtitles_info = []).
  { unfold subtitleTracks, hasSubtitles. intros E. rewrite E.
    destruct (backendSubtitles isDevMode subtitles_info);
      [split; reflexivity | discriminate]. }
  assert (From : forall l,
            Forall2 (fun b t => describes b t /\ True) 
              (backendSubtitles isDevMode subtitles_info) l ->
            Forall (fun t => exists b,
                      In b (backendSubtitles isDevMode subtitles_info) /\
                      describes b t) l).
  { apply described_from. }
  assert (Plain : Forall (fun t => exists b,
                            In b (backendSubtitles isDevMode subtitles_info)
                            /\ describes b t)
                    (subtitleTracks isDevMode subtitles_info)).
  { apply From. eapply Forall2_impl; [|exact P]. intros b t [D _]. auto. }
  assert (Marked : forall enabled savedLang,
            Forall (fun t => exists b,
                      In b (backendSubtitles isDevMode subtitles_info)
                      /\ describes b t)
              (tracksToAdd enabled savedLang
                 (subtitleTracks isDevMode subtitles_info))).
  { intros enabled savedLang. apply From.
    eapply Forall2_impl; [|apply tracksToAdd_describes].
    intros b t [D _]. auto. }
  split; [|split; [|split]].
  - unfold addSubtitleTracks.
    destruct (hasSubtitles isDevMode subtitles_info); [|constructor].
    assert (Sub : forall n l,
              Forall (fun t => exists b,
                        In b (backendSubtitles isDevMode subtitles_info)
                        /\ describes b t) l ->
              Forall (fun t => exists b,
                        In b (backendSubtitles isDevMode subtitles_info)
                        /\ describes b t) (fst (addEach throws n l))).
    { intros n l F. revert n. induction F as [|x r Hx _ IH]; intros n;
        simpl; [constructor|].
      destruct (throws n); [constructor|].
      specialize (IH (S n)).
      destruct (addEach throws (S n) r) as [a d]. simpl in *.
      constructor; assumption. }
    destruct preferences as [[enabled savedLang]|].
    + pose proof (Sub 0%nat _ (Marked enabled savedLang)) as F1.
      destruct (addEach throws 0 _) as [a d]. simpl in F1.
      destruct d; [exact F1|].
      pose proof (Sub (S (List.length a)) _ Plain) as F2.
      destruct (addEach throws (S (List.length a)) _) as [a' d'].
      simpl in *. apply Forall_app. split; assumption.
    + pose proof (Sub 0%nat _ Plain) as F2.
      destruct (addEach throws 0 _) as [a' d']. exact F2.
  - intros enabled savedLang -> R. unfold addSubtitleTracks.
    destruct (hasSubtitles isDevMode subtitles_info) eqn:H.
    + rewrite addEach_all by (intros; apply R). simpl.
      split; [reflexivity|]. split; [apply tracksToAdd_describes|].
      split.
      * intros D. apply Forall_forall. intros t I.
        unfold tracksToAdd in I. apply in_map_iff in I as (x & <- & _).
        simpl. unfold Subtitles.defaultFlag.
        destruct D as [-> | ->]; [reflexivity | now rewrite andb_false_r].
      * intros t I D. unfold tracksToAdd in I.
        apply in_map_iff in I as (x & <- & _). simpl in *.
        unfold Subtitles.defaultFlag in D.
        apply andb_true_iff in D as [_ D].
        unfold Subtitles.matchLang, Subtitles.trackLang, languageOf in D.
        simpl in D.
        destruct (srclang x) as [code|]; [|discriminate].
        exists code. split; [reflexivity|].
        destruct code as [|c code]; [discriminate | reflexivity].
    + destruct (Empty eq_refl) as [-> _]. simpl.
      split; [reflexivity|]. split; [constructor|].
      split; [constructor | contradiction].
  - intros -> R. unfold addSubtitleTracks.
    destruct (hasSubtitles isDevMode subtitles_info) eqn:H.
    + rewrite addEach_all by (intros; apply R). simpl.
      split; [reflexivity | exact P].
    + destruct (Empty eq_refl) as [-> _]. simpl. split; [reflexivity|constructor].
  - intros enabled savedLang k -> L T O. unfold addSubtitleTracks.
    destruct (hasSubtitles isDevMode subtitles_info) eqn:H.
    2:{ destruct (Empty eq_refl) as [E _]. rewrite E in L. simpl in L. lia. }
    rewrite (addEach_stops throws 0 k).
    + rewrite addEach_all; [reflexivity|].
      intros j B. apply O.
      rewrite length_firstn in B. unfold tracksToAdd in B.
      rewrite length_map, Len in B. lia.
    + intros j B. apply O. lia.
    + exact T.
    + unfold tracksToAdd. rewrite length_map, Len. exact L.
Qed.

End TrackFacts.

Section TrackSamples.

Import JS Tracks Stated.

(** The backend marks the French track default; with subtitles disabled
    the player is given it unmarked, and marked when the preferences
    cannot be read. *)
Lemma tracksToAdd_sample :
  Forall (fun t => default t = false)
         (fst (addSubtitleTracks false (Some [Scenes.french])
                 (Some (false, Some "fr")) (fun _ => false))) /\
  Forall2 (fun b t => describes b t /\ default t = backendDefault b)
          [Scenes.french]
          (fst (addSubtitleTracks false (Some [Scenes.french]) None
                  (fun _ => false))).
Proof.
  split.
  - apply (proj1 (proj2 (tracksToAdd_defaults_follow_preferences
                           false (Some [Scenes.french])
                           (Some (false, Some "fr")) (fun _ => false)))
             false (Some "fr") eq_refl).
    + intros n. reflexivity.
    + left. reflexivity.
  - apply (proj1 (proj2 (proj2 (tracksToAdd_defaults_follow_preferences
                                  false (Some [Scenes.french]) None
                                  (fun _ => false))))).
    + reflexivity.
    + intros n. reflexivity.
Defined.

(** A call that throws on the second of two tracks: the first stays, and
    both are added again. *)
Example tracks_added_twice :
  map label
    (fst (addSubtitleTracks true None (Some (true, Some "el"))
            (fun n => Nat.eqb n 1)))
  = [ Some "English Subtitles"; Some "English Subtitles";
      Some "Greek Subtitles (Ελληνικά)" ].
Proof. reflexivity. Qed.

End TrackSamples.

(** *** Refreshing the settings menu *)

Section RefreshFacts.

Import JS Menu Refresh Spec.

Variable mediaData : media_data.

Lemma normalize_length (arr : list Raw.quality) :
  (List.length (normalize mediaData arr) <= List.length arr)%nat.
Proof.
  unfold normalize. cbv zeta. rewrite sort_length.
  induction arr as [|r l IH]; simpl; [lia|].
  destruct (truthy_opt _); simpl; lia.
Qed.

(** X16: what the [loadedmetadata] refresh hands to the settings menu,
    for the descriptor the menu was built from.  Without a [qualities]
    field it is the menu itself; with one it is the raw list, not the
    menu: for a non-empty list the menu has at most as many entries
    (entries without a source are still in the list), and for an empty
    list the menu, which is built from the other sources and is not
    empty, is replaced by no entries at all. *)
Theorem refresh_hands_over_the_raw_list (quality : string) :
  let menu := availableQualities mediaData quality in
  let refreshed := newQualities (Some mediaData) menu in
  (data_field qualities mediaData = None -> refreshed = Built menu) /\
  (forall l, data_field qualities mediaData = Some l ->
     refreshed = RawList l /\
     (l <> [] -> (List.length menu <= size refreshed)%nat)) /\
  (data_field qualities mediaData = Some [] ->
     menu <> [] /\ size refreshed = 0%nat).
Proof.
  cbv zeta. unfold newQualities. split; [|split].
  - intros ->. reflexivity.
  - intros l H. rewrite H. split; [reflexivity|].
    intros N. simpl.
    unfold availableQualities, jsonQualities. rewrite H.
    destruct l as [|q r]; [contradiction|].
    simpl orElse. cbv iota. apply normalize_length.
  - intros H. rewrite H. split; [|reflexivity].
    apply menu_without_json_list. right. exact H.
Qed.

End RefreshFacts.

Lemma refresh_sample :
  Menu.availableQualities Scenes.emptyList "auto" <> [] /\
  Refresh.size
    (Refresh.newQualities (Some Scenes.emptyList)
       (Menu.availableQualities Scenes.emptyList "auto")) = 0%nat.
Proof.
  apply (proj2 (proj2 (refresh_hands_over_the_raw_list
                         Scenes.emptyList "auto"))).
  reflexivity.
Defined.

(** *** The further properties on the sample data *)

Section MoreSamples.

Import JS Sources Menu Spec Derived.

(** An audio file whose name is in capitals: it is no .mp3, it is an
    .ogg. *)
Lemma getMimeType_sample :
  getMimeType (Some "/media/TALK.OGG") (Some "audio") = "audio/ogg".
Proof.
  apply (proj1 (proj2 (getMimeType_kind_and_case
                         (Some "/media/TALK.OGG") (Some "audio")))
           "/media/TALK.OGG" "audio/ogg" eq_refl).
  - discriminate.
  - reflexivity.
  - left. exists [(".mp3", "audio/mpeg")], ".ogg",
      [(".wav", "audio/wav"); (".m4a", "audio/mp4")].
    split; [reflexivity|]. split.
    + exists "/media/talk", "". reflexivity.
    + intros e t [E|[]] M. injection E as <- _.
      apply (has_mentions "/media/TALK.OGG" ".mp3" eq_refl) in M.
      discriminate M.
Defined.

(** The only source of a media with nothing to play has no label. *)
Lemma resolved_sources_sample :
  fromHls Samples.bare "720p" = None /\
  fromEncodings Samples.bare "720p" = None.
Proof.
  apply (proj2 (resolved_sources_are_playable Samples.bare "720p")
           sampleSource).
  - left. reflexivity.
  - reflexivity.
Defined.

Lemma masterFile_adaptive :
  masterFile Samples.adaptive Samples.playlists
             "/media/hls/5073/master.m3u8".
Proof. repeat split. Defined.

(** 1080p has no playlist: the master file answers, although the media
    has encoded renditions. *)
Lemma master_file_sample :
  getVideoSources Samples.adaptive "1080p"
  = [hlsSource Samples.adaptive "/media/hls/5073/master.m3u8" "Auto"].
Proof.
  apply (proj2 (proj2 (master_file_takes_precedence Samples.adaptive
                         Samples.playlists "/media/hls/5073/master.m3u8"
                         masterFile_adaptive))).
  reflexivity.
Defined.

Lemma menu_choice_rendition_sample :
  exists src,
    Some "/media/encoded/13/a.mp4" = Some src /\
    getVideoSources Samples.encodedOnly "480p"
    = [ {| Source.src := src;
           Source.type := "video/mp4";
           Source.label := Some "480p" |} ].
Proof.
  assert (A : availableKeys Samples.renditions <> []) by discriminate.
  apply (menu_choice_resolves_to_its_rendition Samples.encodedOnly
           Samples.renditions "auto"
           {| Quality.label := "480p"; Quality.value := "480p";
              Quality.src := Some "/media/encoded/13/a.mp4";
              Quality.type := "video/mp4" |}
           (or_introl eq_refl) no_manifest_encodedOnly eq_refl A
           resolution_renditions_sample).
  right. left. reflexivity.
Defined.

Lemma menu_choice_playlist_sample :
  exists src,
    Some "https://videojs.mediacms.io/media/hls/5073/media-2/stream.m3u8"
    = Some src /\
    getVideoSources Samples.adaptive "480p"
    = [ {| Source.src := src;
           Source.type := hlsMimeType;
           Source.label := Some "480pp" |} ].
Proof.
  assert (P : resolutionPlaylists Samples.adaptive).
  { intros hls H. injection H as <-.
    constructor; [intros W; discriminate W|].
    constructor; [intros _; exists "240"; split; reflexivity|].
    constructor; [intros _; exists "480"; split; reflexivity|].
    constructor; [intros _; exists "720"; split; reflexivity|].
    constructor; [intros _; exists "144"; split; reflexivity|].
    constructor. }
  assert (N : playlistsNamed Samples.playlists).
  { intros k [<-|[<-|[<-|[<-|[<-|[]]]]]] E; try reflexivity. }
  apply (menu_choice_resolves_to_its_playlist Samples.adaptive
           Samples.playlists "/media/hls/5073/master.m3u8" "auto"
           {| Quality.label := "480p"; Quality.value := "480p";
              Quality.src :=
                Some "https://videojs.mediacms.io/media/hls/5073/media-2/stream.m3u8";
              Quality.type := "application/x-mpegURL" |}
           (or_introl eq_refl) masterFile_adaptive P N).
  right. right. left. reflexivity.
Defined.

(** Both entries of the sample JSON list have a source. *)
Lemma quality_menu_json_sample :
  availableQualities Samples.listed "auto" = [] <->
  Forall (fun r => truthy_opt (Quality.src (norm Samples.listed r)) = false)
         [ Samples.jsonQuality "720p" "/a.mp4";
           Samples.jsonQuality "720p" "/b.mp4" ].
Proof.
  apply (proj2 (quality_menu_empty_only_for_json_lists
                  Samples.listed "auto")).
  reflexivity.
Defined.

Lemma autoplay_bounds_sample :
  exists w' added,
    Autoplay.autoplayOnNavigation Samples.strict false (Some "2Uk08Il5u")
      Samples.idle = (Autoplay.Ok tt, w') /\
    Autoplay.trace w' = (Autoplay.trace Samples.idle ++ added)%list /\
    (List.length (filter Autoplay.isPlayCall added) <= 2)%nat.
Proof.
  destruct (autoplay_returns_within_two_calls Samples.strict false
              (Some "2Uk08Il5u") Samples.idle)
    as (w' & added & H1 & H2 & H3 & _).
  exists w', added. repeat split; assumption.
Defined.

End MoreSamples.

Section CaptionSamples.

Import Captions Stated Scenes.

Lemma settled_watching : settledOn "en" (tracks watching).
Proof.
  intros t [<-|[<-|[<-|[]]]] S; try discriminate S;
    repeat split; intros; try reflexivity; discriminate.
Defined.

Lemma toggleSubs_underline_sample :
  active (toggleSubs reliable (Some "en") watching)
  = anyShowing (tracks (toggleSubs reliable (Some "en") watching)) /\
  syncUnderline (toggleSubs reliable (Some "en") watching)
  = toggleSubs reliable (Some "en") watching.
Proof.
  apply (toggleSubs_keeps_underline_in_sync reliable (Some "en") watching).
  reflexivity.
Defined.

(** A click while English is on leaves the English track off. *)
Lemma toggleSubs_chosen_sample :
  mode (setMode Disabled english) = Showing <->
  anyShowing (tracks watching) = false /\
  chosenLanguage (Some "en") (tracks watching)
  = Some (language (setMode Disabled english)).
Proof.
  apply (toggleSubs_shows_the_chosen_language reliable (Some "en") watching).
  - right. left. reflexivity.
  - reflexivity.
Defined.

Lemma toggleSubs_off_then_on_sample :
  tracks (toggleSubs reliable (Some "en")
            (toggleSubs reliable (Some "en") watching))
  = tracks watching.
Proof.
  apply (toggleSubs_off_then_on reliable "en" watching eq_refl eq_refl
           settled_watching).
Defined.

(** An unreliable store does not change what a click shows. *)
Lemma toggleSubs_writes_sample :
  tracks (toggleSubs (fun _ _ => true) None watching)
  = tracks (toggleSubs reliable None watching).
Proof.
  destruct (toggleSubs_writes reliable None watching)
    as (added & _ & _ & _ & _ & H).
  apply (H (fun _ _ => true)).
Defined.

End CaptionSamples.

(** *** Caption cues on iOS *)

Section CueFacts.

Import Captions Cues Stated.

Lemma place_place (n m : Z) (c : cue) : place n (place m c) = place n c.
Proof. reflexivity. Qed.

Lemma place_again (n m : Z) (l : list cue) :
  map (place n) (map (place m) l) = map (place n) l.
Proof. rewrite map_map. apply map_ext. intros c. apply place_place. Qed.

Lemma place_placedAt (n : Z) (l : list cue) :
  Forall2 (placedAt n) l (map (place n) l).
Proof.
  induction l as [|c r IH]; simpl; constructor; [|exact IH].
  repeat split.
Qed.

Lemma placedAt_again (n m : Z) (l l' : list cue) :
  Forall2 (placedAt m) l l' -> Forall2 (placedAt n) l (map (place n) l').
Proof.
  induction 1 as [|c c' r r' (_ & _ & _ & _ & S & E & T) _ IH]; simpl;
    constructor; [|exact IH].
  repeat split; simpl; assumption.
Qed.

Lemma captionKind_spec (t : track) :
  captionKind (kind t) = true <-> captionTrack t.
Proof.
  unfold captionTrack. destruct (kind t); simpl; split;
    intros H; try reflexivity; try discriminate; auto;
    destruct H; discriminate.
Qed.

Lemma loaded_spec (t : track) (l : list cue) :
  loaded t = Some l <-> cues t = Some l /\ l <> [].
Proof.
  unfold loaded. destruct (cues t) as [[|c r]|]; split.
  - discriminate.
  - intros [[= <-] N]. contradiction.
  - intros [= <-]. split; [reflexivity | discriminate].
  - intros [[= <-] _]. reflexivity.
  - discriminate.
  - intros [H _]. discriminate H.
Qed.

Lemma loaded_none (t : track) : loaded t = None <-> withoutCues t.
Proof.
  unfold loaded, withoutCues. destruct (cues t) as [[|c r]|]; split;
    intros H; auto; try discriminate; destruct H; discriminate.
Qed.

Lemma chosenLine_asksFor (linePosition : option Z) (userInactive : bool)
  (n : Z) :
  asksFor linePosition userInactive n ->
  chosenLine linePosition userInactive = n.
Proof.
  intros [->|[(-> & -> & ->)|(-> & -> & ->)]]; reflexivity.
Qed.

(** X17: what [adjustIOSCues] does to the text tracks.  The line is the
    argument of the call, or -2 for an inactive user and -4 otherwise.
    Tracks that are neither subtitles nor captions (the chapters track
    among them) are left exactly as they are; a subtitles or captions
    track keeps its kind and, when it has cues, the number, order, times
    and text of its cues, every one of which gets the line, a size of 90,
    position auto and align center; one without cues keeps what it has
    and gets one more waiting listener for the line.  Calling it again
    changes no cue. *)
Theorem adjustIOSCues_places_caption_cues (linePosition : option Z)
  (userInactive : bool) (textTracks : list track) (n : Z) :
  asksFor linePosition userInactive n ->
  let after := adjustIOSCues linePosition userInactive textTracks in
  Forall2 (adjusted n)
          textTracks after /\
  map cues (adjustIOSCues linePosition userInactive after)
  = map cues after.
Proof.
  intros A. cbv zeta. unfold adjustIOSCues.
  rewrite (chosenLine_asksFor _ _ _ A). clear A.
  split.
  - induction textTracks as [|t r IH]; simpl; constructor; auto.
    unfold adjusted, adjustTrack.
    destruct (captionKind (kind t)) eqn:K.
    + apply captionKind_spec in K.
      destruct (loaded t) as [l|] eqn:L; simpl.
      * apply loaded_spec in L as [L N].
        split; [reflexivity|]. split; [intros C; contradiction|].
        split.
        -- intros l' _ E _. rewrite L in E. injection E as <-.
           exists (map (place n) l).
           split; [reflexivity|]. split; [apply place_placedAt|].
           reflexivity.
        -- intros _ [W|W]; rewrite L in W; congruence.
      * apply loaded_none in L.
        split; [reflexivity|]. split; [intros C; contradiction|].
        split; [|auto].
        intros l C E N. destruct L as [L|L]; rewrite L in E; congruence.
    + split; [reflexivity|]. split; [reflexivity|].
      assert (C : ~ captionTrack t).
      { intros C. apply captionKind_spec in C. congruence. }
      split; [intros l C'; contradiction | intros C'; contradiction].
  - rewrite !map_map. apply map_ext. intros t.
    unfold adjustTrack at 2 3.
    destruct (captionKind (kind t)) eqn:K.
    + destruct (loaded t) as [l|] eqn:L.
      * apply loaded_spec in L as [_ N].
        unfold adjustTrack. simpl. rewrite K.
        assert (E : loaded {| kind := kind t;
                              cues := Some (map (place n) l);
                              waiting := waiting t |}
                    = Some (map (place n) l)).
        { destruct l; [contradiction | reflexivity]. }
        rewrite E. simpl. rewrite place_again. reflexivity.
      * unfold adjustTrack. simpl. rewrite K.
        assert (E : loaded {| kind := kind t; cues := cues t;
                              waiting := (waiting t ++ [n])%list |} = None).
        { unfold loaded in *. simpl. exact L. }
        rewrite E. reflexivity.
    + unfold adjustTrack. rewrite K. reflexivity.
Qed.

Lemma placed_last (lines : list Z) (n : Z) (l : list cue) :
  fold_left (fun cs m => map (place m) cs) (lines ++ [n])%list l
  = map (place n) l.
Proof.
  rewrite fold_left_app. simpl.
  revert l. induction lines as [|m r IH]; intros l; simpl.
  - reflexivity.
  - rewrite IH. apply place_again.
Qed.

Lemma adjustTrack_waits (lines : list Z) (t : track) :
  captionKind (kind t) = true -> loaded t = None ->
  fold_left (fun t n => adjustTrack n t) lines t
  = {| kind := kind t; cues := cues t;
       waiting := (waiting t ++ lines)%list |}.
Proof.
  revert t. induction lines as [|n r IH]; intros t K L; simpl.
  - rewrite app_nil_r. destruct t; reflexivity.
  - unfold adjustTrack at 2. rewrite K, L.
    rewrite IH by (simpl; auto). simpl.
    rewrite <- app_assoc. reflexivity.
Qed.

(** X18: cues that load late.  For a subtitles or captions track without
    cues and without listeners, every call made before the cues are
    there adds one waiting listener; a [cuechange] event before the cues
    are there changes nothing; once the cues are loaded the event runs
    all the listeners, which leaves every cue on the line of the last
    call made before the load, and no listener waiting.  A call made
    after the load and before that event places the cues on its own
    line but leaves the listeners waiting, so that the event then puts
    every cue back on the line of the last call made before the load. *)
Theorem late_cues_get_the_latest_line (t : track) (earlier : list Z)
  (latest : Z) (l : list cue) :
  captionTrack t ->
  withoutCues t ->
  waiting t = [] ->
  l <> [] ->
  let pending :=
    fold_left (fun t n => adjustTrack n t) (earlier ++ [latest])%list t in
  waiting pending = (earlier ++ [latest])%list /\
  cueChange pending = pending /\
  (exists l',
     cueChange (load l pending)
     = {| kind := kind t; cues := Some l'; waiting := [] |} /\
     Forall2 (placedAt latest) l l') /\
  (forall n,
     let direct := adjustTrack n (load l pending) in
     (exists l', cues direct = Some l' /\ Forall2 (placedAt n) l l') /\
     waiting direct = (earlier ++ [latest])%list /\
     exists l'',
       cueChange direct
       = {| kind := kind t; cues := Some l''; waiting := [] |} /\
       Forall2 (placedAt latest) l l'').
Proof.
  intros K L W N. cbv zeta.
  apply captionKind_spec in K. apply loaded_none in L.
  rewrite (adjustTrack_waits _ t K L), W. simpl.
  split; [reflexivity|]. split; [|split].
  - unfold cueChange.
    assert (E : loaded {| kind := kind t; cues := cues t;
                          waiting := (earlier ++ [latest])%list |} = None)
      by exact L.
    rewrite E. reflexivity.
  - exists (map (place latest) l). split; [|apply place_placedAt].
    unfold cueChange, load, loaded. simpl.
    destruct l as [|c r]; [contradiction|].
    rewrite placed_last. reflexivity.
  - intros n. unfold adjustTrack, load. simpl. rewrite K.
    assert (E : loaded {| kind := kind t; cues := Some l;
                          waiting := (earlier ++ [latest])%list |}
                = Some l).
    { destruct l; [contradiction | reflexivity]. }
    rewrite E. simpl.
    split; [exists (map (place n) l); split;
            [reflexivity | apply place_placedAt]|].
    split; [reflexivity|].
    exists (map (place latest) l). split; [|apply place_placedAt].
    unfold cueChange, loaded. simpl.
    destruct l as [|c r]; [contradiction|]. simpl map.
    cbv iota. rewrite placed_last.
    change (place n c :: map (place n) r) with (map (place n) (c :: r)).
    rewrite place_again. reflexivity.
Qed.

End CueFacts.

Section CueSamples.

Import Captions Cues Stated Scenes.

(** With the controls hidden a call without argument asks for line -2. *)
Lemma adjustIOSCues_sample :
  Forall2 (adjusted (-2)) [spoken; chapterMarks]
          (adjustIOSCues None true [spoken; chapterMarks]) /\
  map cues (adjustIOSCues None true
              (adjustIOSCues None true [spoken; chapterMarks]))
  = map cues (adjustIOSCues None true [spoken; chapterMarks]).
Proof.
  apply (adjustIOSCues_places_caption_cues None true
           [spoken; chapterMarks] (-2)%Z).
  right; left. repeat split.
Defined.

(** The greeting goes to line -2, the chapter marker stays. *)
Example adjustIOSCues_greeting :
  adjustIOSCues None true [spoken; chapterMarks]
  = [ {| kind := KSubtitles;
         cues := Some [ {| startTime := 1; endTime := 4; text := "Hello";
                           line := Line (-2); size := 90;
                           position := PositionAuto; align := "center" |} ];
         waiting := [] |};
      chapterMarks ].
Proof. reflexivity. Qed.

Lemma late_cues_sample :
  exists l',
    cueChange
      (load [greeting]
         (fold_left (fun t n => adjustTrack n t)
            ([(-4)%Z] ++ [(-2)%Z])%list silent))
    = {| kind := KSubtitles; cues := Some l'; waiting := [] |} /\
    Forall2 (placedAt (-2)) [greeting] l'.
Proof.
  apply (late_cues_get_the_latest_line silent [(-4)%Z] (-2)%Z [greeting]).
  - left. reflexivity.
  - left. reflexivity.
  - reflexivity.
  - discriminate.
Defined.

End CueSamples.

(** *** Tap to play or pause *)

Section TapFacts.

Import Tap Stated.

Local Open Scope float_scope.

Variable pow : float -> float -> float.
Variable sqrt : float -> float.

(** While the flag is up and no timer comes due, nothing is asked of the
    player and the flag stays up. *)
Lemma run_protected (events : list event) (s : state) :
  seekbarTouching s = true ->
  Forall (fun e => e <> Timer) events ->
  Forall (fun commands => commands = []) (fst (run pow sqrt events s)) /\
  seekbarTouching (snd (run pow sqrt events s)) = true.
Proof.
  revert s. induction events as [|e rest IH]; intros s F N; simpl.
  - split; [constructor | exact F].
  - inversion N as [|? ? Ne Nr]; subst.
    destruct e as [now touch progress | now touch v |]; simpl.
    + assert (G : seekbarTouching (handleTouchStart now touch progress s)
                  = true).
      { unfold handleTouchStart. simpl. rewrite F.
        destruct progress as [r|]; [|reflexivity].
        destruct (isInSeekbarArea touch r); reflexivity. }
      destruct (IH _ G Nr) as [H1 H2].
      destruct (run pow sqrt rest _) as [more final]. simpl in *.
      split; [constructor; [reflexivity | exact H1] | exact H2].
    + destruct (IH _ F Nr) as [H1 H2].
      destruct (run pow sqrt rest s) as [more final]. simpl in *.
      split; [|exact H2]. constructor; [|exact H1].
      unfold handleTouchEnd. rewrite F, andb_false_r. reflexivity.
    + contradiction.
Qed.

(** X19: a touch that starts on the seek bar, or within the 8 pixels
    above it, raises a flag, and as long as none of the timers that the
    [touchend]s start comes due, nothing that follows plays or pauses:
    every [touchend] does nothing, wherever and whenever the finger is
    lifted, also after further [touchstart]s anywhere.  A timer coming
    due while the finger is still down (the timer of an earlier
    [touchend]) takes the flag down: the [touchend] is then judged like
    that of a touch that did not start on the seek bar, and a quick one
    pauses a playing video whose controls are visible. *)
Theorem seekbar_touch_is_not_a_tap (now : Z) (touch : point)
  (progressRect : rect) (s : state) :
  isInSeekbarArea touch progressRect = true ->
  let held := handleTouchStart now touch (Some progressRect) s in
  (forall events,
     Forall (fun e => e <> Timer) events ->
     Forall (fun commands => commands = []) (fst (run pow sqrt events held))
     /\ seekbarTouching (snd (run pow sqrt events held)) = true) /\
  (forall later where_ v,
     fst (run pow sqrt [Timer; TouchEnd later where_ v] held)
     = [ []; handleTouchEnd pow sqrt later where_ v
               (handleTouchStart now touch None
                  (clearSeekbarTouching s)) ]) /\
  (forall later where_ v,
     (later - now < 500)%Z ->
     (distance pow sqrt where_ touch <? 50) = true ->
     paused v = false -> controlsVisible v = true ->
     fst (run pow sqrt [Timer; TouchEnd later where_ v] held)
     = [[]; [Pause]]).
Proof.
  intros A. cbv zeta.
  assert (F : seekbarTouching
                (handleTouchStart now touch (Some progressRect) s) = true).
  { unfold handleTouchStart. simpl. rewrite A. reflexivity. }
  split; [|split].
  - intros events N. now apply run_protected.
  - intros later w v. reflexivity.
  - intros later w v Q D P C. simpl.
    unfold handleTouchEnd. simpl.
    apply Z.ltb_lt in Q. rewrite Q, D, P, C. simpl.
    destruct (isTapOnCenterIcon w v); reflexivity.
Qed.

Lemma isTapOnCenterIcon_spec (touch : point) (v : view) :
  isTapOnCenterIcon touch v = true <-> onCentreIcon touch v.
Proof.
  unfold isTapOnCenterIcon, onCentreIcon.
  destruct (icon v) as [r|].
  - rewrite !andb_true_iff. split.
    + intros [[[A B] C] D]. exists r. repeat split; assumption.
    + intros (r' & [= <-] & A & B & C & D). repeat split; assumption.
  - split; [discriminate | intros (r & E & _); discriminate E].
Qed.

(** X20: what a [touchend] asks of the player.  Nothing, unless the touch
    lasted under 500 ms, moved less than 50 pixels and the seek bar flag
    is down; then exactly one thing: a paused player is played, wherever
    the tap lands; a playing one is paused when the tap is on the visible
    centre icon or the controls are visible, and otherwise only has its
    controls shown (with the centre icon, when that component exists).
    So the player is never asked to play while it plays or to pause
    while it is paused. *)
Theorem tap_commands_follow_the_player (now : Z) (touch : point)
  (v : view) (s : state) :
  let commands := handleTouchEnd pow sqrt now touch v s in
  let tap :=
    (now - touchStartTime s < 500)%Z /\ seekbarTouching s = false /\
    (distance pow sqrt touch (touchStartPos s) <? 50) = true in
  (tap -> paused v = true -> commands = [Play]) /\
  (tap -> paused v = false ->
   onCentreIcon touch v \/ controlsVisible v = true ->
   commands = [Pause]) /\
  (tap -> paused v = false ->
   ~ onCentreIcon touch v -> controlsVisible v = false ->
   commands
   = UserActive true
       :: (if seekIndicator v then [ShowMobilePauseIcon] else [])) /\
  ((500 <= now - touchStartTime s)%Z \/ seekbarTouching s = true \/
   (distance pow sqrt touch (touchStartPos s) <? 50) = false ->
   commands = []) /\
  (commands <> [] -> tap) /\
  (In Play commands -> paused v = true /\ commands = [Play]) /\
  (In Pause commands ->
   paused v = false /\ commands = [Pause] /\
   (onCentreIcon touch v \/ controlsVisible v = true)) /\
  (forall b, In (UserActive b) commands ->
     b = true /\ paused v = false /\ controlsVisible v = false /\
     ~ onCentreIcon touch v) /\
  (In ShowMobilePauseIcon commands -> In (UserActive true) commands).
Proof.
  cbv zeta. unfold handleTouchEnd.
  pose proof (isTapOnCenterIcon_spec touch v) as I.
  destruct (now - touchStartTime s <? 500)%Z eqn:T; simpl.
  2:{ apply Z.ltb_ge in T.
      repeat split; try contradiction; try (intros; contradiction);
        try (intros [? _]; lia); auto. }
  apply Z.ltb_lt in T.
  destruct (seekbarTouching s) eqn:B; simpl.
  { repeat split; try contradiction; try (intros; contradiction);
      try (intros (_ & ? & _); discriminate); auto. }
  destruct (distance pow sqrt touch (touchStartPos s) <? 50) eqn:D.
  2:{ repeat split; try contradiction; try (intros; contradiction);
        try (intros (_ & _ & ?); discriminate); auto. }
  assert (Tap : (now - touchStartTime s < 500)%Z /\ false = false /\
                true = true) by auto.
  assert (NoReason : (500 <= now - touchStartTime s)%Z \/ false = true \/
                     true = false -> False)
    by (intros [?|[?|?]]; try discriminate; lia).
  destruct (paused v) eqn:P.
  { split; [auto|]. split; [discriminate|]. split; [discriminate|].
    split; [intros R; destruct (NoReason R)|]. split; [auto|].
    split; [auto|]. split; [intros [H|[]]; discriminate|].
    split; [intros b [H|[]]; discriminate | intros [H|[]]; discriminate]. }
  destruct (isTapOnCenterIcon touch v) eqn:Ic.
  { assert (O : onCentreIcon touch v) by (now apply I).
    split; [discriminate|]. split; [auto|].
    split; [intros _ _ N; contradiction|].
    split; [intros R; destruct (NoReason R)|]. split; [auto|].
    split; [intros [H|[]]; discriminate|]. split; [auto|].
    split; [intros b [H|[]]; discriminate | intros [H|[]]; discriminate]. }
  assert (O : ~ onCentreIcon touch v).
  { intros O. apply I in O. discriminate. }
  destruct (controlsVisible v) eqn:C.
  { split; [discriminate|]. split; [auto|].
    split; [discriminate|].
    split; [intros R; destruct (NoReason R)|]. split; [auto|].
    split; [intros [H|[]]; discriminate|]. split; [auto|].
    split; [intros b [H|[]]; discriminate | intros [H|[]]; discriminate]. }
  split; [discriminate|].
  split; [intros _ _ [H|H]; [contradiction | discriminate]|].
  split; [auto|].
  split; [intros R; destruct (NoReason R)|]. split; [auto|].
  split.
  { intros [H|H]; [discriminate|].
    destruct (seekIndicator v); simpl in H; intuition discriminate. }
  split.
  { intros [H|H]; [discriminate|].
    destruct (seekIndicator v); simpl in H; intuition discriminate. }
  split.
  { intros b [H|H].
    - injection H as <-. auto.
    - destruct (seekIndicator v); simpl in H; intuition discriminate. }
  intros _. left. reflexivity.
Qed.

End TapFacts.

Section TapSamples.

Import Tap Stated Scenes.

Local Open Scope float_scope.

(** A finger put down 5 pixels above the progress bar and lifted at once
    does nothing; lifted after the timer of an earlier tap has come due,
    it pauses the video. *)
Lemma seekbar_touch_sample :
  Forall (fun commands => commands = [])
    (fst (run square PrimFloat.sqrt
            [TouchEnd 1100 aboveBar watchingControls]
            (handleTouchStart 1000 aboveBar (Some progressBar) initial)))
  /\
  fst (run square PrimFloat.sqrt
         [Timer; TouchEnd 1100 aboveBar watchingControls]
         (handleTouchStart 1000 aboveBar (Some progressBar) initial))
  = [[]; [Pause]].
Proof.
  destruct (seekbar_touch_is_not_a_tap square PrimFloat.sqrt 1000 aboveBar
              progressBar initial eq_refl) as (Quiet & _ & Lifted).
  split.
  - apply Quiet. constructor; [discriminate | constructor].
  - apply Lifted; reflexivity.
Defined.

(** A quick tap in the middle of a playing video with its controls
    showing pauses it. *)
Lemma tap_pauses_sample :
  handleTouchEnd square PrimFloat.sqrt 1100 middle watchingControls
    (handleTouchStart 1000 middle (Some progressBar) initial)
  = [Pause].
Proof.
  apply (proj1 (proj2 (tap_commands_follow_the_player square
                         PrimFloat.sqrt 1100 middle watchingControls
                         (handleTouchStart 1000 middle (Some progressBar)
                            initial)))).
  - repeat split.
  - reflexivity.
  - right. reflexivity.
Defined.

End TapSamples.

(** *** Chapters: the whole list or nothing *)

Section ChapterFacts.

Import JS Chapters.

Lemma hasRealChapters_generic (c : Raw.chapter) (d : option float) :
  hasRealChapters (Some [c]) d = false -> isGenericTitle c = true.
Proof.
  unfold hasRealChapters.
  destruct (isGenericTitle c); [reflexivity|].
  rewrite !andb_false_r. simpl.
  destruct d as [d|]; [|discriminate].
  destruct (durationKnown (Some d)); [|discriminate].
  destruct (isFullVideo _ _ d); discriminate.
Qed.

(** X21: the chapters of the player are the whole list of the media or
    nothing.  A non-empty [chapter_data] is converted entry by entry, or
    dropped altogether, and it is dropped only when it is a single
    chapter with a generic title; the sample chapters of development
    mode replace absent or empty data only, never a dropped chapter; and
    outside development mode every chapter shown is the conversion of
    one of the media. *)
Theorem chaptersData_whole_list_or_nothing (isDevMode : bool)
  (mediaData : media_data) :
  (forall raw, data_field chapter_data mediaData = Some raw -> raw <> [] ->
     chaptersData isDevMode mediaData = map convertChapter raw \/
     (chaptersData isDevMode mediaData = [] /\
      exists c, raw = [c] /\ isGenericTitle c = true)) /\
  (data_field chapter_data mediaData = None \/
   data_field chapter_data mediaData = Some [] ->
   chaptersData isDevMode mediaData
   = if isDevMode then map convertChapter devChapters else []) /\
  (forall ch, In ch (chaptersData false mediaData) ->
     exists raw c,
       data_field chapter_data mediaData = Some raw /\ In c raw /\
       ch = convertChapter c).
Proof.
  split; [|split].
  - intros raw H N. unfold chaptersData. rewrite H.
    destruct raw as [|c l]; [contradiction|].
    destruct (hasRealChapters (Some (c :: l)) (videoDuration mediaData))
      eqn:R; [left; reflexivity|].
    right. split; [reflexivity|].
    destruct l as [|c2 l]; [|discriminate R].
    exists c. split; [reflexivity|].
    eapply hasRealChapters_generic. exact R.
  - unfold chaptersData. intros [-> | ->]; reflexivity.
  - intros ch. unfold chaptersData.
    destruct (data_field chapter_data mediaData) as [[|c l]|] eqn:H;
      try contradiction.
    destruct (hasRealChapters _ _); [|contradiction].
    unfold convertChaptersData. intros I.
    apply in_map_iff in I as (r & <- & Ir).
    exists (c :: l), r. auto.
Qed.

Lemma chaptersData_dev_sample :
  chaptersData true Samples.bare = map convertChapter devChapters.
Proof.
  apply (proj1 (proj2 (chaptersData_whole_list_or_nothing
                         true Samples.bare))).
  left. reflexivity.
Defined.

End ChapterFacts.

(** *** The current video, whatever the descriptor lacks *)

Section VideoFacts.

Import JS Sources Player Derived.

Variable audioPosterImg : string.
Variable mediaData : media_data.

Lemma siteRelative_cases (f : media -> option string) (other : string) :
  siteRelative mediaData f other = other \/
  exists u, data_field f mediaData = Some u /\ truthy_str u = true /\
            siteRelative mediaData f other = siteUrl mediaData ++ u.
Proof.
  unfold siteRelative.
  destruct (data_field f mediaData) as [u|]; [|left; reflexivity].
  destruct (truthy_str u) eqn:T; [|left; reflexivity].
  right. exists u. auto.
Qed.

(** X22: the record of the current video is complete for every
    descriptor: its id, title and author name are never empty (the
    fallbacks are 'default-video', 'Video' and 'Unknown'), it has at
    least one source and every source is playable, the poster is the
    audio poster image unless the media names one, which is then put
    under the site address, and it carries the related media of the
    descriptor whole (an empty list when the descriptor has none), of
    which the end screen lists the first twelve, each with a non-empty
    author. *)
Theorem currentVideo_is_complete (userQualityPreference : string) :
  let v := currentVideo audioPosterImg mediaData userQualityPreference in
  (truthy_str (Video.id v) = true /\ truthy_str (Video.title v) = true /\
   truthy_str (Video.author_name v) = true) /\
  (Video.sources v <> [] /\ Forall playable (Video.sources v)) /\
  (Video.poster v = audioPosterImg \/
   exists u, data_field poster_url mediaData = Some u /\
             truthy_str u = true /\
             Video.poster v = siteUrl mediaData ++ u) /\
  (forall l, data_field related_media mediaData = Some l ->
     Video.related_media v = l) /\
  (data_field related_media mediaData = None ->
   Video.related_media v = []) /\
  relatedVideos mediaData
  = map relatedVideo (firstn 12 (Video.related_media v)) /\
  Forall (fun r => truthy_str (Related.author r) = true)
         (relatedVideos mediaData).
Proof.
  cbv zeta. unfold currentVideo. simpl.
  split; [|split; [|split; [|split; [|split; [|split]]]]].
  - repeat split; apply or_str_truthy; reflexivity.
  - split; [apply getVideoSources_cons | apply getVideoSources_playable].
  - apply siteRelative_cases.
  - intros l ->. reflexivity.
  - intros ->. reflexivity.
  - unfold relatedVideos.
    destruct (data_field related_media mediaData); reflexivity.
  - unfold relatedVideos.
    destruct (data_field related_media mediaData) as [l|]; [|constructor].
    apply Forall_forall. intros r I.
    apply in_map_iff in I as (x & <- & _). simpl.
    apply or_str_truthy. reflexivity.
Qed.

End VideoFacts.
